(** * A shallow embedding of the CHIP-8 virtual machine of [src/chip8.cpp]

    The machine state, the opcode executor [Chip8VM::step], the timer tick,
    key delivery, program load and the driver's frame loop are transcribed
    from the C++ source.  Fixed-width integers are integers of [Z] with the
    wrap-around of every narrowing conversion written out; [std::array]
    objects are lists that are read and written by index, and an index outside
    the array (undefined behaviour in the source, which indexes unchecked) is
    reported as a [fault]. *)

From Stdlib Require Import ZArith Lia Bool String Ascii.
From stdpp Require Import base list.

Local Open Scope Z_scope.

(** ** Constants ([namespace chip8c]) *)

Module chip8c.
Definition kDisplayWidth : Z := 64.
Definition kDisplayHeight : Z := 32.
Definition kPixelCount : Z := kDisplayWidth * kDisplayHeight.
Definition kMemSize : Z := 4096.
Definition kEntryAddr : Z := 0x200.
Definition kRegCount : Z := 16.
Definition kStackDepth : Z := 16.
Definition kTimerHz : Z := 60.
Definition kKeyCount : Z := 16.
Definition kGlyphBytes : Z := 5.
Definition kFontSprites : list Z :=
  [0xF0;0x90;0x90;0x90;0xF0; 0x20;0x60;0x20;0x20;0x70;
   0xF0;0x10;0xF0;0x80;0xF0; 0xF0;0x10;0xF0;0x10;0xF0;
   0x90;0x90;0xF0;0x10;0x10; 0xF0;0x80;0xF0;0x10;0xF0;
   0xF0;0x80;0xF0;0x90;0xF0; 0xF0;0x10;0x20;0x40;0x40;
   0xF0;0x90;0xF0;0x90;0xF0; 0xF0;0x90;0xF0;0x10;0xF0;
   0xF0;0x90;0xF0;0x90;0x90; 0xE0;0x90;0xE0;0x90;0xE0;
   0xF0;0x80;0x80;0x80;0xF0; 0xE0;0x90;0x90;0x90;0xE0;
   0xF0;0x80;0xF0;0x80;0xF0; 0xF0;0x80;0xF0;0x80;0x80].
End chip8c.
Import chip8c.

(** ** Fixed-width conversions *)

Definition u8 (z : Z) : Z := z mod 256.
Definition u16 (z : Z) : Z := z mod 65536.
Definition u32 (z : Z) : Z := z mod 4294967296.

(** [bool] converted to an integer, as in [st.v[0xF] = s > 0xFF]. *)
Definition b2z (b : bool) : Z := if b then 1 else 0.

(** ** Unchecked array accesses

    [std::array::operator[]] does no bounds check.  An access outside the
    array is a [fault] that names the array and the index. *)

Inductive fault : Type :=
| MemRange (i : Z)
| RegRange (i : Z)
| StackRange (i : Z)
| PixRange (i : Z).

Inductive res (A : Type) : Type :=
| Ok (a : A)
| Fault (f : fault).
Arguments Ok {A} a.
Arguments Fault {A} f.

Global Instance res_ret : MRet res := @Ok.
Global Instance res_bind : MBind res :=
  λ A B k r, match r with Ok a => k a | Fault f => Fault f end.

(** [a[i]] as an rvalue. *)
Definition at_ (mk : Z → fault) (a : list Z) (i : Z) : res Z :=
  if 0 <=? i then
    match a !! Z.to_nat i with
    | Some b => Ok b
    | None => Fault (mk i)
    end
  else Fault (mk i).

(** [a[i] = b]. *)
Definition put (mk : Z → fault) (a : list Z) (i b : Z) : res (list Z) :=
  if (0 <=? i) && (i <? Z.of_nat (length a)) then Ok (<[Z.to_nat i := b]> a)
  else Fault (mk i).

(** [for (u8 i = lo; i < lo + cnt; ++i) body(i)]: the counters of the source
    stay below 16, so the [u8] counter never wraps. *)
Fixpoint for_ {T : Type} (cnt : nat) (i : Z) (body : Z → T → res T) (t : T) : res T :=
  match cnt with
  | O => Ok t
  | S c => t' ← body i t; for_ c (i + 1) body t'
  end.

(** ** Keypad *)

(** The key codes and events of the windowing library that the source
    distinguishes; every other code is [SDLK_unmapped], every other event
    [SDL_OTHEREVENT]. *)
Inductive SDL_Keycode : Type :=
| SDLK_1 | SDLK_2 | SDLK_3 | SDLK_4
| SDLK_q | SDLK_w | SDLK_e | SDLK_r
| SDLK_a | SDLK_s | SDLK_d | SDLK_f
| SDLK_z | SDLK_x | SDLK_c | SDLK_v
| SDLK_ESCAPE
| SDLK_unmapped.

Inductive SDL_Event : Type :=
| SDL_QUIT
| SDL_KEYDOWN (sym : SDL_Keycode)
| SDL_KEYUP (sym : SDL_Keycode)
| SDL_OTHEREVENT.

Record Keypad : Type := mkKeypad { keys : list bool }.

Module Keypad.
Definition reset (k : Keypad) : Keypad :=
  mkKeypad (replicate (length (keys k)) false).

Definition set (k : Keypad) (i : Z) (b : bool) : Keypad :=
  if i <? Z.of_nat (length (keys k)) then mkKeypad (<[Z.to_nat i := b]> (keys k))
  else k.

Definition down (k : Keypad) (i : Z) : bool :=
  if i <? Z.of_nat (length (keys k)) then
    match keys k !! Z.to_nat i with Some b => b | None => false end
  else false.

Definition map (k : SDL_Keycode) : option Z :=
  match k with
  | SDLK_1 => Some 0x1 | SDLK_2 => Some 0x2 | SDLK_3 => Some 0x3 | SDLK_4 => Some 0xC
  | SDLK_q => Some 0x4 | SDLK_w => Some 0x5 | SDLK_e => Some 0x6 | SDLK_r => Some 0xD
  | SDLK_a => Some 0x7 | SDLK_s => Some 0x8 | SDLK_d => Some 0x9 | SDLK_f => Some 0xE
  | SDLK_z => Some 0xA | SDLK_x => Some 0x0 | SDLK_c => Some 0xB | SDLK_v => Some 0xF
  | _ => None
  end.
End Keypad.

(** ** Machine state ([Chip8VM::State], [Chip8VM::FB], [Chip8VM]) *)

Record State : Type := mkState {
  mem : list Z;
  v : list Z;
  I : Z;
  pc : Z;
  stack : list Z;
  sp : Z;
  DT : Z;
  ST : Z
}.

Record FB : Type := mkFB { pix : list Z }.

Record Chip8VM : Type := mkVM {
  st : State;
  fb : FB;
  waitKey : bool;
  waitReg : Z
}.

Definition set_mem (s : State) (a : list Z) : State :=
  mkState a (v s) (I s) (pc s) (stack s) (sp s) (DT s) (ST s).
Definition set_v (s : State) (a : list Z) : State :=
  mkState (mem s) a (I s) (pc s) (stack s) (sp s) (DT s) (ST s).
Definition set_I (s : State) (z : Z) : State :=
  mkState (mem s) (v s) z (pc s) (stack s) (sp s) (DT s) (ST s).
Definition set_pc (s : State) (z : Z) : State :=
  mkState (mem s) (v s) (I s) z (stack s) (sp s) (DT s) (ST s).
Definition set_stack (s : State) (a : list Z) : State :=
  mkState (mem s) (v s) (I s) (pc s) a (sp s) (DT s) (ST s).
Definition set_sp (s : State) (z : Z) : State :=
  mkState (mem s) (v s) (I s) (pc s) (stack s) z (DT s) (ST s).
Definition set_DT (s : State) (z : Z) : State :=
  mkState (mem s) (v s) (I s) (pc s) (stack s) (sp s) z (ST s).
Definition set_ST (s : State) (z : Z) : State :=
  mkState (mem s) (v s) (I s) (pc s) (stack s) (sp s) (DT s) z.

Definition set_st (m : Chip8VM) (s : State) : Chip8VM :=
  mkVM s (fb m) (waitKey m) (waitReg m).
Definition set_fb (m : Chip8VM) (f : FB) : Chip8VM :=
  mkVM (st m) f (waitKey m) (waitReg m).

Definition rd_mem (s : State) (i : Z) : res Z := at_ MemRange (mem s) i.
Definition wr_mem (s : State) (i b : Z) : res State :=
  a ← put MemRange (mem s) i b; Ok (set_mem s a).
Definition rd_v (s : State) (i : Z) : res Z := at_ RegRange (v s) i.
Definition wr_v (s : State) (i b : Z) : res State :=
  a ← put RegRange (v s) i b; Ok (set_v s a).

Module FB.
(** [pix.fill(0)] *)
Definition clear (f : FB) : FB := mkFB (replicate (length (pix f)) 0).
(** [at(x,y)] is a reference to [pix[y*kDisplayWidth+x]]. *)
Definition at_index (x y : Z) : Z := y * kDisplayWidth + x.
Definition get (f : FB) (x y : Z) : res Z := at_ PixRange (pix f) (at_index x y).
Definition set (f : FB) (x y b : Z) : res FB :=
  a ← put PixRange (pix f) (at_index x y) b; Ok (mkFB a).
End FB.

(** [State{}]: zeroed arrays, [pc] at the entry address. *)
Definition State_init : State :=
  mkState (replicate (Z.to_nat kMemSize) 0) (replicate (Z.to_nat kRegCount) 0)
          0 kEntryAddr (replicate (Z.to_nat kStackDepth) 0) 0 0 0.

(** [for (i = 0; i < bytes.size(); ++i) st.mem[base+i] = bytes[i]], with [i]
    the position of the head of [bytes]. *)
Fixpoint copy_in (base i : Z) (bytes : list Z) (s : State) : res State :=
  match bytes with
  | [] => Ok s
  | b :: bs => s' ← wr_mem s (base + i) b; copy_in base (i + 1) bs s'
  end.

(** [Chip8VM::reset] (the wait-for-key members are not touched by it). *)
Definition reset (m : Chip8VM) : res Chip8VM :=
  let fontAddr := 0x050 in
  s ← copy_in fontAddr 0 kFontSprites State_init;
  Ok (mkVM s (FB.clear (fb m)) (waitKey m) (waitReg m)).

(** The members as default-initialised before the constructor body runs. *)
Definition Chip8VM_members : Chip8VM :=
  mkVM State_init (mkFB (replicate (Z.to_nat kPixelCount) 0)) false 0.

(** [Chip8VM::Chip8VM() { reset(); }] *)
Definition Chip8VM_new : res Chip8VM := reset Chip8VM_members.

(** [Chip8VM::load].  The file system is the function [fs]: [fs path = None]
    when the stream cannot be opened, otherwise the bytes of the file.  The
    result carries the lines written to [std::cerr]. *)
Definition nl : string := String "010"%char EmptyString.

Definition load (fs : string → option (list Z)) (path : string) (m : Chip8VM)
  : res (Chip8VM * bool * list string) :=
  match fs path with
  | None => Ok (m, false, [String.append "ROM open fail: " (String.append path nl)])
  | Some bytes =>
      if kEntryAddr + Z.of_nat (length bytes) >? kMemSize
      then Ok (m, false, [String.append "ROM too big" nl])
      else
        s ← copy_in kEntryAddr 0 bytes (st m);
        Ok (set_st m (set_pc s kEntryAddr), true, [])
  end.

(** ** The opcode executor ([Chip8VM::step]) *)

(** Decoded fields.  Each is a masked value that already fits the type it is
    stored in ([u16 nnn], [u8 nn, n, x, y]), so the narrowing is the identity. *)
Definition op_fam (op : Z) : Z := Z.land op 0xF000.
Definition op_nnn (op : Z) : Z := Z.land op 0x0FFF.
Definition op_nn (op : Z) : Z := Z.land op 0xFF.
Definition op_n (op : Z) : Z := Z.land op 0xF.
Definition op_x (op : Z) : Z := Z.land (Z.shiftr op 8) 0xF.
Definition op_y (op : Z) : Z := Z.land (Z.shiftr op 4) 0xF.

(** [u16 op = (st.mem[st.pc] << 8) | st.mem[st.pc+1]]; the index [st.pc+1] is
    computed in [int] and does not wrap. *)
Definition fetch (s : State) : res Z :=
  hi ← rd_mem s (pc s);
  lo ← rd_mem s (pc s + 1);
  Ok (u16 (Z.lor (Z.shiftl hi 8) lo)).

(** [st.pc += 2] *)
Definition skip (s : State) : State := set_pc s (u16 (pc s + 2)).

(** [case 0x0000] *)
Definition exec_sys (m : Chip8VM) (op : Z) : res (Chip8VM * bool) :=
  let s := st m in
  if op_nn op =? 0xE0 then Ok (set_fb m (FB.clear (fb m)), true)
  else if op_nn op =? 0xEE then
    if sp s =? 0 then Ok (m, false)
    else
      let s := set_sp s (u8 (sp s - 1)) in
      a ← at_ StackRange (stack s) (sp s);
      Ok (set_st m (set_pc s a), false)
  else Ok (m, false).

(** [case 0x2000] *)
Definition exec_call (s : State) (op : Z) : res State :=
  if sp s <? kStackDepth then
    a ← put StackRange (stack s) (sp s) (pc s);
    let s := set_sp (set_stack s a) (u8 (sp s + 1)) in
    Ok (set_pc s (op_nnn op))
  else Ok s.

(** [case 0x8000]: the register-register operations.  The statements are
    executed in the order of the source, so a flag written to [v[0xF]] is
    visible to the reads of the statement that follows it. *)
Definition exec_alu (s : State) (op : Z) : res State :=
  let x := op_x op in
  let y := op_y op in
  let k := Z.land op 0xF in
  if k =? 0x0 then vy ← rd_v s y; wr_v s x vy
  else if k =? 0x1 then vx ← rd_v s x; vy ← rd_v s y; wr_v s x (Z.lor vx vy)
  else if k =? 0x2 then vx ← rd_v s x; vy ← rd_v s y; wr_v s x (Z.land vx vy)
  else if k =? 0x3 then vx ← rd_v s x; vy ← rd_v s y; wr_v s x (Z.lxor vx vy)
  else if k =? 0x4 then
    vx ← rd_v s x; vy ← rd_v s y;
    let sum := u16 (vx + vy) in
    s ← wr_v s 0xF (b2z (sum >? 0xFF));
    wr_v s x (u8 sum)
  else if k =? 0x5 then
    vx ← rd_v s x; vy ← rd_v s y;
    s ← wr_v s 0xF (b2z (vx >? vy));
    vx ← rd_v s x; vy ← rd_v s y;
    wr_v s x (u8 (vx - vy))
  else if k =? 0x6 then
    vx ← rd_v s x;
    s ← wr_v s 0xF (Z.land vx 1);
    vx ← rd_v s x;
    wr_v s x (Z.shiftr vx 1)
  else if k =? 0x7 then
    vy ← rd_v s y; vx ← rd_v s x;
    s ← wr_v s 0xF (b2z (vy >? vx));
    vy ← rd_v s y; vx ← rd_v s x;
    wr_v s x (u8 (vy - vx))
  else if k =? 0xE then
    vx ← rd_v s x;
    s ← wr_v s 0xF (Z.shiftr (Z.land vx 0x80) 7);
    vx ← rd_v s x;
    wr_v s x (u8 (Z.shiftl vx 1))
  else Ok s.

(** [case 0xD000]: the body of the column loop, of the row loop, and the
    instruction.  [%] on the non-negative operands of the source is [mod]. *)
Definition draw_col (sprite px py row col : Z) (m : Chip8VM) : res Chip8VM :=
  if Z.land sprite (Z.shiftr 0x80 col) =? 0 then Ok m
  else
    let sx := (px + col) mod kDisplayWidth in
    let sy := (py + row) mod kDisplayHeight in
    p ← FB.get (fb m) sx sy;
    s ← (if p =? 1 then wr_v (st m) 0xF 1 else Ok (st m));
    f ← FB.set (fb m) sx sy (u8 (Z.lxor p 1));
    Ok (set_fb (set_st m s) f).

Definition draw_row (px py row : Z) (m : Chip8VM) : res Chip8VM :=
  sprite ← rd_mem (st m) (I (st m) + row);
  for_ 8 0 (draw_col sprite px py row) m.

Definition exec_draw (m : Chip8VM) (op : Z) : res Chip8VM :=
  vx ← rd_v (st m) (op_x op);
  vy ← rd_v (st m) (op_y op);
  let px := u8 (vx mod kDisplayWidth) in
  let py := u8 (vy mod kDisplayHeight) in
  s ← wr_v (st m) 0xF 0;
  for_ (Z.to_nat (op_n op)) 0 (draw_row px py) (set_st m s).

(** [case 0xE000] *)
Definition exec_key (k : Keypad) (s : State) (op : Z) : res State :=
  if op_nn op =? 0x9E then
    vx ← rd_v s (op_x op);
    Ok (if Keypad.down k vx then skip s else s)
  else if op_nn op =? 0xA1 then
    vx ← rd_v s (op_x op);
    Ok (if negb (Keypad.down k vx) then skip s else s)
  else Ok s.

(** [case 0xF000] *)
Definition store_reg (base i : Z) (s : State) : res State :=
  vi ← rd_v s i; wr_mem s (base + i) vi.
Definition load_reg (base i : Z) (s : State) : res State :=
  b ← rd_mem s (base + i); wr_v s i b.

Definition exec_misc (m : Chip8VM) (op : Z) : res Chip8VM :=
  let s := st m in
  let x := op_x op in
  let nn := op_nn op in
  if nn =? 0x07 then s ← wr_v s x (DT s); Ok (set_st m s)
  else if nn =? 0x0A then Ok (mkVM (st m) (fb m) true x)
  else if nn =? 0x15 then vx ← rd_v s x; Ok (set_st m (set_DT s vx))
  else if nn =? 0x18 then vx ← rd_v s x; Ok (set_st m (set_ST s vx))
  else if nn =? 0x1E then vx ← rd_v s x; Ok (set_st m (set_I s (u16 (I s + vx))))
  else if nn =? 0x29 then
    vx ← rd_v s x;
    Ok (set_st m (set_I s (u16 (0x050 + Z.land vx 0xF * kGlyphBytes))))
  else if nn =? 0x33 then
    vx ← rd_v s x;
    s ← wr_mem s (I s) (vx / 100);
    s ← wr_mem s (I s + 1) ((vx / 10) mod 10);
    s ← wr_mem s (I s + 2) (vx mod 10);
    Ok (set_st m s)
  else if nn =? 0x55 then
    s ← for_ (Z.to_nat (x + 1)) 0 (store_reg (I s)) s; Ok (set_st m s)
  else if nn =? 0x65 then
    s ← for_ (Z.to_nat (x + 1)) 0 (load_reg (I s)) s; Ok (set_st m s)
  else Ok m.

(** The [switch (op & 0xF000)]; every case ends in [break], and an opcode
    that matches no case changes nothing.  [rnd] is the value that [rand()]
    returns if the instruction calls it. *)
Definition exec (k : Keypad) (rnd : Z) (m : Chip8VM) (op : Z) : res (Chip8VM * bool) :=
  let s := st m in
  let x := op_x op in
  let y := op_y op in
  let nn := op_nn op in
  let fam := op_fam op in
  let on_st (r : res State) : res (Chip8VM * bool) := s' ← r; Ok (set_st m s', false) in
  if fam =? 0x0000 then exec_sys m op
  else if fam =? 0x1000 then on_st (Ok (set_pc s (op_nnn op)))
  else if fam =? 0x2000 then on_st (exec_call s op)
  else if fam =? 0x3000 then
    on_st (vx ← rd_v s x; Ok (if vx =? nn then skip s else s))
  else if fam =? 0x4000 then
    on_st (vx ← rd_v s x; Ok (if negb (vx =? nn) then skip s else s))
  else if fam =? 0x5000 then
    if Z.land op 0xF =? 0 then
      on_st (vx ← rd_v s x; vy ← rd_v s y; Ok (if vx =? vy then skip s else s))
    else Ok (m, false)
  else if fam =? 0x6000 then on_st (wr_v s x nn)
  else if fam =? 0x7000 then on_st (vx ← rd_v s x; wr_v s x (u8 (vx + nn)))
  else if fam =? 0x8000 then on_st (exec_alu s op)
  else if fam =? 0x9000 then
    if Z.land op 0xF =? 0 then
      on_st (vx ← rd_v s x; vy ← rd_v s y; Ok (if negb (vx =? vy) then skip s else s))
    else Ok (m, false)
  else if fam =? 0xA000 then on_st (Ok (set_I s (op_nnn op)))
  else if fam =? 0xB000 then
    on_st (v0 ← rd_v s 0; Ok (set_pc s (u16 (op_nnn op + v0))))
  else if fam =? 0xC000 then on_st (wr_v s x (u8 (Z.land (Z.land rnd 0xFF) nn)))
  else if fam =? 0xD000 then m' ← exec_draw m op; Ok (m', true)
  else if fam =? 0xE000 then on_st (exec_key k s op)
  else if fam =? 0xF000 then m' ← exec_misc m op; Ok (m', false)
  else Ok (m, false).

Definition step (k : Keypad) (rnd : Z) (m : Chip8VM) : res (Chip8VM * bool) :=
  op ← fetch (st m);
  exec k rnd (set_st m (skip (st m))) op.

(** [Chip8VM::timerTick]; the result carries the lines written to
    [std::cout]. *)
Definition timerTick (m : Chip8VM) : Chip8VM * list string :=
  let s := st m in
  let s := if DT s >? 0 then set_DT s (u8 (DT s - 1)) else s in
  if ST s >? 0 then
    let s := set_ST s (u8 (ST s - 1)) in
    (set_st m s, if ST s >? 0 then [String.append "BEEP" nl] else [])
  else (set_st m s, []).

(** [Chip8VM::feedKey] *)
Definition feedKey (m : Chip8VM) (k : Z) : res Chip8VM :=
  if waitKey m then
    s ← wr_v (st m) (waitReg m) k;
    Ok (mkVM s (fb m) false (waitReg m))
  else Ok m.

(** [clamp] on [int]. *)
Definition clamp (x lo hi : Z) : Z :=
  if x <? lo then lo else if x >? hi then hi else x.

(** [scale] in [main]: [argc] and the value of [atoi(argv[2])]. *)
Definition main_scale (argc atoi_argv2 : Z) : Z :=
  if argc >=? 3 then clamp atoi_argv2 1 64 else 12.

(** ** The driver ([App::run])

    One iteration of the [while (!quit)] loop: the pending events are
    handled, [cycles] instructions are executed, and the timers tick when
    [dt] milliseconds have passed.  [now] is the value of [SDL_GetTicks()] and
    [rnd i] the value of [rand()] during cycle [i].  Pushing the framebuffer
    to the renderer is left out; the [draw] flag that triggers it is
    returned.  [1000 / opt.timerHz] is a division of [int]s, which truncates
    toward zero; [main] passes 60, and the source leaves a divisor of 0
    undefined. *)

Record Opt : Type := mkOpt { timerHz : Z; cycles : Z }.

(** The options that [main] passes. *)
Definition Opt_main : Opt := mkOpt kTimerHz 10.

Record App : Type := mkApp {
  opt : Opt;
  app_keys : Keypad;
  vm : Chip8VM;
  quit : bool;
  last : Z
}.

Definition on_event (a : App) (ev : SDL_Event) : res App :=
  match ev with
  | SDL_QUIT => Ok (mkApp (opt a) (app_keys a) (vm a) true (last a))
  | SDL_KEYDOWN sym =>
      let q := match sym with SDLK_ESCAPE => true | _ => quit a end in
      match Keypad.map sym with
      | Some c =>
          m ← feedKey (vm a) c;
          Ok (mkApp (opt a) (Keypad.set (app_keys a) c true) m q (last a))
      | None => Ok (mkApp (opt a) (app_keys a) (vm a) q (last a))
      end
  | SDL_KEYUP sym =>
      match Keypad.map sym with
      | Some c => Ok (mkApp (opt a) (Keypad.set (app_keys a) c false) (vm a) (quit a) (last a))
      | None => Ok a
      end
  | SDL_OTHEREVENT => Ok a
  end.

Fixpoint poll_events (evs : list SDL_Event) (a : App) : res App :=
  match evs with
  | [] => Ok a
  | ev :: evs => a' ← on_event a ev; poll_events evs a'
  end.

(** [draw |= vm.step(keys)] *)
Definition cycle (k : Keypad) (rnd : Z → Z) (i : Z) (md : Chip8VM * bool)
  : res (Chip8VM * bool) :=
  '(m, d) ← step k (rnd i) (fst md);
  Ok (m, snd md || d).

Definition frame (evs : list SDL_Event) (rnd : Z → Z) (now : Z) (a : App)
  : res (App * bool * list string) :=
  let dt := u32 (1000 ÷ timerHz (opt a)) in
  a ← poll_events evs a;
  '(m, draw) ← for_ (Z.to_nat (cycles (opt a))) 0 (cycle (app_keys a) rnd) (vm a, false);
  if u32 (now - last a) >=? dt then
    let '(m, out) := timerTick m in
    Ok (mkApp (opt a) (app_keys a) m (quit a) now, draw, out)
  else Ok (mkApp (opt a) (app_keys a) m (quit a) (last a), draw, []).

(** ** Well-formed machines

    The ranges that the C++ types impose ([u8], [u16], array sizes) together
    with the invariants that the executor maintains: the stack pointer is at
    most [kStackDepth], every pixel is 0 or 1, and the register that awaits a
    key is a register index.  The predicate is a boolean function, so it can
    be evaluated on a concrete machine. *)

Definition byteb (z : Z) : bool := (0 <=? z) && (z <? 256).
Definition wordb (z : Z) : bool := (0 <=? z) && (z <? 65536).
Definition bitb (z : Z) : bool := (z =? 0) || (z =? 1).

Definition wf_State (s : State) : bool :=
  (Z.of_nat (length (mem s)) =? kMemSize) && forallb byteb (mem s)
  && (Z.of_nat (length (v s)) =? kRegCount) && forallb byteb (v s)
  && wordb (I s) && wordb (pc s)
  && (Z.of_nat (length (stack s)) =? kStackDepth) && forallb wordb (stack s)
  && (0 <=? sp s) && (sp s <=? kStackDepth)
  && byteb (DT s) && byteb (ST s).

Definition wf (m : Chip8VM) : bool :=
  wf_State (st m)
  && (Z.of_nat (length (pix (fb m))) =? kPixelCount) && forallb bitb (pix (fb m))
  && (0 <=? waitReg m) && (waitReg m <? kRegCount).

Definition wf_Keypad (k : Keypad) : bool :=
  Z.of_nat (length (keys k)) =? kKeyCount.

(** Register [i] of a machine, [None] outside the register file. *)
Definition reg (m : Chip8VM) (i : Z) : option Z := v (st m) !! Z.to_nat i.

(** The pixel at column [x], row [y]. *)
Definition pixel (m : Chip8VM) (x y : Z) : option Z :=
  pix (fb m) !! Z.to_nat (FB.at_index x y).

(** ** Definitions used in the statements *)

(** The content of [wf_State] and [wf] as propositions. *)
Record wf_State_facts (s : State) : Prop := {
  wf_mem_len : Z.of_nat (length (mem s)) = 4096;
  wf_mem : forallb byteb (mem s) = true;
  wf_v_len : Z.of_nat (length (v s)) = 16;
  wf_v : forallb byteb (v s) = true;
  wf_I : 0 ≤ I s < 65536;
  wf_pc : 0 ≤ pc s < 65536;
  wf_stack_len : Z.of_nat (length (stack s)) = 16;
  wf_stack : forallb wordb (stack s) = true;
  wf_sp : 0 ≤ sp s ≤ 16;
  wf_DT : 0 ≤ DT s < 256;
  wf_ST : 0 ≤ ST s < 256
}.

Record wf_facts (m : Chip8VM) : Prop := {
  wf_st : wf_State_facts (st m);
  wf_pix_len : Z.of_nat (length (pix (fb m))) = 2048;
  wf_pix : forallb bitb (pix (fb m)) = true;
  wf_waitReg : 0 ≤ waitReg m < 16
}.

(** Machines reached from a program image: [after rom n] is the machine
    that the constructor, a load of the image [rom] and [n] instructions
    produce, with no key pressed and [rand()] returning 0.  The machines
    named [m_...] below are such machines, used as concrete inputs. *)
Definition no_keys : Keypad := mkKeypad (replicate (Z.to_nat kKeyCount) false).

Fixpoint steps (n : nat) (m : Chip8VM) : res Chip8VM :=
  match n with
  | O => Ok m
  | S n' => '(m', _) ← step no_keys 0 m; steps n' m'
  end.

Definition after (rom : list Z) (n : nat) : res Chip8VM :=
  m ← Chip8VM_new;
  '(m', _, _) ← load (λ _, Some rom) "rom" m;
  steps n m'.

Definition machine_of (r : res Chip8VM) : Chip8VM :=
  match r with Ok m => m | Fault _ => Chip8VM_members end.

(** The line that [timerTick] writes. *)
Definition beep : list string := [String.append "BEEP" nl].

Definition m_tick : Chip8VM := machine_of (after [0x60;0x02; 0xF0;0x18] 2).

Definition m_full_stack : Chip8VM := machine_of (after [0x22;0x00] 16).

Definition m_empty_stack : Chip8VM := machine_of (after [0x00;0xEE] 0).

Definition m_add_F : Chip8VM := machine_of (after [0x6F;0xFF; 0x61;0x01; 0x8F;0x14] 2).

Definition m_add : Chip8VM := machine_of (after [0x60;0xFF; 0x61;0x01; 0x80;0x14] 2).

Definition m_sub : Chip8VM := machine_of (after [0x60;0x03; 0x61;0x05; 0x80;0x15] 2).

Definition m_sub_F : Chip8VM := machine_of (after [0x60;0x05; 0x6F;0x03; 0x80;0xF5] 2).

Definition m_sub_F_next : Chip8VM := machine_of (after [0x60;0x05; 0x6F;0x03; 0x80;0xF5] 3).

Definition m_add_F_next : Chip8VM := machine_of (after [0x6F;0xFF; 0x61;0x01; 0x8F;0x14] 3).

Definition m_store : Chip8VM :=
  machine_of (after [0x60;0x11; 0x61;0x22; 0x62;0x33; 0xA3;0x00; 0xF2;0x55; 0xF2;0x65] 4).

Definition m_stored : Chip8VM :=
  machine_of (after [0x60;0x11; 0x61;0x22; 0x62;0x33; 0xA3;0x00; 0xF2;0x55; 0xF2;0x65] 5).

Definition m_loaded : Chip8VM :=
  machine_of (after [0x60;0x11; 0x61;0x22; 0x62;0x33; 0xA3;0x00; 0xF2;0x55; 0xF2;0x65] 6).

Definition m_fresh : Chip8VM := machine_of Chip8VM_new.

(** A file system in which every path holds the same bytes. *)
Definition every_path (bytes : list Z) : string → option (list Z) := λ _, Some bytes.

(** The test [sprite & (0x80 >> col)] of the column loop. *)
Definition sprite_bit (sprite col : Z) : bool :=
  negb (Z.land sprite (Z.shiftr 0x80 col) =? 0).

(** The index in [pix] of the pixel that column [col] of row [row] targets. *)
Definition target (px py row col : Z) : nat :=
  Z.to_nat (FB.at_index ((px + col) mod kDisplayWidth) ((py + row) mod kDisplayHeight)).

(** The pixels that the column loop toggles from column [c0] on, and the
    pixels that the row loop toggles from row [r0] on, as functions that
    follow the loops. *)
Fixpoint col_hits (sprite px py row : Z) (cnt : nat) (c0 : Z) (j : nat) : bool :=
  match cnt with
  | O => false
  | S n =>
      (sprite_bit sprite c0 && bool_decide (j = target px py row c0))
      || col_hits sprite px py row n (c0 + 1) j
  end.

Fixpoint row_hits (a : list Z) (base px py : Z) (cnt : nat) (r0 : Z) (j : nat) : bool :=
  match cnt with
  | O => false
  | S n =>
      match a !! Z.to_nat (base + r0) with
      | Some sprite => col_hits sprite px py r0 8 0 j
      | None => false
      end
      || row_hits a base px py n (r0 + 1) j
  end.

(** [toggled T m m']: machine [m'] is machine [m] with the pixels of [T]
    XOR-ed with 1, and with 1 in register F if one of them was 1. *)
Record toggled (T : nat → bool) (m m' : Chip8VM) : Prop := {
  tg_frame :
    m' = mkVM (set_v (st m) (v (st m'))) (mkFB (pix (fb m'))) (waitKey m) (waitReg m);
  tg_len_pix : length (pix (fb m')) = length (pix (fb m));
  tg_len_v : length (v (st m')) = length (v (st m));
  tg_pix : ∀ j, pix (fb m') !! j
               = if T j then (λ p, u8 (Z.lxor p 1)) <$> pix (fb m) !! j
                 else pix (fb m) !! j;
  tg_regs : ∀ i, i ≠ 15%nat → v (st m') !! i = v (st m) !! i;
  tg_flag_set :
    (∃ j, T j = true ∧ pix (fb m) !! j = Some 1) → v (st m') !! 15%nat = Some 1;
  tg_flag_cases :
    v (st m') !! 15%nat = v (st m) !! 15%nat
    ∨ (v (st m') !! 15%nat = Some 1 ∧ ∃ j, T j = true ∧ pix (fb m) !! j = Some 1)
}.

Definition m_draw_edge : Chip8VM :=
  machine_of (after [0x60;0x3C; 0x61;0x00; 0xA2;0x08; 0xD0;0x11; 0xFF] 3).

Definition m_draw_twice : Chip8VM :=
  machine_of (after [0xA2;0x06; 0xD0;0x01; 0xD0;0x01; 0x80] 1).

Definition rom_draw_thrice : list Z := [0xA2;0x08; 0xD0;0x01; 0xD0;0x01; 0xD0;0x01; 0x80].

Definition m_drawn_once : Chip8VM := machine_of (after rom_draw_thrice 2).

Definition m_drawn_twice : Chip8VM := machine_of (after rom_draw_thrice 3).

Definition m_drawn_thrice : Chip8VM := machine_of (after rom_draw_thrice 4).

Definition rom_wait : list Z := [0xF1;0x0A; 0x61;0x42; 0x12;0x04].

Definition m_before_wait : Chip8VM := machine_of (after rom_wait 0).

Definition m_waiting : Chip8VM := machine_of (after rom_wait 1).

Definition m_still_waiting : Chip8VM := machine_of (after rom_wait 2).

(** The driver's state at the start of [App::run], after the load. *)
Definition app_wait : App := mkApp Opt_main no_keys m_before_wait false 0.

Definition m_jumped_to_end : Chip8VM := machine_of (after [0x1F;0xFF] 1).

Definition m_index_at_end : Chip8VM := machine_of (after [0xAF;0xFF; 0xD0;0x02] 1).

Definition m_store_at_end : Chip8VM := machine_of (after [0xAF;0xFF; 0xF1;0x55] 1).

Definition m_index_past_end : Chip8VM :=
  machine_of (after [0xAF;0xFF; 0x60;0xFF; 0xF0;0x1E; 0xF0;0x33] 3).

(** ** Further definitions used in the statements *)

(** [good P r]: the computation [r] either returns a value that satisfies
    [P], or stops at a memory access whose index is at or above the memory
    size; it never stops at a register, stack or pixel access. *)
Definition good {A : Type} (P : A → Prop) (r : res A) : Prop :=
  match r with
  | Ok a => P a
  | Fault f => ∃ i, f = MemRange i ∧ kMemSize ≤ i
  end.

(** [kept m m']: machine [m'] is well formed and is still waiting for a key
    if machine [m] was. *)
Definition kept (m m' : Chip8VM) : Prop :=
  wf_facts m' ∧ waitKey m' = waitKey m ∨ wf_facts m' ∧ waitKey m' = true.

(** Machines reached from small images, used as concrete instances. *)
Definition m_add_next : Chip8VM := machine_of (after [0x60;0xFF; 0x61;0x01; 0x80;0x14] 3).
Definition m_cls : Chip8VM := machine_of (after [0xA0;0x50; 0xD0;0x05; 0x00;0xE0] 2).
Definition m_bcd : Chip8VM := machine_of (after [0x60;0xEA; 0xA3;0x00; 0xF0;0x33] 2).
Definition m_call : Chip8VM := machine_of (after [0x22;0x04; 0x00;0x00; 0x00;0xEE] 0).
Definition m_shr : Chip8VM := machine_of (after [0x60;0x85; 0x80;0x06] 1).
Definition m_shl : Chip8VM := machine_of (after [0x60;0x85; 0x80;0x0E] 1).
Definition m_call_seed : Chip8VM := machine_of (after [0x12;0x00] 0).

(** A run of the executor: one instruction per element of [inputs], which
    gives the keypad and the value of [rand()] for that instruction. *)
Fixpoint run (inputs : list (Keypad * Z)) (m : Chip8VM) : res Chip8VM :=
  match inputs with
  | [] => Ok m
  | kr :: rest => '(m', _) ← step (fst kr) (snd kr) m; run rest m'
  end.

(** Construction followed by a load of the image [rom] and a run. *)
Definition boot_and_run (rom : list Z) (inputs : list (Keypad * Z)) : res Chip8VM :=
  m ← Chip8VM_new;
  '(m', _, _) ← load (every_path rom) "rom" m;
  run inputs m'.

(** [n] timer ticks in a row, with the lines they write in order. *)
Fixpoint ticks (n : nat) (m : Chip8VM) : Chip8VM * list string :=
  match n with
  | O => (m, [])
  | S n' =>
      let '(m1, out1) := timerTick m in
      let '(m2, out2) := ticks n' m1 in
      (m2, out1 ++ out2)
  end.

(** Further concrete machines and a driver that holds a waiting machine. *)
Definition m_sound_3 : Chip8VM := machine_of (after [0x60;0x03; 0xF0;0x18] 2).
Definition app_waiting : App := mkApp Opt_main no_keys m_waiting false 0.
Definition m_font : Chip8VM := machine_of (after [0x60;0x1A; 0xF0;0x29] 1).
Definition m_unmatched : Chip8VM := machine_of (after [0x51;0x21] 0).
Definition m_key_skip : Chip8VM := machine_of (after [0x60;0x20; 0xE0;0xA1] 1).
Definition m_delay : Chip8VM := machine_of (after [0x60;0x09; 0xF0;0x15; 0xF1;0x07] 1).

(** The value that 8XY0..8XY3 leave in Vx, by the low nibble of the
    opcode: copy, or, and, exclusive or. *)
Definition logic_result (n vx vy : Z) : Z :=
  if n =? 0 then vy
  else if n =? 1 then Z.lor vx vy
  else if n =? 2 then Z.land vx vy
  else Z.lxor vx vy.

(** Machines about to execute a comparison, a random draw, an immediate
    addition that wraps and an exclusive or. *)
Definition m_compare : Chip8VM := machine_of (after [0x61;0x07; 0x62;0x2A; 0x31;0x07] 2).
Definition m_random : Chip8VM := machine_of (after [0xC3;0x0F] 0).
Definition m_add_imm : Chip8VM := machine_of (after [0x60;0xFF; 0x70;0x02] 1).
Definition m_logic : Chip8VM := machine_of (after [0x60;0xF0; 0x61;0x3C; 0x80;0x13] 2).

(** * Properties *)

(** ** The error monad and array accesses *)

Lemma bind_Ok {A B : Type} (a : A) (k : A → res B) : (Ok a ≫= k) = k a.
Proof. reflexivity. Qed.

Lemma bind_Fault {A B : Type} (f : fault) (k : A → res B) : (Fault f ≫= k) = Fault f.
Proof. reflexivity. Qed.

Lemma Ok_pair_inj {A B : Type} (a a' : A) (b b' : B) :
  @Ok (A * B) (a, b) = Ok (a', b') → a = a' ∧ b = b'.
Proof. by intros [= -> ->]. Qed.

Lemma bind_Ok_inv {A B : Type} (r : res A) (k : A → res B) (b : B) :
  (r ≫= k) = Ok b → ∃ a, r = Ok a ∧ k a = Ok b.
Proof. destruct r as [a|f]; [eauto | discriminate]. Qed.

Lemma at_Ok mk (a : list Z) (i b : Z) :
  0 ≤ i → a !! Z.to_nat i = Some b → at_ mk a i = Ok b.
Proof.
  intros Hi Hb. unfold at_.
  destruct (Z.leb_spec 0 i); [|lia]. by rewrite Hb.
Qed.

Lemma at_in_range mk (a : list Z) (i : Z) :
  0 ≤ i < Z.of_nat (length a) → ∃ b, at_ mk a i = Ok b ∧ a !! Z.to_nat i = Some b.
Proof.
  intros Hi.
  destruct (lookup_lt_is_Some_2 a (Z.to_nat i)) as [b Hb]; [lia|].
  exists b. split; [apply at_Ok; [lia|done] | done].
Qed.

Lemma at_Ok_inv mk (a : list Z) (i b : Z) :
  at_ mk a i = Ok b → 0 ≤ i < Z.of_nat (length a) ∧ a !! Z.to_nat i = Some b.
Proof.
  unfold at_. destruct (Z.leb_spec 0 i); [|discriminate].
  destruct (a !! Z.to_nat i) as [c|] eqn:E; [|discriminate].
  intros [= ->]. apply lookup_lt_Some in E. split; [lia | done].
Qed.

Lemma at_Fault_inv mk (a : list Z) (i : Z) (f : fault) :
  at_ mk a i = Fault f → f = mk i ∧ (i < 0 ∨ Z.of_nat (length a) ≤ i).
Proof.
  unfold at_. destruct (Z.leb_spec 0 i).
  - destruct (a !! Z.to_nat i) as [c|] eqn:E; [discriminate|].
    intros [= <-]. apply lookup_ge_None in E. split; [done | lia].
  - intros [= <-]. split; [done | lia].
Qed.

Lemma put_Ok mk (a : list Z) (i b : Z) :
  0 ≤ i < Z.of_nat (length a) → put mk a i b = Ok (<[Z.to_nat i := b]> a).
Proof.
  intros Hi. unfold put.
  destruct (Z.leb_spec 0 i); [|lia]. destruct (Z.ltb_spec i (Z.of_nat (length a))); [done | lia].
Qed.

Lemma put_Ok_inv mk (a a' : list Z) (i b : Z) :
  put mk a i b = Ok a' → 0 ≤ i < Z.of_nat (length a) ∧ a' = <[Z.to_nat i := b]> a.
Proof.
  unfold put. destruct (Z.leb_spec 0 i); [|discriminate].
  destruct (Z.ltb_spec i (Z.of_nat (length a))); [|discriminate].
  intros [= <-]. split; [lia | done].
Qed.

Lemma put_Fault_inv mk (a : list Z) (i b : Z) (f : fault) :
  put mk a i b = Fault f → f = mk i ∧ (i < 0 ∨ Z.of_nat (length a) ≤ i).
Proof.
  unfold put. destruct (Z.leb_spec 0 i); destruct (Z.ltb_spec i (Z.of_nat (length a)));
    try discriminate; intros [= <-]; split; (done || lia).
Qed.

(** ** Decoded fields are bounded bit-fields *)

Lemma land_low_bits (a : Z) (n : Z) : 0 ≤ n → 0 ≤ Z.land a (Z.ones n) < 2 ^ n.
Proof. intros Hn. rewrite Z.land_ones by done. apply Z.mod_pos_bound. lia. Qed.

Lemma op_x_range (op : Z) : 0 ≤ op_x op < 16.
Proof. apply (land_low_bits _ 4). lia. Qed.

Lemma op_y_range (op : Z) : 0 ≤ op_y op < 16.
Proof. apply (land_low_bits _ 4). lia. Qed.

Lemma op_n_range (op : Z) : 0 ≤ op_n op < 16.
Proof. apply (land_low_bits _ 4). lia. Qed.

Lemma op_nn_range (op : Z) : 0 ≤ op_nn op < 256.
Proof. apply (land_low_bits _ 8). lia. Qed.

Lemma op_nnn_range (op : Z) : 0 ≤ op_nnn op < 4096.
Proof. apply (land_low_bits _ 12). lia. Qed.

(** ** What a well-formed machine provides *)

Lemma byteb_spec (z : Z) : byteb z = true ↔ 0 ≤ z < 256.
Proof. unfold byteb. rewrite andb_true_iff, Z.leb_le, Z.ltb_lt. done. Qed.

Lemma wordb_spec (z : Z) : wordb z = true ↔ 0 ≤ z < 65536.
Proof. unfold wordb. rewrite andb_true_iff, Z.leb_le, Z.ltb_lt. done. Qed.

Lemma bitb_spec (z : Z) : bitb z = true ↔ z = 0 ∨ z = 1.
Proof. unfold bitb. rewrite orb_true_iff, !Z.eqb_eq. done. Qed.

Lemma forallb_lookup (f : Z → bool) (a : list Z) (i : nat) (b : Z) :
  forallb f a = true → a !! i = Some b → f b = true.
Proof.
  intros Hall Hb. rewrite forallb_forall in Hall.
  apply Hall, list_elem_of_In, list_elem_of_lookup. eauto.
Qed.

Lemma forallb_insert (f : Z → bool) (a : list Z) (i : nat) (b : Z) :
  forallb f a = true → f b = true → forallb f (<[i := b]> a) = true.
Proof.
  intros Hall Hb. rewrite forallb_forall in *.
  intros c Hc. apply list_elem_of_In, list_elem_of_lookup in Hc as [j Hj].
  rewrite list_lookup_insert in Hj. case_decide.
  - by injection Hj as <-.
  - apply Hall, list_elem_of_In, list_elem_of_lookup. eauto.
Qed.

Lemma wf_State_spec (s : State) : wf_State s = true ↔ wf_State_facts s.
Proof.
  unfold wf_State. rewrite !andb_true_iff, !byteb_spec, !wordb_spec, !Z.eqb_eq, !Z.leb_le.
  unfold kMemSize, kRegCount, kStackDepth.
  split.
  - intros H. split; tauto || lia.
  - intros []. split_and!; done || lia.
Qed.

Lemma wf_spec (m : Chip8VM) : wf m = true ↔ wf_facts m.
Proof.
  unfold wf. rewrite !andb_true_iff, wf_State_spec, !Z.eqb_eq, Z.leb_le, Z.ltb_lt.
  unfold kPixelCount, kDisplayWidth, kDisplayHeight, kRegCount.
  split.
  - intros H. split; tauto || lia.
  - intros []. split_and!; done || lia.
Qed.

Lemma wf_State_of (m : Chip8VM) : wf m = true → wf_State_facts (st m).
Proof. intros H. apply wf_spec in H. apply H. Qed.

Lemma reg_byte (m : Chip8VM) (i b : Z) : wf m = true → reg m i = Some b → 0 ≤ b < 256.
Proof.
  intros Hwf Hb. apply byteb_spec.
  eapply forallb_lookup; [apply (wf_v _ (wf_State_of _ Hwf)) | exact Hb].
Qed.

Lemma rd_v_Ok (s : State) (i b : Z) : 0 ≤ i → v s !! Z.to_nat i = Some b → rd_v s i = Ok b.
Proof. apply at_Ok. Qed.

Lemma rd_mem_Ok (s : State) (i b : Z) : 0 ≤ i → mem s !! Z.to_nat i = Some b → rd_mem s i = Ok b.
Proof. apply at_Ok. Qed.

Lemma wr_v_Ok (s : State) (i b : Z) :
  0 ≤ i < Z.of_nat (length (v s)) → wr_v s i b = Ok (set_v s (<[Z.to_nat i := b]> (v s))).
Proof. intros Hi. unfold wr_v. by rewrite put_Ok. Qed.

Lemma wr_mem_Ok (s : State) (i b : Z) :
  0 ≤ i < Z.of_nat (length (mem s)) → wr_mem s i b = Ok (set_mem s (<[Z.to_nat i := b]> (mem s))).
Proof. intros Hi. unfold wr_mem. by rewrite put_Ok. Qed.

(** ** Fetch and dispatch *)

Lemma step_fetch (k : Keypad) (rnd : Z) (m : Chip8VM) (op : Z) :
  fetch (st m) = Ok op → step k rnd m = exec k rnd (set_st m (skip (st m))) op.
Proof. intros H. unfold step. by rewrite H. Qed.

Lemma fetch_in_memory (s : State) (op : Z) :
  fetch s = Ok op → 0 ≤ pc s ∧ pc s + 1 < Z.of_nat (length (mem s)).
Proof.
  unfold fetch, rd_mem. intros H.
  apply bind_Ok_inv in H as (hi & Hhi & H). apply bind_Ok_inv in H as (lo & Hlo & _).
  apply at_Ok_inv in Hhi, Hlo. lia.
Qed.

Lemma exec_sys_eq (k : Keypad) (rnd : Z) (m : Chip8VM) (op : Z) :
  op_fam op = 0x0000 → exec k rnd m op = exec_sys m op.
Proof. intros H. unfold exec. by rewrite H. Qed.

Lemma exec_call_eq (k : Keypad) (rnd : Z) (m : Chip8VM) (op : Z) :
  op_fam op = 0x2000 →
  exec k rnd m op = (s' ← exec_call (st m) op; Ok (set_st m s', false)).
Proof. intros H. unfold exec. by rewrite H. Qed.

Lemma exec_alu_eq (k : Keypad) (rnd : Z) (m : Chip8VM) (op : Z) :
  op_fam op = 0x8000 →
  exec k rnd m op = (s' ← exec_alu (st m) op; Ok (set_st m s', false)).
Proof. intros H. unfold exec. by rewrite H. Qed.

Lemma exec_draw_eq (k : Keypad) (rnd : Z) (m : Chip8VM) (op : Z) :
  op_fam op = 0xD000 → exec k rnd m op = (m' ← exec_draw m op; Ok (m', true)).
Proof. intros H. unfold exec. by rewrite H. Qed.

Lemma exec_misc_eq (k : Keypad) (rnd : Z) (m : Chip8VM) (op : Z) :
  op_fam op = 0xF000 → exec k rnd m op = (m' ← exec_misc m op; Ok (m', false)).
Proof. intros H. unfold exec. by rewrite H. Qed.

Lemma exec_alu_add (s : State) (op : Z) :
  Z.land op 0xF = 0x4 →
  exec_alu s op =
    (vx ← rd_v s (op_x op); vy ← rd_v s (op_y op);
     s' ← wr_v s 0xF (b2z (u16 (vx + vy) >? 0xFF));
     wr_v s' (op_x op) (u8 (u16 (vx + vy)))).
Proof. intros H. unfold exec_alu. by rewrite H. Qed.

Lemma exec_alu_sub (s : State) (op : Z) :
  Z.land op 0xF = 0x5 →
  exec_alu s op =
    (vx ← rd_v s (op_x op); vy ← rd_v s (op_y op);
     s' ← wr_v s 0xF (b2z (vx >? vy));
     vx' ← rd_v s' (op_x op); vy' ← rd_v s' (op_y op);
     wr_v s' (op_x op) (u8 (vx' - vy'))).
Proof. intros H. unfold exec_alu. by rewrite H. Qed.

(** ** Timers *)

(** C4: one timer tick decrements each non-zero timer, and writes the tone
    line exactly when the sound timer was non-zero and is still non-zero
    after its decrement; nothing else changes.  From 1 the sound timer
    reaches 0 without a tone, from 2 it reaches 1 with a tone. *)
Theorem timerTick_decrements_and_beeps (m : Chip8VM) :
  wf m = true →
  ∃ m' out, timerTick m = (m', out)
    ∧ DT (st m') = (if 0 <? DT (st m) then DT (st m) - 1 else DT (st m))
    ∧ ST (st m') = (if 0 <? ST (st m) then ST (st m) - 1 else ST (st m))
    ∧ (out = beep ↔ 0 < ST (st m) ∧ 0 < ST (st m'))
    ∧ (out = beep ∨ out = [])
    ∧ (ST (st m) = 1 → ST (st m') = 0 ∧ out = [])
    ∧ (ST (st m) = 2 → ST (st m') = 1 ∧ out = beep)
    ∧ m' = set_st m (set_ST (set_DT (st m) (DT (st m'))) (ST (st m'))).
Proof.
  intros Hwf. pose proof (wf_State_of _ Hwf) as Hs.
  pose proof (wf_DT _ Hs) as HD. pose proof (wf_ST _ Hs) as HS.
  destruct m as [s f wk wr]; destruct s as [me vv ii pp stk spp dt snd]; simpl in *.
  unfold timerTick; simpl. rewrite !Z.gtb_ltb.
  assert (Hu : ∀ z, 0 < z < 256 → u8 (z - 1) = z - 1).
  { intros z Hz. unfold u8. apply Z.mod_small. lia. }
  destruct (Z.ltb_spec 0 dt) as [Hd|Hd]; simpl; rewrite ?Z.gtb_ltb;
    (destruct (Z.ltb_spec 0 snd) as [Hn|Hn]; simpl; rewrite ?Z.gtb_ltb;
     [ rewrite ?Hu by lia; destruct (Z.ltb_spec 0 (snd - 1)) | ]);
    eexists _, _; (split; [reflexivity|]); simpl;
    rewrite ?Hu by lia; unfold beep;
    split_and!; try done; try lia; try (intros ->; split; [lia | done || lia]);
    try (split; [done | intros [? ?]; lia]);
    try (split; [intros [=] | intros [? ?]; lia]); auto.
Qed.

Lemma timerTick_decrements_and_beeps_witness :
  wf m_tick = true
  ∧ ∃ m' out, timerTick m_tick = (m', out)
    ∧ DT (st m') = (if 0 <? DT (st m_tick) then DT (st m_tick) - 1 else DT (st m_tick))
    ∧ ST (st m') = (if 0 <? ST (st m_tick) then ST (st m_tick) - 1 else ST (st m_tick))
    ∧ (out = beep ↔ 0 < ST (st m_tick) ∧ 0 < ST (st m'))
    ∧ (out = beep ∨ out = [])
    ∧ (ST (st m_tick) = 1 → ST (st m') = 0 ∧ out = [])
    ∧ (ST (st m_tick) = 2 → ST (st m') = 1 ∧ out = beep)
    ∧ m' = set_st m_tick (set_ST (set_DT (st m_tick) (DT (st m'))) (ST (st m'))).
Proof.
  split; [vm_compute; reflexivity | apply timerTick_decrements_and_beeps; vm_compute; reflexivity].
Defined.

(** ** Stack overflow and underflow *)

(** C7: a call with a full stack and a return with an empty stack change
    the program counter by the normal advance of 2 and nothing else; in
    particular the call does not jump and neither faults. *)
Theorem call_full_return_empty_only_advance (k : Keypad) (rnd : Z) (m : Chip8VM) (op : Z) :
  fetch (st m) = Ok op →
  (op_fam op = 0x2000 ∧ sp (st m) = kStackDepth)
  ∨ (op_fam op = 0x0000 ∧ op_nn op = 0xEE ∧ sp (st m) = 0) →
  step k rnd m = Ok (set_st m (set_pc (st m) (u16 (pc (st m) + 2))), false).
Proof.
  intros Hf [[Hfam Hsp] | (Hfam & Hnn & Hsp)]; rewrite (step_fetch _ _ _ _ Hf).
  - rewrite exec_call_eq by done. unfold exec_call. simpl. by rewrite Hsp.
  - rewrite exec_sys_eq by done. unfold exec_sys. rewrite Hnn. simpl. by rewrite Hsp.
Qed.

Lemma call_full_return_empty_only_advance_witness :
  (fetch (st m_full_stack) = Ok 0x2200
   ∧ sp (st m_full_stack) = kStackDepth
   ∧ step no_keys 0 m_full_stack
     = Ok (set_st m_full_stack (set_pc (st m_full_stack) 0x202), false))
  ∧ (fetch (st m_empty_stack) = Ok 0x00EE
     ∧ sp (st m_empty_stack) = 0
     ∧ step no_keys 0 m_empty_stack
       = Ok (set_st m_empty_stack (set_pc (st m_empty_stack) 0x202), false)).
Proof.
  split; (split; [vm_compute; reflexivity | split; [vm_compute; reflexivity |]]).
  - apply (call_full_return_empty_only_advance no_keys 0 m_full_stack 0x2200).
    + vm_compute; reflexivity.
    + left. split; vm_compute; reflexivity.
  - apply (call_full_return_empty_only_advance no_keys 0 m_empty_stack 0x00EE).
    + vm_compute; reflexivity.
    + right. split_and!; vm_compute; reflexivity.
Defined.

(** ** Addition and subtraction with flag *)

Lemma reg_skip (m : Chip8VM) (i : Z) : reg (set_st m (skip (st m))) i = reg m i.
Proof. reflexivity. Qed.

Lemma reg_lookup_range (m : Chip8VM) (i b : Z) :
  wf m = true → 0 ≤ i → reg m i = Some b → 0 ≤ i < 16.
Proof.
  intros Hwf Hi Hb. apply lookup_lt_Some in Hb.
  pose proof (wf_v_len _ (wf_State_of _ Hwf)). lia.
Qed.

(** C10: when the destination of the addition is register F, the flag is
    written first and then overwritten by the result, so register F ends
    as the low 8 bits of the sum. *)
Theorem add_into_VF_leaves_wrapped_sum (k : Keypad) (rnd : Z) (m : Chip8VM) (op vf vy : Z) :
  wf m = true →
  fetch (st m) = Ok op →
  op_fam op = 0x8000 → Z.land op 0xF = 0x4 → op_x op = 0xF →
  reg m 0xF = Some vf → reg m (op_y op) = Some vy →
  ∃ m', step k rnd m = Ok (m', false) ∧ reg m' 0xF = Some ((vf + vy) mod 256).
Proof.
  intros Hwf Hf Hfam Hk Hx Hvf Hvy.
  pose proof (wf_v_len _ (wf_State_of _ Hwf)) as Hlen.
  pose proof (reg_byte _ _ _ Hwf Hvf). pose proof (reg_byte _ _ _ Hwf Hvy).
  pose proof (op_y_range op) as Hy.
  rewrite (step_fetch _ _ _ _ Hf), exec_alu_eq, exec_alu_add by done.
  rewrite Hx. cbn [st set_st].
  rewrite (rd_v_Ok _ 0xF vf), bind_Ok by (done || lia).
  rewrite (rd_v_Ok _ (op_y op) vy), bind_Ok by (done || lia).
  rewrite wr_v_Ok, bind_Ok by (cbn [v skip set_pc]; lia).
  rewrite wr_v_Ok, bind_Ok by (cbn [v skip set_pc set_v]; rewrite length_insert; lia).
  eexists. split; [reflexivity|].
  unfold reg. cbn [st set_st v set_v skip set_pc].
  rewrite list_lookup_insert_eq by (rewrite length_insert; lia).
  f_equal. unfold u8, u16. rewrite (Z.mod_small (vf + vy) 65536) by lia. done.
Qed.

Lemma add_into_VF_leaves_wrapped_sum_witness :
  wf m_add_F = true
  ∧ fetch (st m_add_F) = Ok 0x8F14
  ∧ reg m_add_F 0xF = Some 0xFF ∧ reg m_add_F 1 = Some 1
  ∧ ∃ m', step no_keys 0 m_add_F = Ok (m', false) ∧ reg m' 0xF = Some 0.
Proof.
  split_and!; [vm_compute; reflexivity .. |].
  apply (add_into_VF_leaves_wrapped_sum no_keys 0 m_add_F 0x8F14 0xFF 1);
    vm_compute; reflexivity.
Defined.

(** C3 (as amended): for a destination other than register F, the addition
    leaves the wrapped sum in Vx and the carry in VF, and the subtraction
    leaves 1 in VF exactly when Vx was greater than Vy, whichever register y
    is; the subtraction leaves the wrapped difference in Vx when the source
    is not register F either. *)
Theorem add_sub_flag (k : Keypad) (rnd : Z) (m : Chip8VM) (op vx vy : Z) :
  wf m = true →
  fetch (st m) = Ok op →
  op_fam op = 0x8000 →
  reg m (op_x op) = Some vx → reg m (op_y op) = Some vy →
  op_x op ≠ 0xF →
  (Z.land op 0xF = 0x4 →
   ∃ m', step k rnd m = Ok (m', false)
     ∧ reg m' (op_x op) = Some ((vx + vy) mod 256)
     ∧ reg m' 0xF = Some (if 255 <? vx + vy then 1 else 0))
  ∧ (Z.land op 0xF = 0x5 →
     ∃ m', step k rnd m = Ok (m', false)
       ∧ reg m' 0xF = Some (if vy <? vx then 1 else 0)
       ∧ (op_y op ≠ 0xF → reg m' (op_x op) = Some ((vx - vy) mod 256))).
Proof.
  intros Hwf Hf Hfam Hvx Hvy Hx.
  pose proof (wf_v_len _ (wf_State_of _ Hwf)) as Hlen.
  pose proof (reg_byte _ _ _ Hwf Hvx). pose proof (reg_byte _ _ _ Hwf Hvy).
  pose proof (op_x_range op) as Hxr. pose proof (op_y_range op) as Hyr.
  assert (Hnx : Z.to_nat 0xF ≠ Z.to_nat (op_x op)) by lia.
  split.
  - intros Hk.
    rewrite (step_fetch _ _ _ _ Hf), exec_alu_eq, exec_alu_add by done.
    cbn [st set_st].
    rewrite (rd_v_Ok _ (op_x op) vx), bind_Ok by (done || lia).
    rewrite (rd_v_Ok _ (op_y op) vy), bind_Ok by (done || lia).
    rewrite wr_v_Ok, bind_Ok by (cbn [v skip set_pc]; lia).
    rewrite wr_v_Ok, bind_Ok by (cbn [v skip set_pc set_v]; rewrite length_insert; lia).
    eexists. split; [reflexivity|].
    unfold reg. cbn [st set_st v set_v skip set_pc].
    unfold u8, u16. rewrite (Z.mod_small (vx + vy) 65536) by lia.
    split.
    + by rewrite list_lookup_insert_eq by (rewrite length_insert; lia).
    + rewrite list_lookup_insert_ne by lia.
      rewrite list_lookup_insert_eq by lia. by rewrite Z.gtb_ltb.
  - intros Hk.
    rewrite (step_fetch _ _ _ _ Hf), exec_alu_eq, exec_alu_sub by done.
    cbn [st set_st].
    rewrite (rd_v_Ok _ (op_x op) vx), bind_Ok by (done || lia).
    rewrite (rd_v_Ok _ (op_y op) vy), bind_Ok by (done || lia).
    rewrite wr_v_Ok, bind_Ok by (cbn [v skip set_pc]; lia).
    rewrite (rd_v_Ok _ (op_x op) vx), bind_Ok
      by (lia || (cbn [v skip set_pc set_v]; by rewrite list_lookup_insert_ne by lia)).
    destruct (Z.eq_dec (op_y op) 0xF) as [Hy|Hy].
    + rewrite (rd_v_Ok _ (op_y op) (b2z (vx >? vy))), bind_Ok
        by (lia || (cbn [v skip set_pc set_v]; rewrite Hy;
                    by rewrite list_lookup_insert_eq by lia)).
      rewrite wr_v_Ok by (cbn [v skip set_pc set_v]; rewrite length_insert; lia).
      eexists. split; [reflexivity|].
      unfold reg. cbn [st set_st v set_v skip set_pc].
      split; [|done].
      rewrite list_lookup_insert_ne by lia.
      rewrite list_lookup_insert_eq by lia. by rewrite Z.gtb_ltb.
    + rewrite (rd_v_Ok _ (op_y op) vy), bind_Ok
        by (lia || (cbn [v skip set_pc set_v]; by rewrite list_lookup_insert_ne by lia)).
      rewrite wr_v_Ok by (cbn [v skip set_pc set_v]; rewrite length_insert; lia).
      eexists. split; [reflexivity|].
      unfold reg. cbn [st set_st v set_v skip set_pc]. unfold u8.
      split.
      * rewrite list_lookup_insert_ne by lia.
        rewrite list_lookup_insert_eq by lia. by rewrite Z.gtb_ltb.
      * intros _. by rewrite list_lookup_insert_eq by (rewrite length_insert; lia).
Qed.

Lemma add_sub_flag_witness :
  (wf m_add = true ∧ fetch (st m_add) = Ok 0x8014
   ∧ reg m_add 0 = Some 0xFF ∧ reg m_add 1 = Some 0x01
   ∧ ∃ m', step no_keys 0 m_add = Ok (m', false)
       ∧ reg m' 0 = Some 0x00 ∧ reg m' 0xF = Some 1)
  ∧ (wf m_sub = true ∧ fetch (st m_sub) = Ok 0x8015
     ∧ reg m_sub 0 = Some 3 ∧ reg m_sub 1 = Some 5
     ∧ ∃ m', step no_keys 0 m_sub = Ok (m', false)
         ∧ reg m' 0xF = Some 0
         ∧ (op_y 0x8015 ≠ 0xF → reg m' 0 = Some 254))
  ∧ (wf m_sub_F = true ∧ fetch (st m_sub_F) = Ok 0x80F5
     ∧ reg m_sub_F 0 = Some 5 ∧ reg m_sub_F 0xF = Some 3
     ∧ ∃ m', step no_keys 0 m_sub_F = Ok (m', false)
         ∧ reg m' 0xF = Some 1
         ∧ (op_y 0x80F5 ≠ 0xF → reg m' 0 = Some 2)).
Proof.
  split_and!; try (vm_compute; reflexivity).
  - apply (add_sub_flag no_keys 0 m_add 0x8014 0xFF 0x01); vm_compute; (reflexivity || discriminate).
  - apply (add_sub_flag no_keys 0 m_sub 0x8015 3 5); vm_compute; (reflexivity || discriminate).
  - apply (add_sub_flag no_keys 0 m_sub_F 0x80F5 5 3); vm_compute; (reflexivity || discriminate).
Defined.

(** The spot values of the specification, on machines reached from program
    images that set V0 and V1 and then execute 8014 or 8015. *)
Lemma add_sub_spot_values :
  (∃ m, after [0x60;0xFF; 0x61;0x01; 0x80;0x14] 3 = Ok m
        ∧ reg m 0 = Some 0x00 ∧ reg m 0xF = Some 1)
  ∧ (∃ m, after [0x60;0x01; 0x61;0x01; 0x80;0x14] 3 = Ok m
          ∧ reg m 0 = Some 0x02 ∧ reg m 0xF = Some 0)
  ∧ (∃ m, after [0x60;0x05; 0x61;0x03; 0x80;0x15] 3 = Ok m
          ∧ reg m 0 = Some 2 ∧ reg m 0xF = Some 1)
  ∧ (∃ m, after [0x60;0x03; 0x61;0x05; 0x80;0x15] 3 = Ok m
          ∧ reg m 0 = Some ((3 - 5) mod 256) ∧ reg m 0xF = Some 0).
Proof. split_and!; eexists; split_and!; vm_compute; reflexivity. Qed.

(** C3 fails as stated when the destination is register F: with VF = 0xFF
    and V1 = 1 the sum exceeds 255, and the addition 8F14 leaves VF = 0,
    the wrapped sum, and not the carry 1. *)
Lemma add_sub_flag_operand_counterexample :
  ∃ m m', after [0x6F;0xFF; 0x61;0x01; 0x8F;0x14] 2 = Ok m
    ∧ wf m = true ∧ fetch (st m) = Ok 0x8F14
    ∧ reg m 0xF = Some 0xFF ∧ reg m 1 = Some 1
    ∧ step no_keys 0 m = Ok (m', false)
    ∧ reg m' 0xF = Some ((0xFF + 1) mod 256)
    ∧ reg m' 0xF ≠ Some (if 255 <? 0xFF + 1 then 1 else 0).
Proof.
  exists m_add_F, m_add_F_next. split_and!; try (vm_compute; reflexivity).
  vm_compute. discriminate.
Qed.

(** When register F is the source of the subtraction, the flag is stored
    before the subtraction reads [v[y]]: with V0 = 5 and VF = 3, 80F5
    leaves the flag 1 in VF and V0 = 5 - 1 = 4, not 5 - 3.  The addition
    reads both operands before it stores the flag. *)
Lemma sub_reads_source_after_flag :
  after [0x60;0x05; 0x6F;0x03; 0x80;0xF5] 2 = Ok m_sub_F
  ∧ wf m_sub_F = true ∧ fetch (st m_sub_F) = Ok 0x80F5
  ∧ reg m_sub_F 0 = Some 5 ∧ reg m_sub_F 0xF = Some 3
  ∧ step no_keys 0 m_sub_F = Ok (m_sub_F_next, false)
  ∧ reg m_sub_F_next 0xF = Some 1
  ∧ reg m_sub_F_next 0 = Some 4
  ∧ reg m_sub_F_next 0 ≠ Some ((5 - 3) mod 256).
Proof. split_and!; try (vm_compute; reflexivity). vm_compute. discriminate. Qed.

(** ** Register store and load *)

Lemma exec_misc_store (m : Chip8VM) (op : Z) :
  op_nn op = 0x55 →
  exec_misc m op =
    (s ← for_ (Z.to_nat (op_x op + 1)) 0 (store_reg (I (st m))) (st m); Ok (set_st m s)).
Proof. intros H. unfold exec_misc. by rewrite H. Qed.

Lemma exec_misc_load (m : Chip8VM) (op : Z) :
  op_nn op = 0x65 →
  exec_misc m op =
    (s ← for_ (Z.to_nat (op_x op + 1)) 0 (load_reg (I (st m))) (st m); Ok (set_st m s)).
Proof. intros H. unfold exec_misc. by rewrite H. Qed.

(** The store loop over registers [i0 .. i0+cnt-1]. *)
Lemma store_loop (base : Z) (cnt : nat) : ∀ (i0 : Z) (s : State),
  0 ≤ base → 0 ≤ i0 →
  i0 + Z.of_nat cnt ≤ Z.of_nat (length (v s)) →
  base + i0 + Z.of_nat cnt ≤ Z.of_nat (length (mem s)) →
  ∃ s', for_ cnt i0 (store_reg base) s = Ok s'
    ∧ v s' = v s ∧ I s' = I s ∧ pc s' = pc s
    ∧ length (mem s') = length (mem s)
    ∧ (∀ j, i0 ≤ j < i0 + Z.of_nat cnt → mem s' !! Z.to_nat (base + j) = v s !! Z.to_nat j)
    ∧ (∀ a, 0 ≤ a < base + i0 → mem s' !! Z.to_nat a = mem s !! Z.to_nat a).
Proof.
  induction cnt as [|cnt IH]; intros i0 s Hb Hi Hv Hm.
  - exists s. split_and!; try done. intros j Hj. lia.
  - destruct (at_in_range RegRange (v s) i0) as (b & Hrd & Hb0); [lia|].
    assert (Hbody : store_reg base i0 s
                    = Ok (set_mem s (<[Z.to_nat (base + i0) := b]> (mem s)))).
    { unfold store_reg, rd_v. rewrite Hrd, bind_Ok. apply wr_mem_Ok. lia. }
    cbn [for_]. rewrite Hbody, bind_Ok.
    destruct (IH (i0 + 1) (set_mem s (<[Z.to_nat (base + i0) := b]> (mem s))))
      as (s' & Hrun & Hv' & HI & Hpc & Hlen & Hst & Hlow);
      try (cbn [v mem set_mem]; rewrite ?length_insert; lia).
    cbn [v mem set_mem I pc] in *. rewrite length_insert in Hlen.
    exists s'. split_and!; try done.
    + intros j Hj. destruct (Z.eq_dec j i0) as [->|Hne].
      * rewrite Hlow by lia. rewrite list_lookup_insert_eq by lia. done.
      * by rewrite Hst by lia.
    + intros a Ha. rewrite Hlow by lia. by rewrite list_lookup_insert_ne by lia.
Qed.

(** The load loop over registers [i0 .. i0+cnt-1]. *)
Lemma load_loop (base : Z) (cnt : nat) : ∀ (i0 : Z) (s : State),
  0 ≤ base → 0 ≤ i0 →
  i0 + Z.of_nat cnt ≤ Z.of_nat (length (v s)) →
  base + i0 + Z.of_nat cnt ≤ Z.of_nat (length (mem s)) →
  ∃ s', for_ cnt i0 (load_reg base) s = Ok s'
    ∧ mem s' = mem s
    ∧ length (v s') = length (v s)
    ∧ (∀ j, i0 ≤ j < i0 + Z.of_nat cnt → v s' !! Z.to_nat j = mem s !! Z.to_nat (base + j))
    ∧ (∀ j, 0 ≤ j < i0 → v s' !! Z.to_nat j = v s !! Z.to_nat j).
Proof.
  induction cnt as [|cnt IH]; intros i0 s Hb Hi Hv Hm.
  - exists s. split_and!; try done. intros j Hj. lia.
  - destruct (at_in_range MemRange (mem s) (base + i0)) as (b & Hrd & Hb0); [lia|].
    assert (Hbody : load_reg base i0 s = Ok (set_v s (<[Z.to_nat i0 := b]> (v s)))).
    { unfold load_reg, rd_mem. rewrite Hrd, bind_Ok. apply wr_v_Ok. lia. }
    cbn [for_]. rewrite Hbody, bind_Ok.
    destruct (IH (i0 + 1) (set_v s (<[Z.to_nat i0 := b]> (v s))))
      as (s' & Hrun & Hm' & Hlen & Hld & Hlow);
      try (cbn [v mem set_v]; rewrite ?length_insert; lia).
    cbn [v mem set_v] in *. rewrite length_insert in Hlen.
    exists s'. split_and!; try done.
    + intros j Hj. destruct (Z.eq_dec j i0) as [->|Hne].
      * rewrite Hlow by lia. rewrite list_lookup_insert_eq by lia. done.
      * by rewrite Hld by lia.
    + intros j Hj. rewrite Hlow by lia. by rewrite list_lookup_insert_ne by lia.
Qed.

(** The store loop stops at the first index at or above the memory size,
    when its last index is one. *)
Lemma store_loop_fault (base : Z) (cnt : nat) : ∀ (i0 : Z) (s : State),
  (0 < cnt)%nat → 0 ≤ base → 0 ≤ i0 →
  i0 + Z.of_nat cnt ≤ Z.of_nat (length (v s)) →
  Z.of_nat (length (mem s)) < base + i0 + Z.of_nat cnt →
  ∃ i, for_ cnt i0 (store_reg base) s = Fault (MemRange i)
    ∧ Z.of_nat (length (mem s)) ≤ i.
Proof.
  induction cnt as [|cnt IH]; intros i0 s Hc Hb Hi Hv Hm; [lia|].
  destruct (at_in_range RegRange (v s) i0) as (b & Hrd & Hb0); [lia|].
  destruct (Z.lt_ge_cases (base + i0) (Z.of_nat (length (mem s)))) as [Hin|Hout].
  - assert (Hbody : store_reg base i0 s
                    = Ok (set_mem s (<[Z.to_nat (base + i0) := b]> (mem s)))).
    { unfold store_reg, rd_v. rewrite Hrd, bind_Ok. apply wr_mem_Ok. lia. }
    cbn [for_]. rewrite Hbody, bind_Ok.
    destruct (IH (i0 + 1) (set_mem s (<[Z.to_nat (base + i0) := b]> (mem s))))
      as (i & Hrun & Hle);
      try (cbn [v mem set_mem]; rewrite ?length_insert; lia).
    cbn [mem set_mem] in Hle. rewrite length_insert in Hle.
    exists i. by split.
  - assert (Hbody : store_reg base i0 s = Fault (MemRange (base + i0))).
    { unfold store_reg, rd_v. rewrite Hrd, bind_Ok. unfold wr_mem, put.
      destruct (Z.leb_spec 0 (base + i0));
        destruct (Z.ltb_spec (base + i0) (Z.of_nat (length (mem s)))); (done || lia). }
    cbn [for_]. rewrite Hbody. exists (base + i0). by split.
Qed.

(** C8: a register store followed by a register load with the same x (the
    index register is not changed by the store) leaves registers 0..x as
    they were before the pair when I + x lies in memory; when I + x is at
    or above the memory size, the store accesses memory out of range. *)
Theorem store_then_load_is_identity (k : Keypad) (rnd rnd' : Z) (m : Chip8VM) (op1 : Z) :
  wf m = true →
  fetch (st m) = Ok op1 → op_fam op1 = 0xF000 → op_nn op1 = 0x55 →
  (I (st m) + op_x op1 < kMemSize →
   ∃ m1, step k rnd m = Ok (m1, false)
     ∧ I (st m1) = I (st m)
     ∧ ∀ op2, fetch (st m1) = Ok op2 → op_fam op2 = 0xF000 → op_nn op2 = 0x65 →
              op_x op2 = op_x op1 →
         ∃ m2, step k rnd' m1 = Ok (m2, false)
           ∧ ∀ i, 0 ≤ i ≤ op_x op1 → reg m2 i = reg m i)
  ∧ (kMemSize ≤ I (st m) + op_x op1 →
     ∃ i, step k rnd m = Fault (MemRange i) ∧ kMemSize ≤ i).
Proof.
  intros Hwf Hf Hfam Hnn.
  destruct (wf_State_of _ Hwf) as [Hml _ Hvl _ HIr _ _ _ _ _ _].
  pose proof (op_x_range op1) as Hx.
  rewrite (step_fetch _ _ _ _ Hf), exec_misc_eq, exec_misc_store by done.
  cbn [st set_st].
  split; intros HI; unfold kMemSize in HI |- *.
  - destruct (store_loop (I (skip (st m))) (Z.to_nat (op_x op1 + 1)) 0 (skip (st m)))
      as (s1 & Hrun & Hv1 & HI1 & Hpc1 & Hlen1 & Hst & _);
      try (cbn [I v mem skip set_pc]; lia).
    rewrite Hrun, !bind_Ok. cbn [I v mem skip set_pc] in *.
    eexists. split; [reflexivity|]. split; [done|].
    intros op2 Hf2 Hfam2 Hnn2 Hx2.
    rewrite (step_fetch _ _ _ _ Hf2), exec_misc_eq, exec_misc_load by done.
    cbn [st set_st]. rewrite Hx2.
    destruct (load_loop (I (skip s1)) (Z.to_nat (op_x op1 + 1)) 0 (skip s1))
      as (s2 & Hrun2 & _ & _ & Hld & _);
      try (cbn [I v mem skip set_pc]; rewrite ?Hv1, ?Hlen1, ?HI1; lia).
    rewrite Hrun2, !bind_Ok. cbn [I v mem skip set_pc] in *.
    eexists. split; [reflexivity|].
    intros i Hi. unfold reg. cbn [st set_st].
    rewrite Hld by lia. rewrite HI1. by rewrite Hst by lia.
  - destruct (store_loop_fault (I (skip (st m))) (Z.to_nat (op_x op1 + 1)) 0 (skip (st m)))
      as (i & Hrun & Hle); try (cbn [I v mem skip set_pc]; lia).
    rewrite Hrun. cbn [I v mem skip set_pc] in Hle.
    exists i. split; [done | lia].
Qed.

Lemma store_then_load_is_identity_witness :
  (wf m_store = true ∧ fetch (st m_store) = Ok 0xF255 ∧ I (st m_store) = 0x300
   ∧ reg m_store 0 = Some 0x11 ∧ reg m_store 1 = Some 0x22 ∧ reg m_store 2 = Some 0x33
   ∧ step no_keys 0 m_store = Ok (m_stored, false)
   ∧ fetch (st m_stored) = Ok 0xF265
   ∧ step no_keys 0 m_stored = Ok (m_loaded, false)
   ∧ ∀ i, 0 ≤ i ≤ 2 → reg m_loaded i = reg m_store i)
  ∧ (wf m_store_at_end = true ∧ fetch (st m_store_at_end) = Ok 0xF155
     ∧ I (st m_store_at_end) = 0xFFF
     ∧ ∃ i, step no_keys 0 m_store_at_end = Fault (MemRange i) ∧ kMemSize ≤ i).
Proof.
  assert (Hstep1 : step no_keys 0 m_store = Ok (m_stored, false))
    by (vm_compute; reflexivity).
  assert (Hstep2 : step no_keys 0 m_stored = Ok (m_loaded, false))
    by (vm_compute; reflexivity).
  split; (split_and!; [vm_compute; reflexivity .. |]).
  - destruct (store_then_load_is_identity no_keys 0 0 m_store 0xF255) as [Hin _];
      [vm_compute; reflexivity .. |].
    destruct Hin as (m1 & Hs1 & _ & Hnext); [vm_compute; reflexivity|].
    rewrite Hstep1 in Hs1. apply Ok_pair_inj in Hs1 as [<- _].
    destruct (Hnext 0xF265) as (m2 & Hs2 & Hid); [vm_compute; reflexivity .. |].
    rewrite Hstep2 in Hs2. apply Ok_pair_inj in Hs2 as [<- _].
    exact Hid.
  - apply (store_then_load_is_identity no_keys 0 0 m_store_at_end 0xF155);
      vm_compute; (reflexivity || discriminate).
Defined.

(** ** Program load *)

Lemma copy_in_spec (base : Z) (bytes : list Z) : ∀ (i : Z) (s : State),
  0 ≤ base + i →
  base + i + Z.of_nat (length bytes) ≤ Z.of_nat (length (mem s)) →
  ∃ a, copy_in base i bytes s = Ok (set_mem s a)
    ∧ length a = length (mem s)
    ∧ (∀ (j : nat) (b : Z), bytes !! j = Some b →
         a !! Z.to_nat (base + i + Z.of_nat j) = Some b)
    ∧ (∀ n : Z, 0 ≤ n → n < base + i ∨ base + i + Z.of_nat (length bytes) ≤ n →
         a !! Z.to_nat n = mem s !! Z.to_nat n).
Proof.
  induction bytes as [|b bs IH]; intros i s Hlo Hhi.
  - exists (mem s). split_and!; try done. by destruct s.
  - cbn [length] in Hhi. cbn [copy_in].
    rewrite wr_mem_Ok, bind_Ok by lia.
    destruct (IH (i + 1) (set_mem s (<[Z.to_nat (base + i) := b]> (mem s))))
      as (a & Hrun & Hlen & Hin & Hout);
      try (cbn [mem set_mem]; rewrite ?length_insert; lia).
    cbn [mem set_mem] in *. rewrite length_insert in Hlen.
    exists a. split_and!; try done.
    + intros [|j] c Hc.
      * injection Hc as ->. rewrite Hout by lia.
        rewrite Z.add_0_r. apply list_lookup_insert_eq. lia.
      * cbn in Hc. rewrite <- (Hin j c Hc). f_equal. lia.
    + intros n Hn Hrange. cbn [length] in Hrange.
      rewrite Hout by lia. apply list_lookup_insert_ne. lia.
Qed.

(** C9: a load fails exactly when the image cannot be opened or does not
    fit above the entry address, and then returns [false] with the machine
    unchanged; otherwise it returns [true], the bytes of the image are in
    memory from the entry address on, the rest of memory (with the font
    region) and every other member are unchanged, and the program counter
    is the entry address. *)
Theorem load_fails_or_copies (fs : string → option (list Z)) (path : string) (m : Chip8VM) :
  Z.of_nat (length (mem (st m))) = kMemSize →
  ∃ m' ok out, load fs path m = Ok (m', ok, out)
    ∧ (ok = false ↔
         fs path = None
         ∨ ∃ bytes, fs path = Some bytes ∧ kMemSize < kEntryAddr + Z.of_nat (length bytes))
    ∧ (ok = false → m' = m)
    ∧ (ok = true →
         ∃ bytes, fs path = Some bytes
           ∧ (∀ (j : nat) (b : Z), bytes !! j = Some b →
                mem (st m') !! Z.to_nat (kEntryAddr + Z.of_nat j) = Some b)
           ∧ (∀ n : Z, 0 ≤ n →
                n < kEntryAddr ∨ kEntryAddr + Z.of_nat (length bytes) ≤ n →
                mem (st m') !! Z.to_nat n = mem (st m) !! Z.to_nat n)
           ∧ pc (st m') = kEntryAddr
           ∧ m' = set_st m (set_pc (set_mem (st m) (mem (st m'))) kEntryAddr)).
Proof.
  intros Hlen. unfold load.
  destruct (fs path) as [bytes|] eqn:Hfs.
  - rewrite Z.gtb_ltb.
    destruct (Z.ltb_spec kMemSize (kEntryAddr + Z.of_nat (length bytes))) as [Hbig|Hfit].
    + eexists _, _, _. split; [reflexivity|]. split_and!; try done.
      split; [|done]. intros _. right. eauto.
    + destruct (copy_in_spec kEntryAddr bytes 0 (st m)) as (a & Hrun & Hla & Hin & Hout);
        try (unfold kEntryAddr in *; lia).
      rewrite Hrun, bind_Ok.
      eexists _, _, _. split; [reflexivity|]. split_and!; try done.
      * split; [done|]. intros [[=] | (bytes' & [= <-] & Hbig)]. lia.
      * intros _. exists bytes. cbn [st set_st mem set_mem set_pc pc].
        split_and!; done.
  - eexists _, _, _. split; [reflexivity|]. split_and!; try done.
    split; [|done]. intros _. by left.
Qed.

Lemma load_fails_or_copies_witness :
  Z.of_nat (length (mem (st m_fresh))) = kMemSize
  ∧ ∃ m' ok out, load (every_path [0x12; 0x00]) "rom" m_fresh = Ok (m', ok, out)
    ∧ (ok = false ↔
         every_path [0x12; 0x00] "rom" = None
         ∨ ∃ bytes, every_path [0x12; 0x00] "rom" = Some bytes
                    ∧ kMemSize < kEntryAddr + Z.of_nat (length bytes))
    ∧ (ok = false → m' = m_fresh)
    ∧ (ok = true →
         ∃ bytes, every_path [0x12; 0x00] "rom" = Some bytes
           ∧ (∀ (j : nat) (b : Z), bytes !! j = Some b →
                mem (st m') !! Z.to_nat (kEntryAddr + Z.of_nat j) = Some b)
           ∧ (∀ n : Z, 0 ≤ n →
                n < kEntryAddr ∨ kEntryAddr + Z.of_nat (length bytes) ≤ n →
                mem (st m') !! Z.to_nat n = mem (st m_fresh) !! Z.to_nat n)
           ∧ pc (st m') = kEntryAddr
           ∧ m' = set_st m_fresh
                    (set_pc (set_mem (st m_fresh) (mem (st m'))) kEntryAddr)).
Proof.
  split; [vm_compute; reflexivity|].
  apply (load_fails_or_copies (every_path [0x12; 0x00]) "rom" m_fresh).
  vm_compute; reflexivity.
Defined.

(** The three outcomes of a load on a freshly constructed machine: an image
    that cannot be opened, an image of 3585 bytes, and an image of two
    bytes. *)
Lemma load_outcomes :
  (∃ out, load (λ _, None) "rom" m_fresh = Ok (m_fresh, false, out))
  ∧ (∃ out, load (every_path (replicate 3585 0)) "rom" m_fresh = Ok (m_fresh, false, out))
  ∧ (∃ m', load (every_path (replicate 3584 0xFF)) "rom" m_fresh = Ok (m', true, [])
           ∧ mem (st m') !! 4095%nat = Some 0xFF ∧ mem (st m') !! 0x50%nat = Some 0xF0)
  ∧ (∃ m', load (every_path [0x12; 0x00]) "rom" m_fresh = Ok (m', true, [])
           ∧ mem (st m') !! 0x200%nat = Some 0x12 ∧ mem (st m') !! 0x201%nat = Some 0x00
           ∧ mem (st m') !! 0x50%nat = Some 0xF0 ∧ pc (st m') = 0x200).
Proof. split_and!; eexists; split_and?; vm_compute; reflexivity. Qed.

(** ** Sprite drawing *)

Lemma toggled_none (m : Chip8VM) : toggled (λ _, false) m m.
Proof.
  split; try done.
  - by destruct m as [[] [] ? ?].
  - by intros (j & [=] & _).
  - by left.
Qed.

Lemma toggled_ext (T T' : nat → bool) (m m' : Chip8VM) :
  (∀ j, T j = T' j) → toggled T m m' → toggled T' m m'.
Proof.
  intros HT [Hfr Hlp Hlv Hpix Hregs Hset Hcases]. split; try done.
  - intros j. rewrite <- HT. apply Hpix.
  - intros (j & Hj & Hp). apply Hset. exists j. by rewrite HT.
  - destruct Hcases as [?|(? & j & Hj & Hp)]; [by left|].
    right. split; [done|]. exists j. by rewrite <- HT.
Qed.

Lemma toggled_seq (T1 T2 : nat → bool) (m m1 m2 : Chip8VM) :
  (∀ j, T1 j = true → T2 j = true → False) →
  toggled T1 m m1 → toggled T2 m1 m2 → toggled (λ j, T1 j || T2 j) m m2.
Proof.
  intros Hdisj [Hfr1 Hlp1 Hlv1 Hpix1 Hregs1 Hset1 Hcases1]
               [Hfr2 Hlp2 Hlv2 Hpix2 Hregs2 Hset2 Hcases2].
  assert (Hsame : ∀ j, T2 j = true → pix (fb m1) !! j = pix (fb m) !! j).
  { intros j Hj. rewrite Hpix1. destruct (T1 j) eqn:E; [by destruct (Hdisj j)|done]. }
  split.
  - rewrite Hfr2. rewrite Hfr1 at 1 2 3. done.
  - congruence.
  - congruence.
  - intros j. rewrite Hpix2. destruct (T2 j) eqn:E2.
    + rewrite orb_true_r. by rewrite Hsame.
    + rewrite orb_false_r. apply Hpix1.
  - intros i Hi. rewrite Hregs2 by done. by apply Hregs1.
  - intros (j & Hj & Hp). apply orb_true_iff in Hj as [Hj|Hj].
    + destruct Hcases2 as [->|[? _]]; [|done]. apply Hset1. eauto.
    + apply Hset2. exists j. split; [done|]. by rewrite Hsame.
  - destruct Hcases2 as [->|(Hone & j & Hj & Hp)].
    + destruct Hcases1 as [?|(? & j & Hj & Hp)]; [by left|].
      right. split; [done|]. exists j. by rewrite Hj.
    + right. split; [done|]. exists j. rewrite Hj, orb_true_r.
      split; [done|]. by rewrite <- Hsame.
Qed.

Lemma target_in_range (px py row col : Z) : (target px py row col < 2048)%nat.
Proof.
  unfold target, FB.at_index, kDisplayWidth, kDisplayHeight.
  pose proof (Z.mod_pos_bound (px + col) 64). pose proof (Z.mod_pos_bound (py + row) 32).
  lia.
Qed.

Lemma target_inj (px py r c r' c' : Z) :
  0 ≤ r < 32 → 0 ≤ r' < 32 → 0 ≤ c < 64 → 0 ≤ c' < 64 →
  target px py r c = target px py r' c' → r = r' ∧ c = c'.
Proof.
  unfold target, FB.at_index, kDisplayWidth, kDisplayHeight. intros Hr Hr' Hc Hc' Heq.
  pose proof (Z.mod_pos_bound (px + c) 64). pose proof (Z.mod_pos_bound (py + r) 32).
  pose proof (Z.mod_pos_bound (px + c') 64). pose proof (Z.mod_pos_bound (py + r') 32).
  apply Z2Nat.inj in Heq; [|lia|lia].
  assert (Hx : (px + c) mod 64 = (px + c') mod 64) by lia.
  assert (Hy : (py + r) mod 32 = (py + r') mod 32) by lia.
  clear Heq. split.
  - clear Hx. revert Hy. Z.div_mod_to_equations. lia.
  - clear Hy. revert Hx. Z.div_mod_to_equations. lia.
Qed.

Lemma target_inj_col (px py r c c' : Z) :
  0 ≤ c < 64 → 0 ≤ c' < 64 → target px py r c = target px py r c' → c = c'.
Proof.
  unfold target, FB.at_index, kDisplayWidth, kDisplayHeight. intros Hc Hc' Heq.
  pose proof (Z.mod_pos_bound (px + c) 64). pose proof (Z.mod_pos_bound (py + r) 32).
  pose proof (Z.mod_pos_bound (px + c') 64).
  apply Z2Nat.inj in Heq; [|lia|lia].
  assert (Hx : (px + c) mod 64 = (px + c') mod 64) by lia.
  clear Heq. revert Hx. Z.div_mod_to_equations. lia.
Qed.

Lemma col_hits_spec (sprite px py row : Z) (cnt : nat) : ∀ (c0 : Z) (j : nat),
  col_hits sprite px py row cnt c0 j = true
  ↔ ∃ c, c0 ≤ c < c0 + Z.of_nat cnt ∧ sprite_bit sprite c = true ∧ j = target px py row c.
Proof.
  induction cnt as [|cnt IH]; intros c0 j; cbn [col_hits].
  - split; [done|]. intros (c & Hc & _). lia.
  - rewrite orb_true_iff, andb_true_iff, bool_decide_eq_true, IH. split.
    + intros [[Hb ->] | (c & Hc & Hb & ->)]; [exists c0 | exists c]; split_and!; done || lia.
    + intros (c & Hc & Hb & ->). destruct (Z.eq_dec c c0) as [->|Hne]; [by left|].
      right. exists c. split_and!; done || lia.
Qed.

Lemma row_hits_spec (a : list Z) (base px py : Z) (cnt : nat) : ∀ (r0 : Z) (j : nat),
  row_hits a base px py cnt r0 j = true
  ↔ ∃ r c sprite, r0 ≤ r < r0 + Z.of_nat cnt ∧ 0 ≤ c < 8
      ∧ a !! Z.to_nat (base + r) = Some sprite
      ∧ sprite_bit sprite c = true ∧ j = target px py r c.
Proof.
  induction cnt as [|cnt IH]; intros r0 j; cbn [row_hits].
  - split; [done|]. intros (r & c & sprite & Hr & _). lia.
  - rewrite orb_true_iff, IH. split.
    + intros [Hrow | (r & c & sprite & Hr & Hrest)].
      * destruct (a !! Z.to_nat (base + r0)) as [sprite|] eqn:E; [|done].
        apply col_hits_spec in Hrow as (c & Hc & Hb & ->).
        exists r0, c, sprite. split_and!; done || lia.
      * exists r, c, sprite. split; [lia | done].
    + intros (r & c & sprite & Hr & Hc & Ha & Hb & ->).
      destruct (Z.eq_dec r r0) as [->|Hne].
      * left. rewrite Ha. apply col_hits_spec. exists c. split_and!; done || lia.
      * right. exists r, c, sprite. split_and!; done || lia.
Qed.

(** One iteration of the column loop. *)
Lemma draw_col_toggled (sprite px py row col : Z) (m : Chip8VM) :
  length (pix (fb m)) = 2048%nat → length (v (st m)) = 16%nat →
  ∃ m', draw_col sprite px py row col m = Ok m'
    ∧ toggled (λ j, sprite_bit sprite col && bool_decide (j = target px py row col)) m m'.
Proof.
  intros Hlp Hlv. unfold draw_col, sprite_bit.
  destruct (Z.land sprite (Z.shiftr 128 col) =? 0) eqn:Hbit; cbn [negb andb].
  - exists m. split; [done | apply toggled_none].
  - 
    pose proof (target_in_range px py row col) as Hin. unfold target in *.
    set (sx := (px + col) mod kDisplayWidth) in *.
    set (sy := (py + row) mod kDisplayHeight) in *.
    assert (Hidx : 0 ≤ FB.at_index sx sy).
    { unfold FB.at_index, sx, sy, kDisplayWidth, kDisplayHeight.
      pose proof (Z.mod_pos_bound (px + col) 64). pose proof (Z.mod_pos_bound (py + row) 32).
      lia. }
    destruct (at_in_range PixRange (pix (fb m)) (FB.at_index sx sy)) as (p & Hrd & Hp); [lia|].
    unfold FB.get, FB.set. rewrite Hrd, bind_Ok.
    rewrite (put_Ok PixRange (pix (fb m))) by lia.
    destruct (p =? 1) eqn:Hp1.
    + apply Z.eqb_eq in Hp1 as ->.
      rewrite wr_v_Ok, !bind_Ok by lia.
      eexists. split; [reflexivity|]. split; cbn [st fb pix v set_st set_fb set_v].
      * done.
      * by rewrite length_insert.
      * by rewrite length_insert.
      * intros j. rewrite list_lookup_insert. case_bool_decide as Hj.
        -- subst j. rewrite decide_True by (split; [done|lia]). by rewrite Hp.
        -- rewrite decide_False by (intros [? _]; done). done.
      * intros i Hi. by rewrite list_lookup_insert_ne by lia.
      * intros _. apply list_lookup_insert_eq. lia.
      * right. split; [apply list_lookup_insert_eq; lia|].
        exists (Z.to_nat (FB.at_index sx sy)). by rewrite bool_decide_eq_true_2.
    + apply Z.eqb_neq in Hp1. rewrite !bind_Ok.
      eexists. split; [reflexivity|]. split; cbn [st fb pix v set_st set_fb set_v].
      * by destruct m as [[] [] ? ?].
      * by rewrite length_insert.
      * done.
      * intros j. rewrite list_lookup_insert. case_bool_decide as Hj.
        -- subst j. rewrite decide_True by (split; [done|lia]). by rewrite Hp.
        -- rewrite decide_False by (intros [? _]; done). done.
      * done.
      * intros (j & Hj & Hpj). apply bool_decide_eq_true in Hj as ->. congruence.
      * by left.
Qed.

(** The column loop from column [c0] on. *)
Lemma draw_cols_toggled (sprite px py row : Z) (cnt : nat) : ∀ (c0 : Z) (m : Chip8VM),
  length (pix (fb m)) = 2048%nat → length (v (st m)) = 16%nat →
  0 ≤ c0 → c0 + Z.of_nat cnt ≤ 64 →
  ∃ m', for_ cnt c0 (draw_col sprite px py row) m = Ok m'
    ∧ toggled (col_hits sprite px py row cnt c0) m m'.
Proof.
  induction cnt as [|cnt IH]; intros c0 m Hlp Hlv Hc0 Hc.
  - exists m. split; [done | apply toggled_none].
  - destruct (draw_col_toggled sprite px py row c0 m) as (m1 & Hstep & Htg1); [done..|].
    destruct (IH (c0 + 1) m1) as (m' & Hrun & Htg2).
    { by rewrite (tg_len_pix _ _ _ Htg1). }
    { by rewrite (tg_len_v _ _ _ Htg1). }
    { lia. } { lia. }
    exists m'. split.
    + cbn [for_]. by rewrite Hstep, bind_Ok.
    + cbn [col_hits]. eapply toggled_seq; [|done..].
      intros j Hj1 Hj2. apply andb_true_iff in Hj1 as [_ Hj1].
      apply bool_decide_eq_true in Hj1 as ->.
      apply col_hits_spec in Hj2 as (c & Hcr & _ & Heq).
      apply target_inj_col in Heq; lia.
Qed.

Lemma toggled_mem (T : nat → bool) (m m' : Chip8VM) :
  toggled T m m' → mem (st m') = mem (st m) ∧ I (st m') = I (st m) ∧ pc (st m') = pc (st m).
Proof. intros [Hfr _ _ _ _ _ _]. by rewrite Hfr. Qed.

(** The row loop from row [r0] on. *)
Lemma draw_rows_toggled (px py : Z) (cnt : nat) : ∀ (r0 : Z) (m : Chip8VM),
  length (pix (fb m)) = 2048%nat → length (v (st m)) = 16%nat →
  0 ≤ r0 → r0 + Z.of_nat cnt ≤ 32 →
  0 ≤ I (st m) + r0 → I (st m) + r0 + Z.of_nat cnt ≤ Z.of_nat (length (mem (st m))) →
  ∃ m', for_ cnt r0 (draw_row px py) m = Ok m'
    ∧ toggled (row_hits (mem (st m)) (I (st m)) px py cnt r0) m m'.
Proof.
  induction cnt as [|cnt IH]; intros r0 m Hlp Hlv Hr0 Hr HI0 HI.
  - exists m. split; [done | apply toggled_none].
  - destruct (at_in_range MemRange (mem (st m)) (I (st m) + r0)) as (sprite & Hrd & Hsp); [lia|].
    destruct (draw_cols_toggled sprite px py r0 8 0 m) as (m1 & Hstep & Htg1); [done || lia..|].
    destruct (toggled_mem _ _ _ Htg1) as (Hmem & HI1 & _).
    destruct (IH (r0 + 1) m1) as (m' & Hrun & Htg2).
    { by rewrite (tg_len_pix _ _ _ Htg1). }
    { by rewrite (tg_len_v _ _ _ Htg1). }
    { lia. } { lia. } { rewrite HI1. lia. } { rewrite HI1, Hmem. lia. }
    exists m'. split.
    + assert (Hbody : draw_row px py r0 m = Ok m1).
      { unfold draw_row, rd_mem. by rewrite Hrd, bind_Ok. }
      cbn [for_]. by rewrite Hbody, bind_Ok.
    + cbn [row_hits]. rewrite Hsp. rewrite Hmem, HI1 in Htg2.
      eapply toggled_seq; [|done..].
      intros j Hj1 Hj2.
      apply col_hits_spec in Hj1 as (c & Hc & _ & ->).
      apply row_hits_spec in Hj2 as (r & c' & _ & Hrr & Hc' & _ & _ & Heq).
      apply target_inj in Heq; lia.
Qed.

Lemma exec_draw_toggled (m : Chip8VM) (op vx vy : Z) :
  length (pix (fb m)) = 2048%nat → length (v (st m)) = 16%nat →
  v (st m) !! Z.to_nat (op_x op) = Some vx → v (st m) !! Z.to_nat (op_y op) = Some vy →
  0 ≤ vx → 0 ≤ vy →
  0 ≤ I (st m) → I (st m) + op_n op ≤ Z.of_nat (length (mem (st m))) →
  ∃ m', exec_draw m op = Ok m'
    ∧ toggled (row_hits (mem (st m)) (I (st m)) (vx mod 64) (vy mod 32)
                        (Z.to_nat (op_n op)) 0)
              (set_st m (set_v (st m) (<[15%nat := 0]> (v (st m))))) m'.
Proof.
  intros Hlp Hlv Hvx Hvy Hx0 Hy0 HI0 HI.
  pose proof (op_x_range op). pose proof (op_y_range op). pose proof (op_n_range op).
  unfold exec_draw.
  rewrite (rd_v_Ok _ (op_x op) vx), bind_Ok by (done || lia).
  rewrite (rd_v_Ok _ (op_y op) vy), bind_Ok by (done || lia).
  rewrite wr_v_Ok, bind_Ok by lia.
  assert (Hu : ∀ z n, 0 < n ≤ 256 → u8 (z mod n) = z mod n).
  { intros z n Hn. unfold u8. apply Z.mod_small. pose proof (Z.mod_pos_bound z n). lia. }
  unfold kDisplayWidth, kDisplayHeight. rewrite !Hu by lia.
  change (Z.to_nat 15) with 15%nat.
  apply (draw_rows_toggled (vx mod 64) (vy mod 32) (Z.to_nat (op_n op)) 0
           (set_st m (set_v (st m) (<[15%nat := 0]> (v (st m))))));
    cbn [st fb set_st set_v v mem I pix]; rewrite ?length_insert; done || lia.
Qed.

Lemma land_pow2_testbit (a n : Z) :
  0 ≤ n → negb (Z.land a (2 ^ n) =? 0) = Z.testbit a n.
Proof.
  intros Hn. destruct (Z.testbit a n) eqn:E.
  - apply negb_true_iff, Z.eqb_neq. intros H0.
    assert (Hb : Z.testbit (Z.land a (2 ^ n)) n = true).
    { rewrite Z.land_spec, E, Z.pow2_bits_true; done. }
    rewrite H0, Z.bits_0 in Hb. done.
  - apply negb_false_iff, Z.eqb_eq. apply Z.bits_inj'. intros i Hi.
    rewrite Z.land_spec, Z.bits_0, Z.pow2_bits_eqb by done.
    destruct (Z.eqb_spec n i) as [<-|]; [by rewrite E | apply andb_false_r].
Qed.

(** The test of the column loop reads bit [7 - col] of the sprite byte. *)
Lemma sprite_bit_testbit (sprite col : Z) :
  0 ≤ col < 8 → sprite_bit sprite col = Z.testbit sprite (7 - col).
Proof.
  intros Hc. unfold sprite_bit. rewrite <- land_pow2_testbit by lia.
  assert (Hs : Z.shiftr 128 col = 2 ^ (7 - col)).
  { assert (col = 0 ∨ col = 1 ∨ col = 2 ∨ col = 3 ∨ col = 4 ∨ col = 5 ∨ col = 6 ∨ col = 7)
      as Hcases by lia.
    destruct Hcases as [->|[->|[->|[->|[->|[->|[->| ->]]]]]]]; reflexivity. }
  by rewrite Hs.
Qed.

Lemma pix_bit (m : Chip8VM) (j : nat) (p : Z) :
  wf m = true → pix (fb m) !! j = Some p → p = 0 ∨ p = 1.
Proof.
  intros Hwf Hp. apply wf_spec in Hwf. apply bitb_spec.
  eapply forallb_lookup; [apply (wf_pix _ Hwf) | exact Hp].
Qed.

(** The pixel targeted by column [c] of row [r] is toggled exactly when
    bit [7 - c] of the sprite byte of that row is set. *)
Lemma row_hits_at (a : list Z) (base px py n r c sprite : Z) :
  0 ≤ r < n → n ≤ 32 → 0 ≤ c < 8 →
  a !! Z.to_nat (base + r) = Some sprite →
  row_hits a base px py (Z.to_nat n) 0 (target px py r c) = Z.testbit sprite (7 - c).
Proof.
  intros Hr Hn Hc Ha. apply eq_true_iff_eq. rewrite row_hits_spec. split.
  - intros (r' & c' & sprite' & Hr' & Hc' & Ha' & Hb & Heq).
    apply target_inj in Heq as [-> ->]; try lia.
    rewrite Ha in Ha'. injection Ha' as <-. by rewrite <- sprite_bit_testbit.
  - intros Hb. exists r, c, sprite. rewrite sprite_bit_testbit by done.
    split_and!; done || lia.
Qed.

Lemma row_hits_outside (a : list Z) (base px py n x y : Z) :
  (∀ r c, 0 ≤ r < n → 0 ≤ c < 8 →
          ¬ (x = (px + c) mod 64 ∧ y = (py + r) mod 32)) →
  0 ≤ x < 64 → 0 ≤ y < 32 →
  row_hits a base px py (Z.to_nat n) 0 (Z.to_nat (FB.at_index x y)) = false.
Proof.
  intros Hout Hx Hy. apply not_true_is_false. rewrite row_hits_spec.
  intros (r & c & sprite & Hr & Hc & _ & _ & Heq).
  apply (Hout r c); [lia | done |].
  unfold target, FB.at_index, kDisplayWidth, kDisplayHeight in Heq.
  pose proof (Z.mod_pos_bound (px + c) 64). pose proof (Z.mod_pos_bound (py + r) 32).
  apply Z2Nat.inj in Heq; lia.
Qed.

(** C5: a sprite draw succeeds when the sprite rows lie in memory; the
    pixel that column c of row r targets is at column (px + c) mod 64 and
    row (py + r) mod 32, where px = Vx mod 64 and py = Vy mod 32, and its new
    value is the exclusive-or of its old value and bit 7 - c of the sprite
    byte of row r; no other pixel changes; register F ends as 1 if some
    targeted pixel that was 1 meets a set sprite bit, otherwise as 0; the
    other registers are unchanged. *)
Theorem draw_wraps_xors_and_flags (k : Keypad) (rnd : Z) (m : Chip8VM) (op vx vy : Z) :
  wf m = true →
  fetch (st m) = Ok op → op_fam op = 0xD000 →
  reg m (op_x op) = Some vx → reg m (op_y op) = Some vy →
  I (st m) + op_n op ≤ kMemSize →
  ∃ m', step k rnd m = Ok (m', true)
    ∧ (∀ r c sprite p, 0 ≤ r < op_n op → 0 ≤ c < 8 →
         mem (st m) !! Z.to_nat (I (st m) + r) = Some sprite →
         pixel m ((vx mod 64 + c) mod 64) ((vy mod 32 + r) mod 32) = Some p →
         pixel m' ((vx mod 64 + c) mod 64) ((vy mod 32 + r) mod 32)
         = Some (Z.lxor p (b2z (Z.testbit sprite (7 - c)))))
    ∧ (∀ x y, 0 ≤ x < 64 → 0 ≤ y < 32 →
         (∀ r c, 0 ≤ r < op_n op → 0 ≤ c < 8 →
                 ¬ (x = (vx mod 64 + c) mod 64 ∧ y = (vy mod 32 + r) mod 32)) →
         pixel m' x y = pixel m x y)
    ∧ (reg m' 0xF = Some 1 ↔
         ∃ r c sprite, 0 ≤ r < op_n op ∧ 0 ≤ c < 8
           ∧ mem (st m) !! Z.to_nat (I (st m) + r) = Some sprite
           ∧ Z.testbit sprite (7 - c) = true
           ∧ pixel m ((vx mod 64 + c) mod 64) ((vy mod 32 + r) mod 32) = Some 1)
    ∧ (reg m' 0xF = Some 1 ∨ reg m' 0xF = Some 0)
    ∧ (∀ i, 0 ≤ i < 0xF → reg m' i = reg m i).
Proof.
  intros Hwf Hf Hfam Hvx Hvy HI. unfold kMemSize in HI.
  pose proof (wf_spec m) as [Hfacts _]. specialize (Hfacts Hwf).
  destruct Hfacts as [[Hml _ Hvl _ HIr _ _ _ _ _ _] Hpl _ _].
  pose proof (reg_byte _ _ _ Hwf Hvx). pose proof (reg_byte _ _ _ Hwf Hvy).
  pose proof (op_n_range op) as Hn.
  rewrite (step_fetch _ _ _ _ Hf), exec_draw_eq by done.
  destruct (exec_draw_toggled (set_st m (skip (st m))) op vx vy)
    as (m' & Hrun & [Hfr Hlp Hlv Hpix Hregs Hset Hcases]);
    try (cbn [st fb set_st skip set_pc v mem I pix]; done || lia).
  rewrite Hrun, bind_Ok. cbn [st fb set_st set_v skip set_pc v mem I pix] in *.
  exists m'. split; [done|]. unfold pixel, reg.
  change (Z.to_nat 15) with 15%nat.
  split_and!.
  - intros r c sprite p Hr Hc Ha Hp.
    change (Z.to_nat (FB.at_index ((vx mod 64 + c) mod 64) ((vy mod 32 + r) mod 32)))
      with (target (vx mod 64) (vy mod 32) r c) in *.
    rewrite Hpix, (row_hits_at _ _ _ _ (op_n op) r c sprite), Hp by (done || lia).
    destruct (pix_bit _ _ _ Hwf Hp) as [-> | ->]; by destruct (Z.testbit sprite (7 - c)).
  - intros x y Hx Hy Hout. by rewrite Hpix, row_hits_outside.
  - split.
    + intros Hone. destruct Hcases as [Hkeep | (_ & j & Hj & Hp)].
      * rewrite Hkeep, list_lookup_insert_eq in Hone by lia. done.
      * apply row_hits_spec in Hj as (r & c & sprite & Hr & Hc & Ha & Hb & ->).
        exists r, c, sprite. rewrite <- sprite_bit_testbit by done.
        split_and!; done || lia.
    + intros (r & c & sprite & Hr & Hc & Ha & Hb & Hp). apply Hset.
      exists (target (vx mod 64) (vy mod 32) r c). split; [|done].
      rewrite (row_hits_at _ _ _ _ (op_n op) r c sprite); done || lia.
  - destruct Hcases as [Hkeep | (Hone & _)]; [right | by left].
    rewrite Hkeep. apply list_lookup_insert_eq. lia.
  - intros i Hi. rewrite Hregs by lia. apply list_lookup_insert_ne. lia.
Qed.

Lemma draw_wraps_xors_and_flags_witness :
  wf m_draw_edge = true
  ∧ fetch (st m_draw_edge) = Ok 0xD011
  ∧ reg m_draw_edge 0 = Some 60 ∧ reg m_draw_edge 1 = Some 0
  ∧ I (st m_draw_edge) + 1 ≤ kMemSize
  ∧ ∃ m', step no_keys 0 m_draw_edge = Ok (m', true)
    ∧ (∀ r c sprite p, 0 ≤ r < op_n 0xD011 → 0 ≤ c < 8 →
         mem (st m_draw_edge) !! Z.to_nat (I (st m_draw_edge) + r) = Some sprite →
         pixel m_draw_edge ((60 mod 64 + c) mod 64) ((0 mod 32 + r) mod 32) = Some p →
         pixel m' ((60 mod 64 + c) mod 64) ((0 mod 32 + r) mod 32)
         = Some (Z.lxor p (b2z (Z.testbit sprite (7 - c)))))
    ∧ (∀ x y, 0 ≤ x < 64 → 0 ≤ y < 32 →
         (∀ r c, 0 ≤ r < op_n 0xD011 → 0 ≤ c < 8 →
                 ¬ (x = (60 mod 64 + c) mod 64 ∧ y = (0 mod 32 + r) mod 32)) →
         pixel m' x y = pixel m_draw_edge x y)
    ∧ (reg m' 0xF = Some 1 ↔
         ∃ r c sprite, 0 ≤ r < op_n 0xD011 ∧ 0 ≤ c < 8
           ∧ mem (st m_draw_edge) !! Z.to_nat (I (st m_draw_edge) + r) = Some sprite
           ∧ Z.testbit sprite (7 - c) = true
           ∧ pixel m_draw_edge ((60 mod 64 + c) mod 64) ((0 mod 32 + r) mod 32) = Some 1)
    ∧ (reg m' 0xF = Some 1 ∨ reg m' 0xF = Some 0)
    ∧ (∀ i, 0 ≤ i < 0xF → reg m' i = reg m_draw_edge i).
Proof.
  split_and!; [vm_compute; reflexivity || discriminate .. |].
  apply (draw_wraps_xors_and_flags no_keys 0 m_draw_edge 0xD011 60 0);
    vm_compute; reflexivity || discriminate.
Defined.

(** The sprite of the specification's example: eight set bits drawn at
    x = 60, y = 0 occupy columns 60..63 and 0..3 of row 0 and nothing else. *)
Lemma draw_at_right_edge_wraps :
  ∃ m, after [0x60;0x3C; 0x61;0x00; 0xA2;0x08; 0xD0;0x11; 0xFF] 4 = Ok m
    ∧ pix (fb m) = [1;1;1;1] ++ replicate 56 0 ++ [1;1;1;1] ++ replicate 1984 0
    ∧ reg m 0xF = Some 0.
Proof. eexists. split_and!; vm_compute; reflexivity. Qed.

(** C6 (as amended): the same draw executed twice in succession, with the
    same opcode, Vx and Vy at both executions, restores the framebuffer to
    what it was before the pair; the second draw leaves 1 in register F
    exactly when some pixel targeted by a set sprite bit was 0 before the
    pair, and 0 otherwise. *)
Theorem draw_twice_restores (k : Keypad) (rnd rnd' : Z) (m : Chip8VM) (op vx vy : Z) :
  wf m = true →
  fetch (st m) = Ok op → op_fam op = 0xD000 →
  reg m (op_x op) = Some vx → reg m (op_y op) = Some vy →
  I (st m) + op_n op ≤ kMemSize →
  ∃ m1, step k rnd m = Ok (m1, true)
    ∧ (fetch (st m1) = Ok op →
       reg m1 (op_x op) = Some vx → reg m1 (op_y op) = Some vy →
       ∃ m2, step k rnd' m1 = Ok (m2, true)
         ∧ fb m2 = fb m
         ∧ (reg m2 0xF = Some 1 ↔
              ∃ r c sprite, 0 ≤ r < op_n op ∧ 0 ≤ c < 8
                ∧ mem (st m) !! Z.to_nat (I (st m) + r) = Some sprite
                ∧ Z.testbit sprite (7 - c) = true
                ∧ pixel m ((vx mod 64 + c) mod 64) ((vy mod 32 + r) mod 32) = Some 0)
         ∧ (reg m2 0xF = Some 1 ∨ reg m2 0xF = Some 0)).
Proof.
  intros Hwf Hf Hfam Hvx Hvy HI. unfold kMemSize in HI.
  pose proof (wf_spec m) as [Hfacts _]. specialize (Hfacts Hwf).
  destruct Hfacts as [[Hml _ Hvl _ HIr _ _ _ _ _ _] Hpl _ _].
  pose proof (reg_byte _ _ _ Hwf Hvx). pose proof (reg_byte _ _ _ Hwf Hvy).
  pose proof (op_n_range op) as Hn.
  rewrite (step_fetch _ _ _ _ Hf), exec_draw_eq by done.
  destruct (exec_draw_toggled (set_st m (skip (st m))) op vx vy)
    as (m1 & Hrun & Htg1);
    try (cbn [st fb set_st skip set_pc v mem I pix]; done || lia).
  rewrite Hrun, bind_Ok.
  destruct (toggled_mem _ _ _ Htg1) as (Hmem1 & HI1 & _).
  destruct Htg1 as [_ Hlp1 Hlv1 Hpix1 _ _ _].
  cbn [st fb set_st set_v skip set_pc v mem I pix] in *.
  rewrite length_insert in Hlv1.
  exists m1. split; [done|]. intros Hf1 Hvx1 Hvy1.
  rewrite (step_fetch _ _ _ _ Hf1), exec_draw_eq by done.
  destruct (exec_draw_toggled (set_st m1 (skip (st m1))) op vx vy)
    as (m2 & Hrun2 & [Hfr2 Hlp2 Hlv2 Hpix2 Hregs2 Hset2 Hcases2]);
    try (cbn [st fb set_st skip set_pc v mem I pix]; rewrite ?HI1, ?Hmem1; done || lia).
  rewrite Hrun2, bind_Ok. cbn [st fb set_st set_v skip set_pc v mem I pix] in *.
  rewrite Hmem1, HI1 in *.
  set (T := row_hits (mem (st m)) (I (st m)) (vx mod 64) (vy mod 32) (Z.to_nat (op_n op)) 0) in *.
  assert (Hback : ∀ p, p = 0 ∨ p = 1 → u8 (Z.lxor (u8 (Z.lxor p 1)) 1) = p).
  { by intros p [-> | ->]. }
  exists m2. split; [done|]. unfold pixel, reg. change (Z.to_nat 15) with 15%nat.
  split_and!.
  - assert (Hpixeq : pix (fb m2) = pix (fb m)).
    { apply list_eq. intros j. rewrite Hpix2, Hpix1. destruct (T j); [|done].
      destruct (pix (fb m) !! j) as [p|] eqn:Hp; [|done].
      cbn. by rewrite Hback by (by eapply pix_bit). }
    destruct (fb m2), (fb m). cbn in Hpixeq. by subst.
  - split.
    + intros Hone. destruct Hcases2 as [Hkeep | (_ & j & Hj & Hp)].
      * rewrite Hkeep, list_lookup_insert_eq in Hone by lia. done.
      * pose proof Hj as Hj'.
        apply row_hits_spec in Hj as (r & c & sprite & Hr & Hc & Ha & Hb & ->).
        exists r, c, sprite. rewrite <- sprite_bit_testbit by done.
        split_and!; try (done || lia).
        rewrite Hpix1, Hj' in Hp.
        change (Z.to_nat (FB.at_index ((vx mod 64 + c) mod 64) ((vy mod 32 + r) mod 32)))
          with (target (vx mod 64) (vy mod 32) r c).
        destruct (pix (fb m) !! target (vx mod 64) (vy mod 32) r c) as [p|] eqn:Hp0;
          [|done].
        destruct (pix_bit _ _ _ Hwf Hp0) as [-> | ->]; [done | by cbn in Hp].
    + intros (r & c & sprite & Hr & Hc & Ha & Hb & Hp). apply Hset2.
      exists (target (vx mod 64) (vy mod 32) r c).
      assert (HT : T (target (vx mod 64) (vy mod 32) r c) = true).
      { unfold T. rewrite (row_hits_at _ _ _ _ (op_n op) r c sprite); done || lia. }
      split; [done|]. rewrite Hpix1, HT.
      unfold target, kDisplayWidth, kDisplayHeight. by rewrite Hp.
  - destruct Hcases2 as [Hkeep | (Hone & _)]; [right | by left].
    rewrite Hkeep. apply list_lookup_insert_eq. lia.
Qed.

Lemma draw_twice_restores_witness :
  wf m_draw_twice = true
  ∧ fetch (st m_draw_twice) = Ok 0xD001
  ∧ reg m_draw_twice 0 = Some 0
  ∧ I (st m_draw_twice) + 1 ≤ kMemSize
  ∧ ∃ m1, step no_keys 0 m_draw_twice = Ok (m1, true)
    ∧ (fetch (st m1) = Ok 0xD001 →
       reg m1 (op_x 0xD001) = Some 0 → reg m1 (op_y 0xD001) = Some 0 →
       ∃ m2, step no_keys 0 m1 = Ok (m2, true)
         ∧ fb m2 = fb m_draw_twice
         ∧ (reg m2 0xF = Some 1 ↔
              ∃ r c sprite, 0 ≤ r < op_n 0xD001 ∧ 0 ≤ c < 8
                ∧ mem (st m_draw_twice) !! Z.to_nat (I (st m_draw_twice) + r) = Some sprite
                ∧ Z.testbit sprite (7 - c) = true
                ∧ pixel m_draw_twice ((0 mod 64 + c) mod 64) ((0 mod 32 + r) mod 32)
                  = Some 0)
         ∧ (reg m2 0xF = Some 1 ∨ reg m2 0xF = Some 0)).
Proof.
  split_and!; [vm_compute; reflexivity || discriminate .. |].
  apply (draw_twice_restores no_keys 0 0 m_draw_twice 0xD001 0 0);
    vm_compute; reflexivity || discriminate.
Defined.

(** On a cleared framebuffer the pair behaves as the specification says:
    the touched pixel is clear again and the second draw reports a
    collision. *)
Lemma draw_twice_on_clear_screen :
  ∃ m, after [0xA2;0x06; 0xD0;0x01; 0xD0;0x01; 0x80] 3 = Ok m
    ∧ pix (fb m) = replicate 2048 0 ∧ reg m 0xF = Some 1.
Proof. eexists. split_and!; vm_compute; reflexivity. Qed.

(** C6 fails as stated on a framebuffer whose targeted pixel is already set:
    after a first draw of the one-pixel sprite 0x80 at (0,0), the pair formed
    by the second and third draw leaves that pixel set, not cleared, and the
    second draw of the pair reports no collision. *)
Lemma draw_twice_counterexample :
  after rom_draw_thrice 2 = Ok m_drawn_once
  ∧ wf m_drawn_once = true
  ∧ pixel m_drawn_once 0 0 = Some 1
  ∧ fetch (st m_drawn_once) = Ok 0xD001
  ∧ step no_keys 0 m_drawn_once = Ok (m_drawn_twice, true)
  ∧ fetch (st m_drawn_twice) = Ok 0xD001
  ∧ step no_keys 0 m_drawn_twice = Ok (m_drawn_thrice, true)
  ∧ I (st m_drawn_twice) = I (st m_drawn_once)
  ∧ reg m_drawn_twice 0 = reg m_drawn_once 0
  ∧ mem (st m_drawn_twice) = mem (st m_drawn_once)
  ∧ pixel m_drawn_thrice 0 0 = Some 1
  ∧ reg m_drawn_thrice 0xF = Some 0.
Proof. split_and!; vm_compute; reflexivity. Qed.

(** ** Waiting for a key *)

(** C1 fails on the code: the executor does not look at [waitKey], and the
    driver keeps calling it.  After F10A the machine waits for register 1,
    yet the next instruction 6142 is executed and changes register 1 while
    the machine is still waiting; one iteration of the driver's loop on the
    loaded program, with no key event, runs its ten cycles and ends in that
    state as well. *)
Theorem wait_for_key_does_not_suspend :
  after rom_wait 0 = Ok m_before_wait
  ∧ fetch (st m_before_wait) = Ok 0xF10A
  ∧ step no_keys 0 m_before_wait = Ok (m_waiting, false)
  ∧ waitKey m_waiting = true ∧ waitReg m_waiting = 1 ∧ reg m_waiting 1 = Some 0
  ∧ fetch (st m_waiting) = Ok 0x6142
  ∧ step no_keys 0 m_waiting = Ok (m_still_waiting, false)
  ∧ waitKey m_still_waiting = true ∧ reg m_still_waiting 1 = Some 0x42
  ∧ ∃ a, frame [] (λ _, 0) 0 app_wait = Ok (a, false, [])
      ∧ waitKey (vm a) = true ∧ reg (vm a) 1 = Some 0x42 ∧ pc (st (vm a)) = 0x204.
Proof.
  split_and!; [vm_compute; reflexivity .. |].
  eexists. split_and!; vm_compute; reflexivity.
Qed.

(** ** Memory accesses out of range *)

(** C2 fails on the code: the executor indexes memory with the program
    counter and the index register unchecked.  After the jump 1FFF the fetch
    reads [mem[4096]]; with I = 0xFFF the two-row draw D002 reads [mem[4096]]
    and the store F155 writes [mem[4096]]; after FX1E has moved I to 0x10FE
    the decimal store F033 writes [mem[4350]].  Each machine is well formed
    and reached from a program image. *)
Theorem step_accesses_memory_out_of_range :
  (after [0x1F;0xFF] 1 = Ok m_jumped_to_end
   ∧ wf m_jumped_to_end = true ∧ pc (st m_jumped_to_end) = 0xFFF
   ∧ step no_keys 0 m_jumped_to_end = Fault (MemRange 4096))
  ∧ (after [0xAF;0xFF; 0xD0;0x02] 1 = Ok m_index_at_end
     ∧ wf m_index_at_end = true ∧ fetch (st m_index_at_end) = Ok 0xD002
     ∧ step no_keys 0 m_index_at_end = Fault (MemRange 4096))
  ∧ (after [0xAF;0xFF; 0xF1;0x55] 1 = Ok m_store_at_end
     ∧ wf m_store_at_end = true ∧ fetch (st m_store_at_end) = Ok 0xF155
     ∧ step no_keys 0 m_store_at_end = Fault (MemRange 4096))
  ∧ (after [0xAF;0xFF; 0x60;0xFF; 0xF0;0x1E; 0xF0;0x33] 3 = Ok m_index_past_end
     ∧ wf m_index_past_end = true ∧ fetch (st m_index_past_end) = Ok 0xF033
     ∧ I (st m_index_past_end) = 0x10FE
     ∧ step no_keys 0 m_index_past_end = Fault (MemRange 4350)).
Proof. split_and!; vm_compute; reflexivity. Qed.

(** ** What the executor preserves *)

Lemma good_bind {A B : Type} (Q : A → Prop) (P : B → Prop) (r : res A) (k : A → res B) :
  good Q r → (∀ a, Q a → good P (k a)) → good P (r ≫= k).
Proof. destruct r as [a|f]; cbn; [intros Ha Hk; by apply Hk | by intros]. Qed.

Lemma good_Ok {A : Type} (P : A → Prop) (a : A) : P a → good P (Ok a).
Proof. done. Qed.

Lemma good_mono {A : Type} (P Q : A → Prop) (r : res A) :
  (∀ a, P a → Q a) → good P r → good Q r.
Proof. destruct r; cbn; auto. Qed.

Lemma good_for {T : Type} (Inv : T → Prop) (body : Z → T → res T) (hi : Z) (cnt : nat) :
  ∀ (i : Z) (t : T),
  (∀ j t', 0 ≤ j < hi → Inv t' → good Inv (body j t')) →
  0 ≤ i → i + Z.of_nat cnt ≤ hi → Inv t → good Inv (for_ cnt i body t).
Proof.
  induction cnt as [|cnt IH]; intros i t Hbody Hi Hhi Ht; cbn [for_].
  - done.
  - eapply good_bind; [apply Hbody; [lia | done] |].
    intros t' Ht'. apply IH; done || lia.
Qed.

Lemma rd_v_good (s : State) (i : Z) :
  wf_State_facts s → 0 ≤ i < 16 → good (λ b, 0 ≤ b < 256) (rd_v s i).
Proof.
  intros Hs Hi. destruct (at_in_range RegRange (v s) i) as (b & Hrd & Hb).
  { rewrite (wf_v_len _ Hs). lia. }
  unfold rd_v. rewrite Hrd. cbn. apply byteb_spec.
  eapply forallb_lookup; [apply (wf_v _ Hs) | done].
Qed.

Lemma rd_mem_good (s : State) (i : Z) :
  wf_State_facts s → 0 ≤ i → good (λ b, 0 ≤ b < 256) (rd_mem s i).
Proof.
  intros Hs Hi. unfold rd_mem. destruct (at_ MemRange (mem s) i) as [b|f] eqn:E; cbn.
  - apply at_Ok_inv in E as [_ E]. apply byteb_spec.
    eapply forallb_lookup; [apply (wf_mem _ Hs) | done].
  - apply at_Fault_inv in E as [-> E]. exists i. split; [done|].
    rewrite (wf_mem_len _ Hs) in E. unfold kMemSize. lia.
Qed.

Lemma wr_v_good (s : State) (i b : Z) :
  wf_State_facts s → 0 ≤ i < 16 → 0 ≤ b < 256 → good wf_State_facts (wr_v s i b).
Proof.
  intros Hs Hi Hb. rewrite wr_v_Ok by (rewrite (wf_v_len _ Hs); lia). cbn.
  destruct Hs. split; cbn [mem v I pc stack sp DT ST set_v]; try done.
  - by rewrite length_insert.
  - apply forallb_insert; [done | by apply byteb_spec].
Qed.

Lemma wr_mem_good (s : State) (i b : Z) :
  wf_State_facts s → 0 ≤ i → 0 ≤ b < 256 → good wf_State_facts (wr_mem s i b).
Proof.
  intros Hs Hi Hb. unfold wr_mem.
  destruct (put MemRange (mem s) i b) as [a|f] eqn:E; cbn.
  - apply put_Ok_inv in E as [_ ->].
    destruct Hs. split; cbn [mem v I pc stack sp DT ST set_mem]; try done.
    + by rewrite length_insert.
    + apply forallb_insert; [done | by apply byteb_spec].
  - apply put_Fault_inv in E as [-> E]. exists i. split; [done|].
    rewrite (wf_mem_len _ Hs) in E. unfold kMemSize. lia.
Qed.

Lemma wf_set_pc (s : State) (z : Z) :
  wf_State_facts s → 0 ≤ z < 65536 → wf_State_facts (set_pc s z).
Proof. intros [] Hz. by split. Qed.

Lemma wf_skip (s : State) : wf_State_facts s → wf_State_facts (skip s).
Proof.
  intros Hs. apply wf_set_pc; [done|]. unfold u16. apply Z.mod_pos_bound. lia.
Qed.

Lemma wf_set_I (s : State) (z : Z) :
  wf_State_facts s → 0 ≤ z < 65536 → wf_State_facts (set_I s z).
Proof. intros [] Hz. by split. Qed.

Lemma wf_set_DT (s : State) (z : Z) :
  wf_State_facts s → 0 ≤ z < 256 → wf_State_facts (set_DT s z).
Proof. intros [] Hz. by split. Qed.

Lemma wf_set_ST (s : State) (z : Z) :
  wf_State_facts s → 0 ≤ z < 256 → wf_State_facts (set_ST s z).
Proof. intros [] Hz. by split. Qed.

Lemma u8_range (z : Z) : 0 ≤ u8 z < 256.
Proof. unfold u8. apply Z.mod_pos_bound. lia. Qed.

Lemma u16_range (z : Z) : 0 ≤ u16 z < 65536.
Proof. unfold u16. apply Z.mod_pos_bound. lia. Qed.

Lemma b2z_range (b : bool) : 0 ≤ b2z b < 256.
Proof. destruct b; cbn; lia. Qed.

Lemma byte_high_bits (a i : Z) : 0 ≤ a < 256 → 8 ≤ i → Z.testbit a i = false.
Proof.
  intros Ha Hi. rewrite <- (Z.mod_small a (2 ^ 8)) by (change (2 ^ 8) with 256; lia).
  apply Z.mod_pow2_bits_high. lia.
Qed.

Lemma byte_of_bits (z : Z) : (∀ i, 8 ≤ i → Z.testbit z i = false) → 0 ≤ z < 256.
Proof.
  intros Hhi. assert (Hz : z mod 2 ^ 8 = z).
  { apply Z.bits_inj'. intros i Hi. rewrite Z.testbit_mod_pow2 by lia.
    destruct (Z.ltb_spec i 8); [done|]. by rewrite Hhi by lia. }
  rewrite <- Hz. apply Z.mod_pos_bound. lia.
Qed.

Lemma land_byte (a b : Z) : 0 ≤ a < 256 → 0 ≤ Z.land a b < 256.
Proof.
  intros Ha. apply byte_of_bits. intros i Hi.
  by rewrite Z.land_spec, byte_high_bits.
Qed.

Lemma lor_byte (a b : Z) : 0 ≤ a < 256 → 0 ≤ b < 256 → 0 ≤ Z.lor a b < 256.
Proof.
  intros Ha Hb. apply byte_of_bits. intros i Hi.
  by rewrite Z.lor_spec, !byte_high_bits.
Qed.

Lemma lxor_byte (a b : Z) : 0 ≤ a < 256 → 0 ≤ b < 256 → 0 ≤ Z.lxor a b < 256.
Proof.
  intros Ha Hb. apply byte_of_bits. intros i Hi.
  by rewrite Z.lxor_spec, !byte_high_bits.
Qed.

Lemma shiftr_byte (a n : Z) : 0 ≤ a < 256 → 0 ≤ n → 0 ≤ Z.shiftr a n < 256.
Proof.
  intros Ha Hn. rewrite Z.shiftr_div_pow2 by done.
  assert (0 < 2 ^ n) by (apply Z.pow_pos_nonneg; lia).
  split; [apply Z.div_pos; lia|].
  apply Z.div_lt_upper_bound; [lia|]. nia.
Qed.

Ltac good_step :=
  lazymatch goal with
  | |- good _ (Ok _) => apply good_Ok
  | |- good _ (if ?b then _ else _) => destruct b eqn:?
  | |- good _ (rd_v _ _ ≫= _) =>
      eapply good_bind; [apply rd_v_good; [eassumption | lia] | cbv beta; intros ? ?]
  | |- good _ (rd_mem _ _ ≫= _) =>
      eapply good_bind; [apply rd_mem_good; [eassumption | lia] | cbv beta; intros ? ?]
  | |- good _ (wr_v _ _ _ ≫= _) =>
      eapply good_bind; [apply wr_v_good; [eassumption | lia |] | cbv beta; intros ? ?]
  | |- good _ (wr_mem _ _ _ ≫= _) =>
      eapply good_bind; [apply wr_mem_good; [eassumption | lia |] | cbv beta; intros ? ?]
  | |- good _ (wr_v _ _ _) => apply wr_v_good; [eassumption | lia |]
  | |- good _ (wr_mem _ _ _) => apply wr_mem_good; [eassumption | lia |]
  end.

Ltac byte_goal :=
  first [ assumption | apply u8_range | apply b2z_range | apply op_nn_range
        | apply land_byte; byte_goal
        | apply lor_byte; byte_goal
        | apply lxor_byte; byte_goal
        | apply shiftr_byte; [byte_goal | lia]
        | lia ].

Lemma exec_alu_good (s : State) (op : Z) :
  wf_State_facts s → good wf_State_facts (exec_alu s op).
Proof.
  intros Hs. pose proof (op_x_range op). pose proof (op_y_range op).
  unfold exec_alu. cbv zeta.
  repeat (good_step; try byte_goal); done.
Qed.

Lemma exec_call_good (s : State) (op : Z) :
  wf_State_facts s → good wf_State_facts (exec_call s op).
Proof.
  intros Hs. unfold exec_call. destruct (Z.ltb_spec (sp s) kStackDepth) as [Hsp|Hsp]; [|done].
  unfold kStackDepth in Hsp. pose proof (wf_sp _ Hs) as Hsp0.
  rewrite put_Ok by (rewrite (wf_stack_len _ Hs); lia). cbn.
  pose proof (op_nnn_range op). pose proof (wf_pc _ Hs).
  assert (Hu : u8 (sp s + 1) = sp s + 1) by (unfold u8; apply Z.mod_small; lia).
  destruct Hs.
  split; cbn [mem v I pc stack sp DT ST set_pc set_sp set_stack];
    rewrite ?length_insert, ?Hu; try done; try lia.
  apply forallb_insert; [done | by apply wordb_spec].
Qed.

Lemma exec_key_good (k : Keypad) (s : State) (op : Z) :
  wf_State_facts s → good wf_State_facts (exec_key k s op).
Proof.
  intros Hs. pose proof (op_x_range op). pose proof (wf_skip _ Hs).
  unfold exec_key. repeat (good_step; try byte_goal);
    repeat match goal with |- context [if ?b then _ else _] => destruct b end; done.
Qed.

Lemma store_reg_good (base i : Z) (s : State) :
  0 ≤ base → 0 ≤ i < 16 → wf_State_facts s → good wf_State_facts (store_reg base i s).
Proof. intros Hb Hi Hs. unfold store_reg. repeat (good_step; try byte_goal). Qed.

Lemma load_reg_good (base i : Z) (s : State) :
  0 ≤ base → 0 ≤ i < 16 → wf_State_facts s → good wf_State_facts (load_reg base i s).
Proof. intros Hb Hi Hs. unfold load_reg. repeat (good_step; try byte_goal). Qed.

Lemma forallb_of_lookup (f : Z → bool) (a : list Z) :
  (∀ (i : nat) (b : Z), a !! i = Some b → f b = true) → forallb f a = true.
Proof.
  intros H. apply forallb_forall. intros b Hb.
  apply list_elem_of_In, list_elem_of_lookup in Hb as [i Hi]. by eapply H.
Qed.

Lemma forallb_replicate (f : Z → bool) (n : nat) (b : Z) :
  f b = true → forallb f (replicate n b) = true.
Proof. intros Hb. induction n as [|n IH]; cbn; [done | by rewrite Hb, IH]. Qed.

Lemma kept_refl (m : Chip8VM) : wf_facts m → kept m m.
Proof. intros H. by left. Qed.

Lemma kept_trans (m m1 m2 : Chip8VM) : kept m m1 → kept m1 m2 → kept m m2.
Proof.
  intros [[_ H1]|[_ H1]] [[W2 H2]|[W2 H2]]; try (by right).
  - left. split; [done | congruence].
  - right. split; [done | congruence].
Qed.

Lemma kept_set_st (m : Chip8VM) (s : State) :
  wf_facts m → wf_State_facts s → kept m (set_st m s).
Proof. intros [] Hs. left. by split. Qed.

Lemma toggled_kept (T : nat → bool) (m m' : Chip8VM) :
  wf_facts m → toggled T m m' → kept m m'.
Proof.
  intros [Hs Hpl Hpix Hwr] [Hfr Hlp Hlv Htp Hregs _ Hcases].
  destruct m' as [s' f' wk' wr']. cbn [st fb waitKey waitReg] in *.
  injection Hfr as Hs' Hf' -> ->.
  left. split; [|done]. split; cbn [st fb waitKey waitReg]; try done.
  - rewrite Hs'. destruct Hs. split; cbn [mem v I pc stack sp DT ST set_v]; try done.
    + by rewrite Hlv.
    + apply forallb_of_lookup. intros i b Hb.
      destruct (decide (i = 15%nat)) as [->|Hne].
      * destruct Hcases as [Hsame | [Hone _]].
        -- rewrite Hsame in Hb. by eapply forallb_lookup.
        -- rewrite Hone in Hb. by injection Hb as <-.
      * rewrite Hregs in Hb by done. by eapply forallb_lookup.
  - by rewrite Hlp.
  - apply forallb_of_lookup. intros j b Hb. rewrite Htp in Hb.
    destruct (T j); [|by eapply forallb_lookup].
    destruct (pix (fb m) !! j) as [p|] eqn:Hp; [|done].
    injection Hb as <-.
    assert (Hbit : bitb p = true) by (by eapply forallb_lookup).
    apply bitb_spec in Hbit as [-> | ->]; done.
Qed.

Lemma wf_facts_lengths (m : Chip8VM) :
  wf_facts m → length (pix (fb m)) = 2048%nat ∧ length (v (st m)) = 16%nat.
Proof. intros [[] ? ? ?]. lia. Qed.

Lemma draw_row_good (px py row : Z) (m0 m : Chip8VM) :
  0 ≤ row < 16 → kept m0 m → wf_facts m → good (λ m', kept m0 m' ∧ wf_facts m')
                                                  (draw_row px py row m).
Proof.
  intros Hrow Hk Hwf. unfold draw_row.
  pose proof (wf_I _ (wf_st _ Hwf)).
  eapply good_bind; [apply rd_mem_good; [apply Hwf | lia] |].
  intros sprite _. cbn beta.
  destruct (wf_facts_lengths _ Hwf) as [Hlp Hlv].
  destruct (draw_cols_toggled sprite px py row 8 0 m) as (m' & -> & Htg); [done || lia ..|].
  cbn. pose proof (toggled_kept _ _ _ Hwf Htg) as Hk'.
  split; [by eapply kept_trans | by destruct Hk' as [[? _]|[? _]]].
Qed.

Lemma exec_draw_good (m : Chip8VM) (op : Z) :
  wf_facts m → good (kept m) (exec_draw m op).
Proof.
  intros Hwf. pose proof (op_x_range op). pose proof (op_y_range op).
  pose proof (op_n_range op). pose proof (wf_st _ Hwf) as Hs.
  unfold exec_draw. cbv zeta.
  repeat (good_step; try byte_goal).
  match goal with H : wf_State_facts ?s |- good _ (for_ _ _ _ (set_st m ?s)) =>
    assert (Hwf1 : wf_facts (set_st m s)) by (destruct Hwf; by split) end.
  eapply good_mono; [|eapply (good_for (λ m', kept m m' ∧ wf_facts m') _ 16)].
  - by intros m' [? _].
  - intros j m' Hj [Hk' Hwf']. by apply draw_row_good.
  - lia.
  - lia.
  - split; [|done]. left. split; [done|]. done.
Qed.

Lemma exec_misc_good (m : Chip8VM) (op : Z) :
  wf_facts m → good (λ m', kept m m' ∧ fb m' = fb m) (exec_misc m op).
Proof.
  intros Hwf. pose proof (op_x_range op). pose proof (wf_st _ Hwf) as Hs.
  pose proof (wf_I _ Hs). pose proof (wf_DT _ Hs).
  unfold exec_misc. cbv zeta.
  repeat match goal with
         | |- good _ (if ?b then _ else _) => destruct b eqn:?
         end.
  - repeat (good_step; try byte_goal). split; [by apply kept_set_st | done].
  - cbn. split; [|done]. right. split; [|done]. destruct Hwf. by split.
  - repeat (good_step; try byte_goal).
    split; [apply kept_set_st; [done | by apply wf_set_DT] | done].
  - repeat (good_step; try byte_goal).
    split; [apply kept_set_st; [done | by apply wf_set_ST] | done].
  - repeat (good_step; try byte_goal).
    split; [apply kept_set_st; [done | apply wf_set_I; [done | apply u16_range]] | done].
  - repeat (good_step; try byte_goal).
    split; [apply kept_set_st; [done | apply wf_set_I; [done | apply u16_range]] | done].
  - eapply good_bind; [apply rd_v_good; [done | lia] |]. intros vx Hvx. cbn beta in *.
    assert (0 ≤ vx / 100 < 256) by (Z.div_mod_to_equations; lia).
    assert (0 ≤ (vx / 10) mod 10 < 256) by (Z.div_mod_to_equations; lia).
    assert (0 ≤ vx mod 10 < 256) by (Z.div_mod_to_equations; lia).
    eapply good_bind; [apply wr_mem_good; [done | lia | done] |]. intros s1 Hs1. cbn beta.
    pose proof (wf_I _ Hs1).
    eapply good_bind; [apply wr_mem_good; [done | lia | done] |]. intros s2 Hs2. cbn beta.
    pose proof (wf_I _ Hs2).
    eapply good_bind; [apply wr_mem_good; [done | lia | done] |]. intros s3 Hs3. cbn beta.
    cbn. split; [by apply kept_set_st | done].
  - eapply good_bind.
    + apply (good_for wf_State_facts _ 16); [|lia|lia|done].
      intros j s' Hj Hs'. apply store_reg_good; done || lia.
    + intros s' Hs'. cbn. split; [by apply kept_set_st | done].
  - eapply good_bind.
    + apply (good_for wf_State_facts _ 16); [|lia|lia|done].
      intros j s' Hj Hs'. apply load_reg_good; done || lia.
    + intros s' Hs'. cbn. split; [by apply kept_set_st | done].
  - cbn. split; [by apply kept_refl | done].
Qed.

Lemma exec_sys_good (m : Chip8VM) (op : Z) :
  wf_facts m →
  good (λ r, kept m (fst r) ∧ (snd r = false → fb (fst r) = fb m)) (exec_sys m op).
Proof.
  intros Hwf. pose proof (wf_st _ Hwf) as Hs. unfold exec_sys. cbv zeta.
  destruct (op_nn op =? 224).
  { cbn. split; [|done]. left. split; [|done].
    destruct Hwf as [? Hpl ? ?]. split; cbn [st fb waitReg set_fb FB.clear pix]; try done.
    - by rewrite length_replicate.
    - by apply forallb_replicate. }
  destruct (op_nn op =? 238); [|cbn; split; [by apply kept_refl | done]].
  destruct (Z.eqb_spec (sp (st m)) 0) as [Hsp|Hsp]; [cbn; split; [by apply kept_refl | done]|].
  pose proof (wf_sp _ Hs) as Hsp0.
  assert (Hu : u8 (sp (st m) - 1) = sp (st m) - 1) by (unfold u8; apply Z.mod_small; lia).
  cbn [sp stack set_sp]. rewrite Hu.
  destruct (at_in_range StackRange (stack (st m)) (sp (st m) - 1)) as (a & -> & Ha).
  { rewrite (wf_stack_len _ Hs). lia. }
  cbn. split; [|done]. apply kept_set_st; [done|].
  apply wf_set_pc.
  - destruct Hs. split; cbn [mem v I pc stack sp DT ST set_sp]; done || lia.
  - apply wordb_spec. eapply forallb_lookup; [apply (wf_stack _ Hs) | done].
Qed.

Lemma on_st_good (m : Chip8VM) (r : res State) :
  wf_facts m → good wf_State_facts r →
  good (λ r', kept m (fst r') ∧ (snd r' = false → fb (fst r') = fb m))
       (s' ← r; Ok (set_st m s', false)).
Proof.
  intros Hwf Hr. eapply good_bind; [exact Hr|].
  intros s' Hs'. cbn. split; [by apply kept_set_st | done].
Qed.

Lemma exec_good (k : Keypad) (rnd : Z) (m : Chip8VM) (op : Z) :
  wf_facts m →
  good (λ r, kept m (fst r) ∧ (snd r = false → fb (fst r) = fb m)) (exec k rnd m op).
Proof.
  intros Hwf. pose proof (wf_st _ Hwf) as Hs. pose proof (wf_skip _ Hs) as Hskip.
  pose proof (op_x_range op). pose proof (op_y_range op).
  pose proof (op_nnn_range op). pose proof (op_nn_range op).
  assert (Hkeep : kept m m ∧ (false = false → fb m = fb m)) by (split; [by apply kept_refl | done]).
  unfold exec. cbv zeta.
  repeat match goal with
         | |- good _ (if ?b then _ else _) => destruct b eqn:?
         end;
    try exact Hkeep;
    try (apply on_st_good; [done|]).
  - by apply exec_sys_good.
  - cbn. apply wf_set_pc; [done | lia].
  - by apply exec_call_good.
  - repeat (good_step; try byte_goal);
      repeat match goal with |- context [if ?b then _ else _] => destruct b end; done.
  - repeat (good_step; try byte_goal);
      repeat match goal with |- context [if ?b then _ else _] => destruct b end; done.
  - repeat (good_step; try byte_goal);
      repeat match goal with |- context [if ?b then _ else _] => destruct b end; done.
  - repeat (good_step; try byte_goal).
  - repeat (good_step; try byte_goal).
  - by apply exec_alu_good.
  - repeat (good_step; try byte_goal);
      repeat match goal with |- context [if ?b then _ else _] => destruct b end; done.
  - cbn. apply wf_set_I; [done | lia].
  - repeat (good_step; try byte_goal). apply wf_set_pc; [done | apply u16_range].
  - repeat (good_step; try byte_goal).
  - eapply good_bind; [by apply exec_draw_good|]. intros m' Hm'. by cbn.
  - by apply exec_key_good.
  - eapply good_bind; [by apply exec_misc_good|]. intros m' [Hk Hfb]. cbn. by split.
Qed.

Lemma fetch_good (s : State) :
  wf_State_facts s → good (λ op, True) (fetch s).
Proof.
  intros Hs. pose proof (wf_pc _ Hs). unfold fetch.
  repeat (good_step; try byte_goal).
Qed.

Lemma step_good (k : Keypad) (rnd : Z) (m : Chip8VM) :
  wf m = true →
  good (λ r, kept m (fst r) ∧ (snd r = false → fb (fst r) = fb m)) (step k rnd m).
Proof.
  intros Hwf. apply wf_spec in Hwf. pose proof (wf_st _ Hwf) as Hs.
  unfold step. eapply good_bind; [by apply fetch_good|]. intros op _.
  assert (Hwf1 : wf_facts (set_st m (skip (st m)))).
  { destruct Hwf. split; try done. by apply wf_skip. }
  eapply good_mono; [|by apply exec_good].
  intros [m' d] [Hk Hfb]. cbn [fst snd] in *. split; [|done].
  destruct Hk as [[? Hw]|[? Hw]]; [left | right]; done.
Qed.

(** X1: the executor keeps a well-formed machine well formed: the stack
    pointer stays within 0..16, every pixel stays 0 or 1, registers and
    memory stay bytes, and the array sizes do not change. *)
Theorem step_preserves_wf (k : Keypad) (rnd : Z) (m m' : Chip8VM) (d : bool) :
  wf m = true → step k rnd m = Ok (m', d) → wf m' = true.
Proof.
  intros Hwf Hstep. pose proof (step_good k rnd m Hwf) as Hg.
  rewrite Hstep in Hg. cbn in Hg. apply wf_spec.
  by destruct Hg as [[[? _]|[? _]] _].
Qed.

(** X2: on a well-formed machine the executor can only stop at a memory
    access at or above index 4096; the register, stack and pixel indices it
    computes are always in range. *)
Theorem step_faults_only_past_memory (k : Keypad) (rnd : Z) (m : Chip8VM) (f : fault) :
  wf m = true → step k rnd m = Fault f → ∃ i, f = MemRange i ∧ kMemSize ≤ i.
Proof.
  intros Hwf Hstep. pose proof (step_good k rnd m Hwf) as Hg.
  by rewrite Hstep in Hg.
Qed.

(** X3: on a well-formed machine that waits for a key, an instruction
    either accesses memory at or above index 4096 or leaves the machine
    waiting: no instruction whose accesses are in range ends the wait. *)
Theorem step_never_clears_waitKey (k : Keypad) (rnd : Z) (m : Chip8VM) :
  wf m = true → waitKey m = true →
  match step k rnd m with
  | Ok (m', _) => waitKey m' = true
  | Fault f => ∃ i, f = MemRange i ∧ kMemSize ≤ i
  end.
Proof.
  intros Hwf Hwait. pose proof (step_good k rnd m Hwf) as Hg.
  destruct (step k rnd m) as [[m' d]|f]; [|exact Hg].
  cbn in Hg. destruct Hg as [[[_ Hw]|[_ Hw]] _]; congruence.
Qed.

(** X4: on a well-formed machine an instruction either accesses memory at
    or above index 4096, or reports a redraw, or leaves the framebuffer
    unchanged: an instruction whose accesses are in range and that reports
    no redraw has not changed the framebuffer. *)
Theorem step_without_redraw_keeps_fb (k : Keypad) (rnd : Z) (m : Chip8VM) :
  wf m = true →
  match step k rnd m with
  | Ok (m', draw) => draw = false → fb m' = fb m
  | Fault f => ∃ i, f = MemRange i ∧ kMemSize ≤ i
  end.
Proof.
  intros Hwf. pose proof (step_good k rnd m Hwf) as Hg.
  destruct (step k rnd m) as [[m' d]|f]; [|exact Hg].
  cbn in Hg. by apply Hg.
Qed.

Lemma step_preserves_wf_witness :
  wf m_add = true ∧ step no_keys 0 m_add = Ok (m_add_next, false) ∧ wf m_add_next = true.
Proof.
  split_and!; [vm_compute; reflexivity .. |].
  apply (step_preserves_wf no_keys 0 m_add m_add_next false); vm_compute; reflexivity.
Defined.

Lemma step_faults_only_past_memory_witness :
  wf m_jumped_to_end = true
  ∧ step no_keys 0 m_jumped_to_end = Fault (MemRange 4096)
  ∧ ∃ i, MemRange 4096 = MemRange i ∧ kMemSize ≤ i.
Proof.
  split_and!; [vm_compute; reflexivity .. |].
  apply (step_faults_only_past_memory no_keys 0 m_jumped_to_end); vm_compute; reflexivity.
Defined.

Lemma step_never_clears_waitKey_witness :
  wf m_waiting = true ∧ waitKey m_waiting = true
  ∧ step no_keys 0 m_waiting = Ok (m_still_waiting, false)
  ∧ waitKey m_still_waiting = true.
Proof.
  assert (Hstep : step no_keys 0 m_waiting = Ok (m_still_waiting, false))
    by (vm_compute; reflexivity).
  split_and!; [vm_compute; reflexivity .. |].
  pose proof (step_never_clears_waitKey no_keys 0 m_waiting) as H.
  rewrite Hstep in H. apply H; vm_compute; reflexivity.
Defined.

Lemma step_without_redraw_keeps_fb_witness :
  wf m_add = true ∧ step no_keys 0 m_add = Ok (m_add_next, false)
  ∧ fb m_add_next = fb m_add.
Proof.
  assert (Hstep : step no_keys 0 m_add = Ok (m_add_next, false))
    by (vm_compute; reflexivity).
  split_and!; [vm_compute; reflexivity .. |].
  pose proof (step_without_redraw_keeps_fb no_keys 0 m_add) as H.
  rewrite Hstep in H. apply H; [vm_compute; reflexivity | reflexivity].
Defined.

(** ** Key delivery *)

(** X5: a key delivered to a waiting machine is written to the awaited
    register, the other registers and members are unchanged, and the wait
    ends, so a second delivery changes nothing; a key delivered to a machine
    that is not waiting changes nothing. *)
Theorem feedKey_delivers_once (m : Chip8VM) (key key' : Z) :
  wf m = true →
  (waitKey m = false → feedKey m key = Ok m)
  ∧ (waitKey m = true →
     ∃ m', feedKey m key = Ok m'
       ∧ reg m' (waitReg m) = Some key
       ∧ (∀ i, 0 ≤ i → i ≠ waitReg m → reg m' i = reg m i)
       ∧ waitKey m' = false
       ∧ m' = mkVM (set_v (st m) (v (st m'))) (fb m) false (waitReg m)
       ∧ feedKey m' key' = Ok m').
Proof.
  intros Hwf. apply wf_spec in Hwf as [Hs _ _ Hwr]. pose proof (wf_v_len _ Hs) as Hlen.
  unfold feedKey. split; intros ->; [done|].
  rewrite wr_v_Ok, bind_Ok by lia.
  eexists. split; [reflexivity|]. unfold reg. cbn [st v set_v waitKey waitReg fb].
  split_and!; try done.
  - apply list_lookup_insert_eq. lia.
  - intros i Hi Hne. apply list_lookup_insert_ne. lia.
Qed.

Lemma feedKey_delivers_once_witness :
  wf m_waiting = true
  ∧ waitKey m_waiting = true
  ∧ ∃ m', feedKey m_waiting 0xA = Ok m'
      ∧ reg m' (waitReg m_waiting) = Some 0xA
      ∧ (∀ i, 0 ≤ i → i ≠ waitReg m_waiting → reg m' i = reg m_waiting i)
      ∧ waitKey m' = false
      ∧ m' = mkVM (set_v (st m_waiting) (v (st m'))) (fb m_waiting) false (waitReg m_waiting)
      ∧ feedKey m' 0x3 = Ok m'.
Proof.
  split_and!; [vm_compute; reflexivity .. |].
  apply (feedKey_delivers_once m_waiting 0xA 0x3); vm_compute; reflexivity.
Defined.

Lemma exec_misc_wait (m : Chip8VM) (op : Z) :
  op_nn op = 0x0A → exec_misc m op = Ok (mkVM (st m) (fb m) true (op_x op)).
Proof. intros H. unfold exec_misc. by rewrite H. Qed.

(** X6: FX0A changes no register and no memory; it advances the program
    counter and records register x as awaited.  A key delivered next is
    written to register x and ends the wait. *)
Theorem wait_then_key_sets_Vx (k : Keypad) (rnd : Z) (m : Chip8VM) (op key : Z) :
  wf m = true →
  fetch (st m) = Ok op → op_fam op = 0xF000 → op_nn op = 0x0A →
  ∃ m1 m2, step k rnd m = Ok (m1, false)
    ∧ m1 = mkVM (set_pc (st m) (u16 (pc (st m) + 2))) (fb m) true (op_x op)
    ∧ feedKey m1 key = Ok m2
    ∧ reg m2 (op_x op) = Some key
    ∧ (∀ i, 0 ≤ i → i ≠ op_x op → reg m2 i = reg m i)
    ∧ waitKey m2 = false.
Proof.
  intros Hwf Hf Hfam Hnn. apply wf_spec in Hwf as [Hs _ _ _].
  pose proof (wf_v_len _ Hs) as Hlen. pose proof (op_x_range op).
  rewrite (step_fetch _ _ _ _ Hf), exec_misc_eq, exec_misc_wait by done.
  cbn [st fb set_st]. rewrite bind_Ok.
  eexists _, _. split; [reflexivity|]. split; [reflexivity|].
  unfold feedKey. cbn [waitKey waitReg st fb].
  rewrite wr_v_Ok, bind_Ok by (cbn [v skip set_pc]; lia).
  split; [reflexivity|]. unfold reg.
  cbn [st v set_v waitKey skip set_pc]. split_and!; try done.
  - apply list_lookup_insert_eq. lia.
  - intros i Hi Hne. apply list_lookup_insert_ne. lia.
Qed.

Lemma wait_then_key_sets_Vx_witness :
  wf m_before_wait = true ∧ fetch (st m_before_wait) = Ok 0xF10A
  ∧ ∃ m1 m2, step no_keys 0 m_before_wait = Ok (m1, false)
      ∧ m1 = mkVM (set_pc (st m_before_wait) (u16 (pc (st m_before_wait) + 2)))
                  (fb m_before_wait) true (op_x 0xF10A)
      ∧ feedKey m1 0xB = Ok m2
      ∧ reg m2 (op_x 0xF10A) = Some 0xB
      ∧ (∀ i, 0 ≤ i → i ≠ op_x 0xF10A → reg m2 i = reg m_before_wait i)
      ∧ waitKey m2 = false.
Proof.
  split_and!; [vm_compute; reflexivity .. |].
  apply (wait_then_key_sets_Vx no_keys 0 m_before_wait 0xF10A 0xB); vm_compute; reflexivity.
Defined.

(** ** Clear screen, decimal digits, call and return, shifts *)

(** X7: 00E0 (any opcode of family 0 whose low byte is E0) sets every
    pixel to 0, reports a redraw and changes nothing else but the program
    counter. *)
Theorem clear_screen_zeroes_every_pixel (k : Keypad) (rnd : Z) (m : Chip8VM) (op : Z) :
  wf m = true →
  fetch (st m) = Ok op → op_fam op = 0x0000 → op_nn op = 0xE0 →
  ∃ m', step k rnd m = Ok (m', true)
    ∧ (∀ x y, 0 ≤ x < 64 → 0 ≤ y < 32 → pixel m' x y = Some 0)
    ∧ st m' = set_pc (st m) (u16 (pc (st m) + 2))
    ∧ waitKey m' = waitKey m ∧ waitReg m' = waitReg m.
Proof.
  intros Hwf Hf Hfam Hnn. apply wf_spec in Hwf as [_ Hpl _ _].
  rewrite (step_fetch _ _ _ _ Hf), exec_sys_eq by done.
  unfold exec_sys. rewrite Hnn. cbn [Z.eqb Pos.eqb].
  eexists. split; [reflexivity|]. split_and!; try done.
  intros x y Hx Hy. unfold pixel, FB.at_index, kDisplayWidth.
  cbn [fb set_fb set_st FB.clear pix]. apply lookup_replicate_2. lia.
Qed.

Lemma clear_screen_zeroes_every_pixel_witness :
  wf m_cls = true ∧ fetch (st m_cls) = Ok 0x00E0 ∧ pixel m_cls 0 0 = Some 1
  ∧ ∃ m', step no_keys 0 m_cls = Ok (m', true)
      ∧ (∀ x y, 0 ≤ x < 64 → 0 ≤ y < 32 → pixel m' x y = Some 0)
      ∧ st m' = set_pc (st m_cls) (u16 (pc (st m_cls) + 2))
      ∧ waitKey m' = waitKey m_cls ∧ waitReg m' = waitReg m_cls.
Proof.
  split_and!; [vm_compute; reflexivity .. |].
  apply (clear_screen_zeroes_every_pixel no_keys 0 m_cls 0x00E0); vm_compute; reflexivity.
Defined.

Lemma exec_misc_bcd (m : Chip8VM) (op : Z) :
  op_nn op = 0x33 →
  exec_misc m op =
    (vx ← rd_v (st m) (op_x op);
     s ← wr_mem (st m) (I (st m)) (vx / 100);
     s ← wr_mem s (I s + 1) ((vx / 10) mod 10);
     s ← wr_mem s (I s + 2) (vx mod 10);
     Ok (set_st m s)).
Proof. intros H. unfold exec_misc. by rewrite H. Qed.

(** X8: FX33 stores three decimal digits at I, I+1 and I+2, most
    significant first, whose value is Vx; registers, the index register and
    the rest of memory are unchanged.  It needs I + 2 to lie in memory. *)
Theorem bcd_digits_recompose (k : Keypad) (rnd : Z) (m : Chip8VM) (op vx : Z) :
  wf m = true →
  fetch (st m) = Ok op → op_fam op = 0xF000 → op_nn op = 0x33 →
  reg m (op_x op) = Some vx →
  I (st m) + 2 < kMemSize →
  ∃ m' a b c, step k rnd m = Ok (m', false)
    ∧ mem (st m') !! Z.to_nat (I (st m)) = Some a
    ∧ mem (st m') !! Z.to_nat (I (st m) + 1) = Some b
    ∧ mem (st m') !! Z.to_nat (I (st m) + 2) = Some c
    ∧ 0 ≤ a ≤ 9 ∧ 0 ≤ b ≤ 9 ∧ 0 ≤ c ≤ 9
    ∧ 100 * a + 10 * b + c = vx
    ∧ (∀ n, 0 ≤ n → n < I (st m) ∨ I (st m) + 2 < n →
            mem (st m') !! Z.to_nat n = mem (st m) !! Z.to_nat n)
    ∧ v (st m') = v (st m) ∧ I (st m') = I (st m).
Proof.
  intros Hwf Hf Hfam Hnn Hvx HI. unfold kMemSize in HI.
  pose proof (reg_byte _ _ _ Hwf Hvx) as Hb.
  apply wf_spec in Hwf as [Hs _ _ _].
  pose proof (wf_mem_len _ Hs) as Hml. pose proof (wf_I _ Hs) as HI0.
  pose proof (op_x_range op).
  rewrite (step_fetch _ _ _ _ Hf), exec_misc_eq, exec_misc_bcd by done.
  cbn [st set_st].
  rewrite (rd_v_Ok _ (op_x op) vx), bind_Ok by (done || lia).
  rewrite wr_mem_Ok, bind_Ok by (cbn [mem I skip set_pc]; lia).
  rewrite wr_mem_Ok, bind_Ok
    by (cbn [mem I skip set_pc set_mem]; rewrite ?length_insert; lia).
  rewrite wr_mem_Ok, !bind_Ok
    by (cbn [mem I skip set_pc set_mem]; rewrite ?length_insert; lia).
  cbn [mem I v skip set_pc set_mem st set_st].
  eexists _, (vx / 100), ((vx / 10) mod 10), (vx mod 10).
  split; [reflexivity|]. cbn [mem I v skip set_pc set_mem st set_st].
  split_and!; try done; try (Z.div_mod_to_equations; lia).
  - rewrite !list_lookup_insert_ne by lia. apply list_lookup_insert_eq. lia.
  - rewrite list_lookup_insert_ne by lia.
    apply list_lookup_insert_eq. rewrite length_insert. lia.
  - apply list_lookup_insert_eq. rewrite !length_insert. lia.
  - intros n Hn Hrange. by rewrite !list_lookup_insert_ne by lia.
Qed.

Lemma bcd_digits_recompose_witness :
  wf m_bcd = true ∧ fetch (st m_bcd) = Ok 0xF033 ∧ reg m_bcd 0 = Some 234
  ∧ I (st m_bcd) = 0x300
  ∧ ∃ m' a b c, step no_keys 0 m_bcd = Ok (m', false)
    ∧ mem (st m') !! Z.to_nat (I (st m_bcd)) = Some a
    ∧ mem (st m') !! Z.to_nat (I (st m_bcd) + 1) = Some b
    ∧ mem (st m') !! Z.to_nat (I (st m_bcd) + 2) = Some c
    ∧ 0 ≤ a ≤ 9 ∧ 0 ≤ b ≤ 9 ∧ 0 ≤ c ≤ 9
    ∧ 100 * a + 10 * b + c = 234
    ∧ (∀ n, 0 ≤ n → n < I (st m_bcd) ∨ I (st m_bcd) + 2 < n →
            mem (st m') !! Z.to_nat n = mem (st m_bcd) !! Z.to_nat n)
    ∧ v (st m') = v (st m_bcd) ∧ I (st m') = I (st m_bcd).
Proof.
  split_and!; [vm_compute; reflexivity .. |].
  apply (bcd_digits_recompose no_keys 0 m_bcd 0xF033 234); vm_compute; reflexivity.
Defined.

(** X9: a call with room on the stack jumps to nnn and pushes the address
    of the next instruction; a return executed next comes back to that
    address with the stack pointer as before the call.  Registers, memory
    and the stack entries below the stack pointer are as before the call. *)
Theorem call_then_return_comes_back (k : Keypad) (rnd rnd' : Z) (m : Chip8VM) (op : Z) :
  wf m = true →
  fetch (st m) = Ok op → op_fam op = 0x2000 → sp (st m) < kStackDepth →
  ∃ m1, step k rnd m = Ok (m1, false)
    ∧ pc (st m1) = op_nnn op ∧ sp (st m1) = sp (st m) + 1
    ∧ stack (st m1) !! Z.to_nat (sp (st m)) = Some (u16 (pc (st m) + 2))
    ∧ ∀ op2, fetch (st m1) = Ok op2 → op_fam op2 = 0x0000 → op_nn op2 = 0xEE →
        ∃ m2, step k rnd' m1 = Ok (m2, false)
          ∧ pc (st m2) = u16 (pc (st m) + 2)
          ∧ sp (st m2) = sp (st m)
          ∧ (∀ i : nat, (Z.of_nat i < sp (st m)) → stack (st m2) !! i = stack (st m) !! i)
          ∧ v (st m2) = v (st m) ∧ mem (st m2) = mem (st m) ∧ I (st m2) = I (st m)
          ∧ fb m2 = fb m.
Proof.
  intros Hwf Hf Hfam Hsp. unfold kStackDepth in Hsp.
  apply wf_spec in Hwf as [Hs _ _ _].
  pose proof (wf_sp _ Hs) as Hsp0. pose proof (wf_stack_len _ Hs) as Hsl.
  assert (Hu : u8 (sp (st m) + 1) = sp (st m) + 1) by (unfold u8; apply Z.mod_small; lia).
  assert (Hu' : u8 (sp (st m) + 1 - 1) = sp (st m)).
  { unfold u8. rewrite Z.mod_small by lia. lia. }
  rewrite (step_fetch _ _ _ _ Hf), exec_call_eq by done.
  unfold exec_call. cbn [st set_st sp skip set_pc].
  destruct (Z.ltb_spec (sp (st m)) kStackDepth) as [_|Hge]; [|unfold kStackDepth in Hge; lia].
  rewrite put_Ok, !bind_Ok by (cbn [stack skip set_pc]; lia).
  cbn [stack pc sp set_sp set_stack set_pc]. rewrite Hu.
  eexists. split; [reflexivity|].
  split_and!; try done.
  { cbn [st set_st pc sp stack skip set_pc]. apply list_lookup_insert_eq. lia. }
  intros op2 Hf2 Hfam2 Hnn2.
  rewrite (step_fetch _ _ _ _ Hf2), exec_sys_eq by done.
  unfold exec_sys. rewrite Hnn2. cbn [Z.eqb Pos.eqb st set_st sp stack skip set_pc].
  assert (Hne : (sp (st m) + 1 =? 0) = false) by (apply Z.eqb_neq; lia).
  cbn [stack sp set_sp set_stack]. rewrite Hne, Hu'.
  rewrite (at_Ok StackRange _ (sp (st m)) (u16 (pc (st m) + 2))), bind_Ok
    by (lia || (apply list_lookup_insert_eq; lia)).
  eexists. split; [reflexivity|]. cbn [st set_st pc sp stack v mem I fb set_pc set_sp].
  split_and!; try done.
  intros i Hi. apply list_lookup_insert_ne. lia.
Qed.

Lemma call_then_return_comes_back_witness :
  wf m_call = true ∧ fetch (st m_call) = Ok 0x2204 ∧ sp (st m_call) < kStackDepth
  ∧ ∃ m1, step no_keys 0 m_call = Ok (m1, false)
    ∧ pc (st m1) = op_nnn 0x2204 ∧ sp (st m1) = sp (st m_call) + 1
    ∧ stack (st m1) !! Z.to_nat (sp (st m_call)) = Some (u16 (pc (st m_call) + 2))
    ∧ ∀ op2, fetch (st m1) = Ok op2 → op_fam op2 = 0x0000 → op_nn op2 = 0xEE →
        ∃ m2, step no_keys 0 m1 = Ok (m2, false)
          ∧ pc (st m2) = u16 (pc (st m_call) + 2)
          ∧ sp (st m2) = sp (st m_call)
          ∧ (∀ i : nat, (Z.of_nat i < sp (st m_call)) →
                        stack (st m2) !! i = stack (st m_call) !! i)
          ∧ v (st m2) = v (st m_call) ∧ mem (st m2) = mem (st m_call)
          ∧ I (st m2) = I (st m_call)
          ∧ fb m2 = fb m_call.
Proof.
  split_and!; [vm_compute; reflexivity .. |].
  apply (call_then_return_comes_back no_keys 0 0 m_call 0x2204); vm_compute; reflexivity.
Defined.

Lemma exec_alu_shr (s : State) (op : Z) :
  Z.land op 0xF = 0x6 →
  exec_alu s op =
    (vx ← rd_v s (op_x op);
     s' ← wr_v s 0xF (Z.land vx 1);
     vx' ← rd_v s' (op_x op);
     wr_v s' (op_x op) (Z.shiftr vx' 1)).
Proof. intros H. unfold exec_alu. by rewrite H. Qed.

Lemma exec_alu_shl (s : State) (op : Z) :
  Z.land op 0xF = 0xE →
  exec_alu s op =
    (vx ← rd_v s (op_x op);
     s' ← wr_v s 0xF (Z.shiftr (Z.land vx 0x80) 7);
     vx' ← rd_v s' (op_x op);
     wr_v s' (op_x op) (u8 (Z.shiftl vx' 1))).
Proof. intros H. unfold exec_alu. by rewrite H. Qed.

Lemma top_bit_of_byte (a : Z) : 0 ≤ a < 256 → Z.shiftr (Z.land a 0x80) 7 = a / 128.
Proof.
  intros Ha. rewrite Z.shiftr_land. change (Z.shiftr 128 7) with (Z.ones 1).
  rewrite Z.land_ones, Z.shiftr_div_pow2 by lia.
  change (2 ^ 7) with 128. change (2 ^ 1) with 2.
  apply Z.mod_small. Z.div_mod_to_equations. lia.
Qed.

(** X10: the shifts lose no information.  For a destination other than
    register F, 8XY6 leaves Vx / 2 in Vx and the bit shifted out in VF, so
    that 2 * Vx' + VF = Vx; 8XYE leaves the low 8 bits of 2 * Vx in Vx and
    the bit shifted out in VF, so that 256 * VF + Vx' = 2 * Vx.  Register y
    is not read. *)
Theorem shifts_keep_the_bit_shifted_out (k : Keypad) (rnd : Z) (m : Chip8VM) (op vx : Z) :
  wf m = true →
  fetch (st m) = Ok op → op_fam op = 0x8000 →
  reg m (op_x op) = Some vx → op_x op ≠ 0xF →
  (Z.land op 0xF = 0x6 →
   ∃ m' r f, step k rnd m = Ok (m', false)
     ∧ reg m' (op_x op) = Some r ∧ reg m' 0xF = Some f
     ∧ r = vx / 2 ∧ f = vx mod 2 ∧ 2 * r + f = vx)
  ∧ (Z.land op 0xF = 0xE →
     ∃ m' r f, step k rnd m = Ok (m', false)
       ∧ reg m' (op_x op) = Some r ∧ reg m' 0xF = Some f
       ∧ r = (2 * vx) mod 256 ∧ f = vx / 128 ∧ 256 * f + r = 2 * vx).
Proof.
  intros Hwf Hf Hfam Hvx Hx.
  pose proof (wf_v_len _ (wf_State_of _ Hwf)) as Hlen.
  pose proof (reg_byte _ _ _ Hwf Hvx) as Hb.
  pose proof (op_x_range op) as Hxr.
  assert (Hnx : Z.to_nat 0xF ≠ Z.to_nat (op_x op)) by lia.
  split; intros Hk.
  - rewrite (step_fetch _ _ _ _ Hf), exec_alu_eq, exec_alu_shr by done.
    cbn [st set_st].
    rewrite (rd_v_Ok _ (op_x op) vx), bind_Ok by (done || lia).
    rewrite wr_v_Ok, bind_Ok by (cbn [v skip set_pc]; lia).
    rewrite (rd_v_Ok _ (op_x op) vx), bind_Ok
      by (lia || (cbn [v skip set_pc set_v]; by rewrite list_lookup_insert_ne by lia)).
    rewrite wr_v_Ok by (cbn [v skip set_pc set_v]; rewrite length_insert; lia).
    eexists _, (vx / 2), (vx mod 2). split; [reflexivity|].
    unfold reg. cbn [st set_st v set_v skip set_pc].
    split_and!; try done; try (Z.div_mod_to_equations; lia).
    + rewrite list_lookup_insert_eq by (rewrite length_insert; lia).
      by rewrite Z.shiftr_div_pow2 by lia.
    + rewrite list_lookup_insert_ne by lia. rewrite list_lookup_insert_eq by lia.
      change 1 with (Z.ones 1) at 1. by rewrite Z.land_ones by lia.
  - rewrite (step_fetch _ _ _ _ Hf), exec_alu_eq, exec_alu_shl by done.
    cbn [st set_st].
    rewrite (rd_v_Ok _ (op_x op) vx), bind_Ok by (done || lia).
    rewrite wr_v_Ok, bind_Ok by (cbn [v skip set_pc]; lia).
    rewrite (rd_v_Ok _ (op_x op) vx), bind_Ok
      by (lia || (cbn [v skip set_pc set_v]; by rewrite list_lookup_insert_ne by lia)).
    rewrite wr_v_Ok by (cbn [v skip set_pc set_v]; rewrite length_insert; lia).
    eexists _, ((2 * vx) mod 256), (vx / 128). split; [reflexivity|].
    unfold reg. cbn [st set_st v set_v skip set_pc].
    split_and!; try done; try (Z.div_mod_to_equations; lia).
    + rewrite list_lookup_insert_eq by (rewrite length_insert; lia).
      unfold u8. rewrite Z.shiftl_mul_pow2 by lia. do 2 f_equal. lia.
    + rewrite list_lookup_insert_ne by lia. rewrite list_lookup_insert_eq by lia.
      by rewrite top_bit_of_byte.
Qed.

Lemma shifts_keep_the_bit_shifted_out_witness :
  (wf m_shr = true ∧ fetch (st m_shr) = Ok 0x8006 ∧ reg m_shr 0 = Some 0x85
   ∧ ∃ m' r f, step no_keys 0 m_shr = Ok (m', false)
       ∧ reg m' (op_x 0x8006) = Some r ∧ reg m' 0xF = Some f
       ∧ r = 0x85 / 2 ∧ f = 0x85 mod 2 ∧ 2 * r + f = 0x85)
  ∧ (wf m_shl = true ∧ fetch (st m_shl) = Ok 0x800E ∧ reg m_shl 0 = Some 0x85
     ∧ ∃ m' r f, step no_keys 0 m_shl = Ok (m', false)
         ∧ reg m' (op_x 0x800E) = Some r ∧ reg m' 0xF = Some f
         ∧ r = (2 * 0x85) mod 256 ∧ f = 0x85 / 128 ∧ 256 * f + r = 2 * 0x85).
Proof.
  split; (split_and!; [vm_compute; reflexivity .. |]).
  - apply (shifts_keep_the_bit_shifted_out no_keys 0 m_shr 0x8006 0x85);
      vm_compute; reflexivity || discriminate.
  - apply (shifts_keep_the_bit_shifted_out no_keys 0 m_shl 0x800E 0x85);
      vm_compute; reflexivity || discriminate.
Defined.

(** ** Fetch and decode *)

Lemma lor_shiftl_byte (hi lo : Z) :
  0 ≤ lo < 256 → Z.lor (Z.shiftl hi 8) lo = hi * 256 + lo.
Proof.
  intros Hlo.
  assert (Hdisj : Z.land (Z.shiftl hi 8) lo = 0).
  { apply Z.bits_inj'. intros i Hi. rewrite Z.land_spec, Z.bits_0.
    destruct (Z.ltb_spec i 8).
    - by rewrite Z.shiftl_spec_low.
    - rewrite (byte_high_bits lo) by lia. apply andb_false_r. }
  pose proof (Z.add_lor_land (Z.shiftl hi 8) lo) as Hsum.
  assert (Hshl : Z.shiftl hi 8 = hi * 256) by (by rewrite Z.shiftl_mul_pow2 by lia).
  lia.
Qed.

(** X11: below the end of memory the fetch succeeds and reads the opcode
    big-endian: the byte at the program counter is the high byte. *)
Theorem fetch_is_big_endian (s : State) (hi lo : Z) :
  wf_State s = true →
  mem s !! Z.to_nat (pc s) = Some hi → mem s !! Z.to_nat (pc s + 1) = Some lo →
  fetch s = Ok (256 * hi + lo) ∧ 0 ≤ 256 * hi + lo < 65536.
Proof.
  intros Hwf Hhi Hlo. apply wf_State_spec in Hwf.
  pose proof (wf_pc _ Hwf) as Hpc.
  assert (Hbh : 0 ≤ hi < 256).
  { apply byteb_spec. eapply forallb_lookup; [apply (wf_mem _ Hwf) | done]. }
  assert (Hbl : 0 ≤ lo < 256).
  { apply byteb_spec. eapply forallb_lookup; [apply (wf_mem _ Hwf) | done]. }
  unfold fetch. rewrite (rd_mem_Ok _ (pc s) hi), bind_Ok by (done || lia).
  rewrite (rd_mem_Ok _ (pc s + 1) lo), bind_Ok by (done || lia).
  rewrite lor_shiftl_byte by done. unfold u16. rewrite Z.mod_small by lia.
  split; [f_equal|]; lia.
Qed.

Lemma fetch_is_big_endian_witness :
  wf_State (st m_add) = true
  ∧ mem (st m_add) !! Z.to_nat (pc (st m_add)) = Some 0x80
  ∧ mem (st m_add) !! Z.to_nat (pc (st m_add) + 1) = Some 0x14
  ∧ fetch (st m_add) = Ok (256 * 0x80 + 0x14) ∧ 0 ≤ 256 * 0x80 + 0x14 < 65536.
Proof.
  split_and!; [vm_compute; reflexivity .. | |];
    apply (fetch_is_big_endian (st m_add) 0x80 0x14); vm_compute; reflexivity.
Defined.

Lemma land_split (op a b : Z) :
  Z.land a b = 0 → Z.land op a + Z.land op b = Z.land op (Z.lor a b).
Proof.
  intros Hab. rewrite Z.land_lor_distr_r.
  assert (Hdisj : Z.land (Z.land op a) (Z.land op b) = 0).
  { apply Z.bits_inj'. intros i Hi. rewrite !Z.land_spec, Z.bits_0.
    assert (Hi0 : Z.testbit (Z.land a b) i = false) by (by rewrite Hab, Z.bits_0).
    rewrite Z.land_spec in Hi0.
    destruct (Z.testbit op i), (Z.testbit a i), (Z.testbit b i); done. }
  pose proof (Z.add_lor_land (Z.land op a) (Z.land op b)) as Hsum. lia.
Qed.

(** X12: the decoded fields partition a 16-bit opcode: the family is the
    top nibble in place, x, y and n are the next three nibbles, nn is the low
    byte and nnn the low 12 bits. *)
Theorem decode_fields_partition (op : Z) :
  0 ≤ op < 65536 →
  op = op_fam op + 256 * op_x op + 16 * op_y op + op_n op
  ∧ op_fam op = 4096 * (op / 4096)
  ∧ op_nn op = 16 * op_y op + op_n op
  ∧ op_nnn op = 256 * op_x op + op_nn op
  ∧ 0 ≤ op / 4096 < 16.
Proof.
  intros Hop. unfold op_fam, op_x, op_y, op_n, op_nn, op_nnn.
  assert (Hfam : Z.land op 0xF000 = op - op mod 4096).
  { pose proof (land_split op 0xF000 0x0FFF eq_refl) as Hsum.
    change (Z.lor 0xF000 0x0FFF) with (Z.ones 16) in Hsum.
    change 0x0FFF with (Z.ones 12) in Hsum.
    rewrite !Z.land_ones in Hsum by lia.
    change (2 ^ 16) with 65536 in Hsum. change (2 ^ 12) with 4096 in Hsum.
    rewrite (Z.mod_small op 65536) in Hsum by lia. lia. }
  rewrite Hfam.
  change 0xF with (Z.ones 4). change 0xFF with (Z.ones 8). change 0x0FFF with (Z.ones 12).
  rewrite !Z.land_ones, !Z.shiftr_div_pow2 by lia.
  change (2 ^ 4) with 16. change (2 ^ 8) with 256. change (2 ^ 12) with 4096.
  split_and!; Z.div_mod_to_equations; lia.
Qed.

Lemma decode_fields_partition_witness :
  0 ≤ 0xD125 < 65536
  ∧ 0xD125 = op_fam 0xD125 + 256 * op_x 0xD125 + 16 * op_y 0xD125 + op_n 0xD125
  ∧ op_fam 0xD125 = 4096 * (0xD125 / 4096)
  ∧ op_nn 0xD125 = 16 * op_y 0xD125 + op_n 0xD125
  ∧ op_nnn 0xD125 = 256 * op_x 0xD125 + op_nn 0xD125
  ∧ 0 ≤ 0xD125 / 4096 < 16.
Proof. split; [lia | apply (decode_fields_partition 0xD125); lia]. Defined.

(** ** Keypad *)

(** X13: setting a key and reading it back.  For an index below 16 the
    key reads as set and the other keys are unchanged; for an index of 16
    or more nothing is set and the key reads as not pressed. *)
Theorem keypad_set_then_down (k : Keypad) (i j : Z) (b : bool) :
  wf_Keypad k = true → 0 ≤ i → 0 ≤ j →
  (i < kKeyCount →
   Keypad.down (Keypad.set k i b) i = b
   ∧ (j ≠ i → Keypad.down (Keypad.set k i b) j = Keypad.down k j)
   ∧ wf_Keypad (Keypad.set k i b) = true)
  ∧ (kKeyCount ≤ i → Keypad.set k i b = k ∧ Keypad.down k i = false).
Proof.
  unfold wf_Keypad, kKeyCount. intros Hk Hi Hj. apply Z.eqb_eq in Hk.
  unfold Keypad.set, Keypad.down. rewrite Hk.
  destruct (Z.ltb_spec i 16) as [Hlt|Hge]; (split; [|intros ?; lia || done]); [|intros; lia].
  intros _. cbn [keys]. rewrite length_insert, Hk.
  destruct (Z.ltb_spec i 16); [|lia]. split_and!.
  - by rewrite list_lookup_insert_eq by lia.
  - intros Hne. destruct (Z.ltb_spec j 16); [|done].
    by rewrite list_lookup_insert_ne by lia.
  - by apply Z.eqb_eq.
Qed.

Lemma keypad_set_then_down_witness :
  wf_Keypad no_keys = true
  ∧ Keypad.down (Keypad.set no_keys 5 true) 5 = true
  ∧ (6 ≠ 5 → Keypad.down (Keypad.set no_keys 5 true) 6 = Keypad.down no_keys 6)
  ∧ wf_Keypad (Keypad.set no_keys 5 true) = true.
Proof.
  split; [reflexivity|].
  apply (keypad_set_then_down no_keys 5 6 true); reflexivity || lia || (unfold kKeyCount; lia).
Defined.

(** X14: the key map sends the sixteen mapped key codes one-to-one onto
    the codes 0..15, and no other key code is mapped. *)
Theorem keypad_map_is_a_bijection :
  (∀ sym c, Keypad.map sym = Some c → 0 ≤ c < kKeyCount)
  ∧ (∀ a b c, Keypad.map a = Some c → Keypad.map b = Some c → a = b)
  ∧ (∀ c, 0 ≤ c < kKeyCount → ∃ sym, Keypad.map sym = Some c)
  ∧ Keypad.map SDLK_ESCAPE = None ∧ Keypad.map SDLK_unmapped = None.
Proof.
  unfold kKeyCount. split_and!; try done.
  - intros [] c [= <-]; lia.
  - intros [] [] c [= <-] [=]; done.
  - intros c Hc.
    assert (c = 0 ∨ c = 1 ∨ c = 2 ∨ c = 3 ∨ c = 4 ∨ c = 5 ∨ c = 6 ∨ c = 7 ∨ c = 8 ∨ c = 9
            ∨ c = 10 ∨ c = 11 ∨ c = 12 ∨ c = 13 ∨ c = 14 ∨ c = 15) as Hcs by lia.
    destruct Hcs as [->|[->|[->|[->|[->|[->|[->|[->|[->|[->|[->|[->|[->|[->|[->| ->]]]]]]]]]]]]]]].
    + by exists SDLK_x.
    + by exists SDLK_1.
    + by exists SDLK_2.
    + by exists SDLK_3.
    + by exists SDLK_q.
    + by exists SDLK_w.
    + by exists SDLK_e.
    + by exists SDLK_a.
    + by exists SDLK_s.
    + by exists SDLK_d.
    + by exists SDLK_z.
    + by exists SDLK_c.
    + by exists SDLK_4.
    + by exists SDLK_r.
    + by exists SDLK_f.
    + by exists SDLK_v.
Qed.

(** ** Construction, load and the machines a program can reach *)

Lemma State_init_facts : wf_State_facts State_init.
Proof. apply wf_State_spec. vm_compute. reflexivity. Qed.

(** X15: a reset yields the initial state whatever the state was: the font
    at 0x050..0x09F, zero elsewhere in memory, zero registers, timers, stack
    pointer and index register, the program counter at the entry address and
    a cleared framebuffer.  The wait-for-key members are not reset. *)
Theorem reset_gives_initial_state (m : Chip8VM) :
  Z.of_nat (length (pix (fb m))) = kPixelCount → 0 ≤ waitReg m < kRegCount →
  ∃ m', reset m = Ok m'
    ∧ wf m' = true
    ∧ (∀ (i : nat) (b : Z), kFontSprites !! i = Some b →
         mem (st m') !! Z.to_nat (0x050 + Z.of_nat i) = Some b)
    ∧ (∀ n, 0 ≤ n < kMemSize → n < 0x050 ∨ 0x0A0 ≤ n →
         mem (st m') !! Z.to_nat n = Some 0)
    ∧ v (st m') = replicate 16 0 ∧ stack (st m') = replicate 16 0
    ∧ I (st m') = 0 ∧ pc (st m') = kEntryAddr ∧ sp (st m') = 0
    ∧ DT (st m') = 0 ∧ ST (st m') = 0
    ∧ pix (fb m') = replicate 2048 0
    ∧ waitKey m' = waitKey m ∧ waitReg m' = waitReg m.
Proof.
  unfold kPixelCount, kDisplayWidth, kDisplayHeight, kRegCount, kMemSize.
  intros Hpl Hwr. unfold reset. cbv zeta.
  destruct (copy_in_spec 0x050 kFontSprites 0 State_init) as (a & Hrun & Hla & Hin & Hout);
    [lia | vm_compute; discriminate |].
  rewrite Hrun, bind_Ok. eexists. split; [reflexivity|].
  cbn [st fb set_mem mem v I pc stack sp DT ST waitKey waitReg State_init FB.clear pix].
  assert (Hlen : length a = 4096%nat) by (rewrite Hla; reflexivity).
  assert (Hfont : ∀ (i : nat) (b : Z), kFontSprites !! i = Some b →
                    a !! Z.to_nat (0x050 + Z.of_nat i) = Some b).
  { intros i b Hb. by rewrite <- (Hin i b Hb). }
  assert (Hzero : ∀ n, 0 ≤ n < 4096 → n < 0x050 ∨ 0x0A0 ≤ n → a !! Z.to_nat n = Some 0).
  { intros n Hn Hrange. rewrite Hout by (change (length kFontSprites) with 80%nat; lia).
    apply lookup_replicate_2. change (Z.to_nat kMemSize) with 4096%nat. lia. }
  split_and!; [| exact Hfont | exact Hzero | reflexivity .. | | reflexivity | reflexivity].
  - apply wf_spec. split; cbn [st fb waitReg pix]; [| | | exact Hwr].
    + pose proof State_init_facts as [? ? ? ? ? ? ? ? ? ? ?].
      split; cbn [mem v I pc stack sp DT ST set_mem]; try assumption; [lia|].
      apply forallb_of_lookup. intros i b Hb.
      pose proof (lookup_lt_Some _ _ _ Hb) as Hi. rewrite Hlen in Hi.
      destruct (decide (0x050 ≤ Z.of_nat i < 0x0A0)) as [Hr|Hr].
      * destruct (lookup_lt_is_Some_2 kFontSprites (i - 80)) as [c Hc].
        { change (length kFontSprites) with 80%nat. lia. }
        pose proof (Hfont _ _ Hc) as Hc'.
        replace (Z.to_nat (0x050 + Z.of_nat (i - 80))) with i in Hc' by lia.
        rewrite Hb in Hc'. injection Hc' as ->.
        eapply (forallb_lookup byteb kFontSprites); [reflexivity | done].
      * pose proof (Hzero (Z.of_nat i)) as Hz. rewrite Nat2Z.id in Hz.
        rewrite Hz in Hb by lia. by injection Hb as <-.
    + cbn [FB.clear pix]. rewrite length_replicate. lia.
    + cbn [FB.clear pix]. by apply forallb_replicate.
  - f_equal. lia.
Qed.

Lemma reset_gives_initial_state_witness :
  Z.of_nat (length (pix (fb m_waiting))) = kPixelCount ∧ 0 ≤ waitReg m_waiting < kRegCount
  ∧ waitKey m_waiting = true
  ∧ ∃ m', reset m_waiting = Ok m'
    ∧ wf m' = true
    ∧ (∀ (i : nat) (b : Z), kFontSprites !! i = Some b →
         mem (st m') !! Z.to_nat (0x050 + Z.of_nat i) = Some b)
    ∧ (∀ n, 0 ≤ n < kMemSize → n < 0x050 ∨ 0x0A0 ≤ n →
         mem (st m') !! Z.to_nat n = Some 0)
    ∧ v (st m') = replicate 16 0 ∧ stack (st m') = replicate 16 0
    ∧ I (st m') = 0 ∧ pc (st m') = kEntryAddr ∧ sp (st m') = 0
    ∧ DT (st m') = 0 ∧ ST (st m') = 0
    ∧ pix (fb m') = replicate 2048 0
    ∧ waitKey m' = waitKey m_waiting ∧ waitReg m' = waitReg m_waiting.
Proof.
  split_and!; [vm_compute; first [reflexivity | discriminate] .. |].
  apply (reset_gives_initial_state m_waiting);
    vm_compute; first [reflexivity | split; [discriminate | reflexivity]].
Defined.

Lemma load_wf (fs : string → option (list Z)) (path : string)
    (m m' : Chip8VM) (ok : bool) (out : list string) :
  wf m = true →
  (∀ bytes, fs path = Some bytes → forallb byteb bytes = true) →
  load fs path m = Ok (m', ok, out) → wf m' = true.
Proof.
  intros Hwf Hbytes. unfold load.
  destruct (fs path) as [bytes|] eqn:Hfs; [|by intros [= <- _ _]].
  specialize (Hbytes bytes eq_refl).
  rewrite Z.gtb_ltb.
  destruct (Z.ltb_spec kMemSize (kEntryAddr + Z.of_nat (length bytes))) as [Hbig|Hfit];
    [by intros [= <- _ _]|].
  pose proof Hwf as Hfacts. apply wf_spec in Hfacts as [Hs Hpl Hpix Hwr].
  pose proof (wf_mem_len _ Hs) as Hml.
  destruct (copy_in_spec kEntryAddr bytes 0 (st m)) as (a & Hrun & Hla & Hin & Hout);
    try (unfold kEntryAddr, kMemSize in *; lia).
  rewrite Hrun, bind_Ok. intros [= <- _ _]. apply wf_spec.
  split; cbn [st fb waitReg set_st]; try done.
  destruct Hs. split; cbn [mem v I pc stack sp DT ST set_mem set_pc]; try done.
  - by rewrite Hla.
  - apply forallb_of_lookup. intros i b Hb.
    pose proof (lookup_lt_Some _ _ _ Hb) as Hi.
    destruct (decide (kEntryAddr ≤ Z.of_nat i < kEntryAddr + Z.of_nat (length bytes)))
      as [Hr|Hr].
    + destruct (lookup_lt_is_Some_2 bytes (i - Z.to_nat kEntryAddr)) as [c Hc]; [lia|].
      pose proof (Hin _ _ Hc) as Hc'.
      replace (Z.to_nat (kEntryAddr + 0 + Z.of_nat (i - Z.to_nat kEntryAddr))) with i in Hc'
        by (unfold kEntryAddr in *; lia).
      rewrite Hb in Hc'. injection Hc' as ->.
      eapply (forallb_lookup byteb bytes); [exact Hbytes | exact Hc].
    + pose proof (Hout (Z.of_nat i)) as Hz. rewrite Nat2Z.id in Hz.
      rewrite Hz in Hb by (unfold kEntryAddr in *; lia).
      eapply (forallb_lookup byteb (mem (st m))); [assumption | exact Hb].
Qed.

(** On a well-formed machine the size test keeps every index of the copy
    in range, so a load always returns. *)
Lemma load_returns (fs : string → option (list Z)) (path : string) (m : Chip8VM) :
  wf m = true → ∃ r, load fs path m = Ok r.
Proof.
  intros Hwf. unfold load.
  destruct (fs path) as [bytes|] eqn:Hfs; [|by eexists].
  rewrite Z.gtb_ltb.
  destruct (Z.ltb_spec kMemSize (kEntryAddr + Z.of_nat (length bytes))) as [Hbig|Hfit];
    [by eexists|].
  apply wf_spec in Hwf as [Hs Hpl Hpix Hwr].
  pose proof (wf_mem_len _ Hs) as Hml.
  destruct (copy_in_spec kEntryAddr bytes 0 (st m)) as (a & Hrun & _);
    try (unfold kEntryAddr, kMemSize in *; lia).
  rewrite Hrun, bind_Ok. by eexists.
Qed.

(** X16: a load keeps a well-formed machine well formed, whether it
    succeeds or fails, when the image consists of bytes. *)
Theorem load_preserves_wf (fs : string → option (list Z)) (path : string)
    (m m' : Chip8VM) (ok : bool) (out : list string) :
  wf m = true →
  (∀ bytes, fs path = Some bytes → forallb byteb bytes = true) →
  load fs path m = Ok (m', ok, out) → wf m' = true.
Proof. apply load_wf. Qed.

Lemma load_preserves_wf_witness :
  wf m_fresh = true
  ∧ load (every_path [0x12; 0x00]) "rom" m_fresh = Ok (m_call_seed, true, [])
  ∧ wf m_call_seed = true.
Proof.
  split_and!; [vm_compute; reflexivity .. |].
  apply (load_preserves_wf (every_path [0x12; 0x00]) "rom" m_fresh m_call_seed true []).
  - vm_compute; reflexivity.
  - intros bytes [= <-]. reflexivity.
  - vm_compute; reflexivity.
Defined.

Lemma new_machine : Chip8VM_new = Ok m_fresh.
Proof. vm_compute. reflexivity. Qed.

Lemma new_machine_wf : wf m_fresh = true.
Proof. vm_compute. reflexivity. Qed.

Lemma run_good (inputs : list (Keypad * Z)) : ∀ m : Chip8VM,
  wf m = true → good (λ m', wf m' = true) (run inputs m).
Proof.
  induction inputs as [|[k r] rest IH]; intros m Hwf; cbn [run fst snd]; [done|].
  eapply good_bind; [apply (step_good k r m Hwf)|].
  intros [m1 d] Hk. cbn beta in *. apply IH.
  apply wf_spec. cbn [fst] in Hk. by destruct Hk as [[[? _]|[? _]] _].
Qed.

(** X17: construction, a load of an image of bytes and any number of
    instructions either access memory at or above index 4096 on the way, or
    produce a well-formed machine, whatever keys are pressed and whatever
    [rand()] returns. *)
Theorem reachable_machines_are_wf (rom : list Z) (inputs : list (Keypad * Z)) :
  forallb byteb rom = true →
  match boot_and_run rom inputs with
  | Ok m => wf m = true
  | Fault f => ∃ i, f = MemRange i ∧ kMemSize ≤ i
  end.
Proof.
  intros Hrom. unfold boot_and_run. rewrite new_machine, bind_Ok.
  destruct (load_returns (every_path rom) "rom" m_fresh new_machine_wf)
    as [[[m1 ok] out] Hload].
  rewrite Hload, bind_Ok.
  assert (Hwf1 : wf m1 = true).
  { eapply (load_wf _ _ m_fresh); [apply new_machine_wf | | exact Hload].
    by intros bytes [= <-]. }
  apply (run_good inputs m1 Hwf1).
Qed.

Lemma reachable_machines_are_wf_witness :
  forallb byteb rom_wait = true
  ∧ boot_and_run rom_wait [(no_keys, 0); (no_keys, 7)] = Ok m_still_waiting
  ∧ wf m_still_waiting = true.
Proof.
  assert (Hrun : boot_and_run rom_wait [(no_keys, 0); (no_keys, 7)] = Ok m_still_waiting)
    by (vm_compute; reflexivity).
  split_and!; [vm_compute; reflexivity .. |].
  pose proof (reachable_machines_are_wf rom_wait [(no_keys, 0); (no_keys, 7)]) as H.
  rewrite Hrun in H. apply H. vm_compute. reflexivity.
Defined.

(** ** Timers over several ticks *)

Lemma timerTick_one (m : Chip8VM) :
  0 ≤ DT (st m) < 256 → 0 ≤ ST (st m) < 256 →
  timerTick m
  = (set_st m (set_ST (set_DT (st m) (Z.max 0 (DT (st m) - 1))) (Z.max 0 (ST (st m) - 1))),
     if 1 <? ST (st m) then beep else []).
Proof.
  intros HD HS. destruct m as [s f wk wr]; destruct s as [me vv ii pp stk spp dt snd].
  cbn [st DT ST] in *. unfold timerTick. cbn [st DT ST set_DT set_ST]. rewrite !Z.gtb_ltb.
  assert (Hu : ∀ z, 0 < z < 256 → u8 (z - 1) = z - 1).
  { intros z Hz. unfold u8. apply Z.mod_small. lia. }
  destruct (Z.ltb_spec 0 dt); cbn [st DT ST set_DT set_ST]; rewrite ?Z.gtb_ltb;
    (destruct (Z.ltb_spec 0 snd); cbn [st DT ST set_DT set_ST]; rewrite ?Z.gtb_ltb, ?Hu by lia;
     [destruct (Z.ltb_spec 0 (snd - 1)) |]);
    destruct (Z.ltb_spec 1 snd); try lia;
    unfold set_st, set_ST, set_DT; cbn [mem v I pc stack sp DT ST st fb waitKey waitReg];
    repeat f_equal; lia.
Qed.

(** X18: after n timer ticks each timer has counted down by n and stopped
    at 0, and the tone line has been written min(n, ST - 1) times: a sound
    timer set to s sounds on s - 1 ticks in total. *)
Theorem ticks_count_down (n : nat) (m : Chip8VM) :
  wf m = true →
  ∃ m' out, ticks n m = (m', out)
    ∧ DT (st m') = Z.max 0 (DT (st m) - Z.of_nat n)
    ∧ ST (st m') = Z.max 0 (ST (st m) - Z.of_nat n)
    ∧ Z.of_nat (length out) = Z.max 0 (Z.min (Z.of_nat n) (ST (st m) - 1))
    ∧ (∀ line, line ∈ out → [line] = beep)
    ∧ wf m' = true.
Proof.
  revert m. induction n as [|n IH]; intros m Hwf.
  - pose proof (wf_State_of _ Hwf) as Hs.
    pose proof (wf_DT _ Hs). pose proof (wf_ST _ Hs).
    exists m, []. cbn [ticks length]. split_and!; try done; try lia.
    intros line Hin. by apply elem_of_nil in Hin.
  - pose proof (wf_State_of _ Hwf) as Hs.
    pose proof (wf_DT _ Hs) as HD. pose proof (wf_ST _ Hs) as HS.
    cbn [ticks]. rewrite timerTick_one by done.
    set (m1 := set_st m _).
    assert (Hwf1 : wf m1 = true).
    { apply wf_spec. apply wf_spec in Hwf as [? ? ? ?]. split; try done.
      apply wf_set_ST; [apply wf_set_DT; [done | lia] | cbn [ST set_DT]; lia]. }
    destruct (IH m1 Hwf1) as (m' & out & -> & HD' & HS' & Hlen & Hlines & Hwf').
    eexists _, _. split; [reflexivity|].
    subst m1. cbn [st set_st DT ST set_DT set_ST] in *.
    split_and!; try done; try lia.
    + rewrite length_app, Nat2Z.inj_add, Hlen.
      destruct (Z.ltb_spec 1 (ST (st m))); cbn [length beep]; lia.
    + intros line Hin. apply elem_of_app in Hin as [Hin|Hin]; [|by apply Hlines].
      destruct (1 <? ST (st m)); [|by apply elem_of_nil in Hin].
      unfold beep in *. by apply list_elem_of_singleton in Hin as ->.
Qed.

Lemma ticks_count_down_witness :
  wf m_sound_3 = true ∧ ST (st m_sound_3) = 3
  ∧ ∃ m' out, ticks 5 m_sound_3 = (m', out)
    ∧ DT (st m') = Z.max 0 (DT (st m_sound_3) - Z.of_nat 5)
    ∧ ST (st m') = Z.max 0 (ST (st m_sound_3) - Z.of_nat 5)
    ∧ Z.of_nat (length out) = Z.max 0 (Z.min (Z.of_nat 5) (ST (st m_sound_3) - 1))
    ∧ (∀ line, line ∈ out → [line] = beep)
    ∧ wf m' = true.
Proof.
  split_and!; [vm_compute; reflexivity .. |].
  apply (ticks_count_down 5 m_sound_3); vm_compute; reflexivity.
Defined.

(** ** Command line *)

(** X19: [clamp] returns a value within the bounds, returns its argument
    when that is within the bounds, and is idempotent, when the bounds are
    ordered. *)
Theorem clamp_within_bounds (x lo hi : Z) :
  lo ≤ hi →
  lo ≤ clamp x lo hi ≤ hi
  ∧ (lo ≤ x ≤ hi → clamp x lo hi = x)
  ∧ (x < lo → clamp x lo hi = lo)
  ∧ (hi < x → clamp x lo hi = hi)
  ∧ clamp (clamp x lo hi) lo hi = clamp x lo hi.
Proof.
  intros Hb. unfold clamp. rewrite !Z.gtb_ltb.
  destruct (Z.ltb_spec x lo); [|destruct (Z.ltb_spec hi x)].
  - destruct (Z.ltb_spec lo lo); [lia|]. destruct (Z.ltb_spec hi lo); [lia|].
    split_and!; done || lia.
  - destruct (Z.ltb_spec hi lo); [lia|]. destruct (Z.ltb_spec hi hi); [lia|].
    split_and!; done || lia.
  - destruct (Z.ltb_spec x lo); [lia|]. destruct (Z.ltb_spec hi x); [lia|].
    split_and!; done || lia.
Qed.

Lemma clamp_within_bounds_witness :
  1 ≤ 64
  ∧ 1 ≤ clamp 100 1 64 ≤ 64
  ∧ (1 ≤ 100 ≤ 64 → clamp 100 1 64 = 100)
  ∧ (100 < 1 → clamp 100 1 64 = 1)
  ∧ (64 < 100 → clamp 100 1 64 = 64)
  ∧ clamp (clamp 100 1 64) 1 64 = clamp 100 1 64.
Proof. split; [lia | apply (clamp_within_bounds 100 1 64); lia]. Defined.

(** X20: the pixel scale that [main] passes on is always between 1 and 64:
    12 without a second argument; otherwise the argument itself when it is
    between 1 and 64, 1 when it is below 1 and 64 when it is above 64. *)
Theorem main_scale_in_range (argc a : Z) :
  1 ≤ main_scale argc a ≤ 64
  ∧ (argc < 3 → main_scale argc a = 12)
  ∧ (3 ≤ argc → 1 ≤ a ≤ 64 → main_scale argc a = a)
  ∧ (3 ≤ argc → a < 1 → main_scale argc a = 1)
  ∧ (3 ≤ argc → 64 < a → main_scale argc a = 64).
Proof.
  unfold main_scale, clamp. rewrite Z.geb_leb, Z.gtb_ltb.
  destruct (Z.leb_spec 3 argc); [|split_and!; done || lia].
  destruct (Z.ltb_spec a 1); [split_and!; done || lia|].
  destruct (Z.ltb_spec 64 a); split_and!; done || lia.
Qed.

(** ** The driver's frame *)

Lemma feedKey_good (m : Chip8VM) (c : Z) :
  wf_facts m → 0 ≤ c < 256 → good wf_facts (feedKey m c).
Proof.
  intros Hwf Hc. pose proof (wf_st _ Hwf) as Hs. pose proof (wf_waitReg _ Hwf).
  unfold feedKey. destruct (waitKey m); [|done].
  eapply good_bind; [apply wr_v_good; done || lia|].
  intros s' Hs'. cbn. destruct Hwf. by split.
Qed.

Lemma on_event_good (a : App) (ev : SDL_Event) :
  wf_facts (vm a) → good (λ a', wf_facts (vm a') ∧ opt a' = opt a) (on_event a ev).
Proof.
  intros Hwf. destruct ev as [|sym|sym|]; cbn [on_event]; try done.
  - destruct (Keypad.map sym) as [c|] eqn:Hmap; [|done].
    assert (0 ≤ c < 256).
    { destruct sym; cbn in Hmap; try discriminate; injection Hmap as <-; lia. }
    eapply good_bind; [by apply feedKey_good|]. intros m' Hm'. done.
  - by destruct (Keypad.map sym).
Qed.

Lemma poll_events_good (evs : list SDL_Event) : ∀ a : App,
  wf_facts (vm a) → good (λ a', wf_facts (vm a') ∧ opt a' = opt a) (poll_events evs a).
Proof.
  induction evs as [|ev evs IH]; intros a Hwf; cbn [poll_events]; [done|].
  eapply good_bind; [by apply on_event_good|].
  intros a1 [Hwf1 Hopt1]. eapply good_mono; [|by apply IH].
  intros a2 [? ?]. split; [done | congruence].
Qed.

Lemma timerTick_wf (m : Chip8VM) : wf_facts m → wf_facts (fst (timerTick m)).
Proof.
  intros Hwf. pose proof (wf_st _ Hwf) as Hs.
  pose proof (wf_DT _ Hs). pose proof (wf_ST _ Hs).
  rewrite timerTick_one by done. cbn [fst].
  destruct Hwf. split; try done.
  apply wf_set_ST; [apply wf_set_DT; [done | lia] | cbn [ST set_DT]; lia].
Qed.

(** X21: one iteration of the driver's loop keeps the machine well formed
    and keeps the options; it can only stop at a memory access past the end
    of memory, whatever the events, the clock and the random values are. *)
Theorem frame_keeps_machine_wf (evs : list SDL_Event) (rnd : Z → Z) (now : Z) (a : App) :
  wf (vm a) = true →
  match frame evs rnd now a with
  | Ok (a', _, _) => wf (vm a') = true ∧ opt a' = opt a
  | Fault f => ∃ i, f = MemRange i ∧ kMemSize ≤ i
  end.
Proof.
  intros Hwf. apply wf_spec in Hwf.
  assert (Hg : good (λ r, wf_facts (vm (fst (fst r))) ∧ opt (fst (fst r)) = opt a)
                    (frame evs rnd now a)).
  { unfold frame. cbv zeta.
    eapply good_bind; [by apply poll_events_good|]. intros a1 [Hwf1 Hopt1].
    eapply good_bind.
    - apply (good_for (λ md : Chip8VM * bool, wf_facts (fst md)) _
                      (Z.of_nat (Z.to_nat (cycles (opt a1))))); [|lia|lia|done].
      intros j [m d] _ Hm. cbn [fst] in Hm. unfold cycle. cbn [fst snd].
      eapply good_bind; [apply step_good; by apply wf_spec|].
      intros [m' d'] [Hk _]. cbn. by destruct Hk as [[? _]|[? _]].
    - intros [m d] Hm. cbn [fst] in Hm.
      destruct (u32 (now - last a1) >=? u32 (1000 ÷ timerHz (opt a))); [|by cbn].
      pose proof (timerTick_wf _ Hm) as Ht. destruct (timerTick m) as [m' out]. by cbn. }
  destruct (frame evs rnd now a) as [[[a' d] out]|f]; [|exact Hg].
  cbn in Hg. destruct Hg as [Hwf' Hopt']. split; [by apply wf_spec | done].
Qed.

Lemma frame_keeps_machine_wf_witness :
  wf (vm app_wait) = true
  ∧ match frame [] (λ _, 0) 0 app_wait with
    | Ok (a', _, _) => wf (vm a') = true ∧ opt a' = opt app_wait
    | Fault f => ∃ i, f = MemRange i ∧ kMemSize ≤ i
    end.
Proof.
  split; [vm_compute; reflexivity|].
  apply (frame_keeps_machine_wf [] (λ _, 0) 0 app_wait). vm_compute; reflexivity.
Defined.

(** X22: a key-down event of a mapped key, handled while the machine waits
    for a key, writes the key's code to the awaited register, ends the wait
    and marks the key as pressed; the quit flag is unchanged. *)
Theorem key_down_event_ends_wait (a : App) (sym : SDL_Keycode) (c : Z) :
  wf (vm a) = true → wf_Keypad (app_keys a) = true →
  Keypad.map sym = Some c → waitKey (vm a) = true →
  ∃ a', on_event a (SDL_KEYDOWN sym) = Ok a'
    ∧ reg (vm a') (waitReg (vm a)) = Some c
    ∧ waitKey (vm a') = false
    ∧ Keypad.down (app_keys a') c = true
    ∧ quit a' = quit a.
Proof.
  intros Hwf Hk Hmap Hwait. apply wf_spec in Hwf as [Hs _ _ Hwr].
  pose proof (wf_v_len _ Hs) as Hlen.
  assert (Hc : 0 ≤ c < 16).
  { destruct sym; cbn in Hmap; try discriminate; injection Hmap as <-; lia. }
  assert (Hq : match sym with SDLK_ESCAPE => true | _ => quit a end = quit a).
  { by destruct sym. }
  cbn [on_event]. rewrite Hmap. unfold feedKey. rewrite Hwait.
  rewrite wr_v_Ok, !bind_Ok by lia.
  eexists. split; [reflexivity|]. cbn [vm app_keys quit waitKey].
  unfold reg. cbn [st v set_v]. split_and!; try done.
  - apply list_lookup_insert_eq. lia.
  - unfold wf_Keypad, kKeyCount in Hk. apply Z.eqb_eq in Hk.
    unfold Keypad.set, Keypad.down. rewrite Hk.
    destruct (Z.ltb_spec c 16); [|lia]. cbn [keys]. rewrite length_insert, Hk.
    destruct (Z.ltb_spec c 16); [|lia]. by rewrite list_lookup_insert_eq by lia.
Qed.

Lemma key_down_event_ends_wait_witness :
  wf (vm app_waiting) = true ∧ wf_Keypad (app_keys app_waiting) = true
  ∧ Keypad.map SDLK_q = Some 4 ∧ waitKey (vm app_waiting) = true
  ∧ ∃ a', on_event app_waiting (SDL_KEYDOWN SDLK_q) = Ok a'
      ∧ reg (vm a') (waitReg (vm app_waiting)) = Some 4
      ∧ waitKey (vm a') = false
      ∧ Keypad.down (app_keys a') 4 = true
      ∧ quit a' = quit app_waiting.
Proof.
  split_and!; [vm_compute; reflexivity .. |].
  apply (key_down_event_ends_wait app_waiting SDLK_q 4); vm_compute; reflexivity.
Defined.

(** ** Font glyphs *)

Lemma exec_misc_font (m : Chip8VM) (op : Z) :
  op_nn op = 0x29 →
  exec_misc m op =
    (vx ← rd_v (st m) (op_x op);
     Ok (set_st m (set_I (st m) (u16 (0x050 + Z.land vx 0xF * kGlyphBytes))))).
Proof. intros H. unfold exec_misc. by rewrite H. Qed.

(** X23: FX29 points the index register at the five-byte glyph of the low
    hexadecimal digit of Vx: the address lies in the font region, and when
    the font is in place the five bytes from it are that glyph's bytes. *)
Theorem font_address_points_at_glyph (k : Keypad) (rnd : Z) (m : Chip8VM) (op vx : Z) :
  wf m = true →
  fetch (st m) = Ok op → op_fam op = 0xF000 → op_nn op = 0x29 →
  reg m (op_x op) = Some vx →
  (∀ (i : nat) (b : Z), kFontSprites !! i = Some b →
     mem (st m) !! Z.to_nat (0x050 + Z.of_nat i) = Some b) →
  ∃ m', step k rnd m = Ok (m', false)
    ∧ I (st m') = 0x050 + 5 * (vx mod 16)
    ∧ 0x050 ≤ I (st m') ∧ I (st m') + 4 < 0x0A0
    ∧ ∀ j : nat, (j < 5)%nat →
        is_Some (kFontSprites !! (Z.to_nat (5 * (vx mod 16)) + j)%nat)
        ∧ mem (st m') !! Z.to_nat (I (st m') + Z.of_nat j)
          = kFontSprites !! (Z.to_nat (5 * (vx mod 16)) + j)%nat.
Proof.
  intros Hwf Hf Hfam Hnn Hvx Hfont.
  pose proof (reg_byte _ _ _ Hwf Hvx) as Hb. pose proof (op_x_range op).
  rewrite (step_fetch _ _ _ _ Hf), exec_misc_eq, exec_misc_font by done.
  cbn [st set_st]. rewrite (rd_v_Ok _ (op_x op) vx), !bind_Ok by (done || lia).
  change 0xF with (Z.ones 4). rewrite Z.land_ones by lia. change (2 ^ 4) with 16.
  unfold kGlyphBytes.
  pose proof (Z.mod_pos_bound vx 16 ltac:(lia)) as Hd.
  assert (Hu : u16 (80 + vx mod 16 * 5) = 80 + 5 * (vx mod 16)).
  { unfold u16. rewrite Z.mod_small; lia. }
  rewrite Hu. eexists. split; [reflexivity|]. cbn [st set_st I set_I mem skip set_pc].
  split_and!; try lia.
  intros j Hj.
  destruct (lookup_lt_is_Some_2 kFontSprites (Z.to_nat (5 * (vx mod 16)) + j)) as [b Hbj].
  { change (length kFontSprites) with 80%nat. lia. }
  split; [by eexists|]. rewrite Hbj, <- (Hfont _ _ Hbj). f_equal. lia.
Qed.

Lemma font_address_points_at_glyph_witness :
  wf m_font = true ∧ fetch (st m_font) = Ok 0xF029 ∧ reg m_font 0 = Some 0x1A
  ∧ ∃ m', step no_keys 0 m_font = Ok (m', false)
    ∧ I (st m') = 0x050 + 5 * (0x1A mod 16)
    ∧ 0x050 ≤ I (st m') ∧ I (st m') + 4 < 0x0A0
    ∧ ∀ j : nat, (j < 5)%nat →
        is_Some (kFontSprites !! (Z.to_nat (5 * (0x1A mod 16)) + j)%nat)
        ∧ mem (st m') !! Z.to_nat (I (st m') + Z.of_nat j)
          = kFontSprites !! (Z.to_nat (5 * (0x1A mod 16)) + j)%nat.
Proof.
  split_and!; [vm_compute; reflexivity .. |].
  apply (font_address_points_at_glyph no_keys 0 m_font 0xF029 0x1A);
    [vm_compute; reflexivity .. |].
  intros i b Hb.
  assert (Hi : (i < 80)%nat) by (apply lookup_lt_Some in Hb; exact Hb).
  revert b Hb.
  do 80 (destruct i as [|i]; [intros b [= <-]; vm_compute; reflexivity|]). lia.
Defined.

(** ** Opcodes that match no case, key skips, timer registers *)

(** X24: an opcode that matches no case of the executor only advances the
    program counter: family 0 other than xxE0 and xxEE, 5xyn and 9xyn with
    n other than 0, 8xyn with n in 8..D or F, Exnn other than 9E and A1, and
    Fxnn outside the nine defined low bytes. *)
Theorem unmatched_opcode_only_advances (k : Keypad) (rnd : Z) (m : Chip8VM) (op : Z) :
  fetch (st m) = Ok op →
  (op_fam op = 0x0000 ∧ op_nn op ≠ 0xE0 ∧ op_nn op ≠ 0xEE)
  ∨ (op_fam op = 0x5000 ∧ Z.land op 0xF ≠ 0)
  ∨ (op_fam op = 0x9000 ∧ Z.land op 0xF ≠ 0)
  ∨ (op_fam op = 0x8000 ∧ 8 ≤ Z.land op 0xF ∧ Z.land op 0xF ≠ 0xE)
  ∨ (op_fam op = 0xE000 ∧ op_nn op ≠ 0x9E ∧ op_nn op ≠ 0xA1)
  ∨ (op_fam op = 0xF000 ∧ op_nn op ≠ 0x07 ∧ op_nn op ≠ 0x0A ∧ op_nn op ≠ 0x15
     ∧ op_nn op ≠ 0x18 ∧ op_nn op ≠ 0x1E ∧ op_nn op ≠ 0x29 ∧ op_nn op ≠ 0x33
     ∧ op_nn op ≠ 0x55 ∧ op_nn op ≠ 0x65) →
  step k rnd m = Ok (set_st m (set_pc (st m) (u16 (pc (st m) + 2))), false).
Proof.
  intros Hf Hop. rewrite (step_fetch _ _ _ _ Hf).
  destruct Hop as [(Hfam & H1 & H2) | [(Hfam & H1) | [(Hfam & H1) | [(Hfam & H1 & H2)
                  | [(Hfam & H1 & H2) | (Hfam & H1 & H2 & H3 & H4 & H5 & H6 & H7 & H8 & H9)]]]]];
    repeat match goal with H : _ ≠ _ |- _ => apply Z.eqb_neq in H end.
  - rewrite exec_sys_eq by done. unfold exec_sys. by rewrite H1, H2.
  - unfold exec. rewrite Hfam. cbn [Z.eqb Pos.eqb]. by rewrite H1.
  - unfold exec. rewrite Hfam. cbn [Z.eqb Pos.eqb]. by rewrite H1.
  - rewrite exec_alu_eq by done. unfold exec_alu. rewrite H2.
    repeat match goal with
           | |- context [Z.land op 15 =? ?c] =>
               destruct (Z.eqb_spec (Z.land op 15) c) as [?|_]; [lia|]
           end.
    done.
  - unfold exec. rewrite Hfam. cbn [Z.eqb Pos.eqb]. unfold exec_key. by rewrite H1, H2.
  - rewrite exec_misc_eq by done. unfold exec_misc.
    by rewrite H1, H2, H3, H4, H5, H6, H7, H8, H9.
Qed.

Lemma unmatched_opcode_only_advances_witness :
  fetch (st m_unmatched) = Ok 0x5121
  ∧ step no_keys 0 m_unmatched
    = Ok (set_st m_unmatched (set_pc (st m_unmatched) (u16 (pc (st m_unmatched) + 2))), false).
Proof.
  split; [vm_compute; reflexivity|].
  apply (unmatched_opcode_only_advances no_keys 0 m_unmatched 0x5121);
    [vm_compute; reflexivity|].
  right. left. split; vm_compute; reflexivity || discriminate.
Defined.

(** X25: EX9E skips the next instruction exactly when key Vx is pressed and
    EXA1 exactly when it is not; a value of Vx of 16 or more names no key
    and counts as not pressed.  Nothing but the program counter changes. *)
Theorem key_skips (k : Keypad) (rnd : Z) (m : Chip8VM) (op vx : Z) :
  wf m = true → wf_Keypad k = true →
  fetch (st m) = Ok op → op_fam op = 0xE000 →
  reg m (op_x op) = Some vx →
  (op_nn op = 0x9E →
   step k rnd m
   = Ok (set_st m (set_pc (st m) (u16 (pc (st m) + (if Keypad.down k vx then 4 else 2)))),
         false))
  ∧ (op_nn op = 0xA1 →
     step k rnd m
     = Ok (set_st m (set_pc (st m) (u16 (pc (st m) + (if Keypad.down k vx then 2 else 4)))),
           false))
  ∧ (kKeyCount ≤ vx → Keypad.down k vx = false).
Proof.
  intros Hwf Hk Hf Hfam Hvx. pose proof (op_x_range op).
  assert (Hskip2 : ∀ s, skip (skip s) = set_pc s (u16 (pc s + 4))).
  { intros s. unfold skip. cbn [pc set_pc]. unfold set_pc. cbn. f_equal.
    unfold u16. rewrite Zplus_mod_idemp_l. f_equal. lia. }
  rewrite (step_fetch _ _ _ _ Hf). unfold exec. rewrite Hfam. cbn [Z.eqb Pos.eqb].
  unfold exec_key. cbn [st set_st].
  split_and!.
  - intros ->. cbn [Z.eqb Pos.eqb].
    rewrite (rd_v_Ok _ (op_x op) vx), !bind_Ok by (done || lia).
    destruct (Keypad.down k vx); [by rewrite Hskip2 | done].
  - intros ->. cbn [Z.eqb Pos.eqb].
    rewrite (rd_v_Ok _ (op_x op) vx), !bind_Ok by (done || lia).
    destruct (Keypad.down k vx); [done | by rewrite Hskip2].
  - intros Hbig. unfold wf_Keypad in Hk. apply Z.eqb_eq in Hk.
    unfold Keypad.down. rewrite Hk. by destruct (Z.ltb_spec vx kKeyCount); [lia|].
Qed.

Lemma key_skips_witness :
  wf m_key_skip = true ∧ wf_Keypad no_keys = true
  ∧ fetch (st m_key_skip) = Ok 0xE0A1 ∧ reg m_key_skip 0 = Some 0x20
  ∧ (op_nn 0xE0A1 = 0xA1 →
     step no_keys 0 m_key_skip
     = Ok (set_st m_key_skip
             (set_pc (st m_key_skip)
                (u16 (pc (st m_key_skip) + (if Keypad.down no_keys 0x20 then 2 else 4)))),
           false)).
Proof.
  split_and!; [vm_compute; reflexivity .. |].
  apply (key_skips no_keys 0 m_key_skip 0xE0A1 0x20); vm_compute; reflexivity.
Defined.

Lemma exec_misc_set_DT (m : Chip8VM) (op : Z) :
  op_nn op = 0x15 →
  exec_misc m op = (vx ← rd_v (st m) (op_x op); Ok (set_st m (set_DT (st m) vx))).
Proof. intros H. unfold exec_misc. by rewrite H. Qed.

Lemma exec_misc_get_DT (m : Chip8VM) (op : Z) :
  op_nn op = 0x07 →
  exec_misc m op = (s ← wr_v (st m) (op_x op) (DT (st m)); Ok (set_st m s)).
Proof. intros H. unfold exec_misc. by rewrite H. Qed.

Lemma ticks_down_DT (n : nat) : ∀ m : Chip8VM,
  wf m = true →
  wf (fst (ticks n m)) = true
  ∧ DT (st (fst (ticks n m))) = Z.max 0 (DT (st m) - Z.of_nat n).
Proof.
  induction n as [|n IH]; intros m Hwf.
  - pose proof (wf_DT _ (wf_State_of _ Hwf)). cbn [ticks fst]. split; [done | lia].
  - pose proof (wf_State_of _ Hwf) as Hs.
    pose proof (wf_DT _ Hs) as HD. pose proof (wf_ST _ Hs) as HS.
    cbn [ticks]. rewrite timerTick_one by done.
    set (m1 := set_st m _).
    assert (Hwf1 : wf m1 = true).
    { apply wf_spec. apply wf_spec in Hwf as [? ? ? ?]. split; try done.
      apply wf_set_ST; [apply wf_set_DT; [done | lia] | cbn [ST set_DT]; lia]. }
    destruct (IH m1 Hwf1) as [Hwf' HD'].
    destruct (ticks n m1) as [m' out]. cbn [fst] in *. split; [done|].
    rewrite HD'. subst m1. cbn [st set_st DT set_DT set_ST]. lia.
Qed.

(** X26: the delay timer can be written and read back: FX15 followed by
    FY07, with any number of timer ticks in between, leaves in Vy the value
    of Vx counted down by the number of ticks and stopped at 0. *)
Theorem delay_timer_round_trip (k : Keypad) (rnd rnd' : Z) (n : nat)
    (m : Chip8VM) (op1 vx : Z) :
  wf m = true →
  fetch (st m) = Ok op1 → op_fam op1 = 0xF000 → op_nn op1 = 0x15 →
  reg m (op_x op1) = Some vx →
  ∃ m1, step k rnd m = Ok (m1, false)
    ∧ DT (st m1) = vx
    ∧ ∀ op2, fetch (st (fst (ticks n m1))) = Ok op2 →
        op_fam op2 = 0xF000 → op_nn op2 = 0x07 →
        ∃ m2, step k rnd' (fst (ticks n m1)) = Ok (m2, false)
          ∧ reg m2 (op_x op2) = Some (Z.max 0 (vx - Z.of_nat n)).
Proof.
  intros Hwf Hf Hfam Hnn Hvx. pose proof (op_x_range op1).
  pose proof (reg_byte _ _ _ Hwf Hvx) as Hb.
  assert (Hwf1 : wf (set_st (set_st m (skip (st m))) (set_DT (skip (st m)) vx)) = true).
  { apply wf_spec. apply wf_spec in Hwf as [Hs ? ? ?]. split; try done.
    apply wf_set_DT; [by apply wf_skip | done]. }
  rewrite (step_fetch _ _ _ _ Hf), exec_misc_eq, exec_misc_set_DT by done.
  cbn [st set_st]. rewrite (rd_v_Ok _ (op_x op1) vx), !bind_Ok by (done || lia).
  eexists. split; [reflexivity|]. split; [done|].
  intros op2 Hf2 Hfam2 Hnn2. pose proof (op_x_range op2).
  destruct (ticks_down_DT n _ Hwf1) as (Hwf2 & HDT).
  cbn [st set_st DT set_DT] in HDT.
  pose proof (wf_v_len _ (wf_State_of _ Hwf2)) as Hlen.
  rewrite (step_fetch _ _ _ _ Hf2), exec_misc_eq, exec_misc_get_DT by done.
  cbn [st set_st]. rewrite wr_v_Ok, !bind_Ok by (cbn [v skip set_pc]; lia).
  eexists. split; [reflexivity|]. unfold reg. cbn [st set_st v set_v skip set_pc DT].
  rewrite HDT. apply list_lookup_insert_eq. lia.
Qed.

Lemma delay_timer_round_trip_witness :
  wf m_delay = true ∧ fetch (st m_delay) = Ok 0xF015 ∧ reg m_delay 0 = Some 9
  ∧ ∃ m1, step no_keys 0 m_delay = Ok (m1, false)
    ∧ DT (st m1) = 9
    ∧ ∀ op2, fetch (st (fst (ticks 4 m1))) = Ok op2 →
        op_fam op2 = 0xF000 → op_nn op2 = 0x07 →
        ∃ m2, step no_keys 0 (fst (ticks 4 m1)) = Ok (m2, false)
          ∧ reg m2 (op_x op2) = Some (Z.max 0 (9 - Z.of_nat 4)).
Proof.
  split_and!; [vm_compute; reflexivity .. |].
  apply (delay_timer_round_trip no_keys 0 0 4 m_delay 0xF015 9); vm_compute; reflexivity.
Defined.

(** ** Conditional skips, immediates, logic and random *)

Lemma skip_twice (s : State) : skip (skip s) = set_pc s (u16 (pc s + 4)).
Proof.
  unfold skip. cbn [pc set_pc]. unfold set_pc. cbn. f_equal.
  unfold u16. rewrite Zplus_mod_idemp_l. f_equal. lia.
Qed.

(** X27: the four comparisons skip the next instruction exactly on their
    condition: 3XNN when Vx = NN, 4XNN when Vx differs from NN, 5XY0 when
    Vx = Vy and 9XY0 when Vx differs from Vy.  Nothing but the program
    counter changes. *)
Theorem compare_skips (k : Keypad) (rnd : Z) (m : Chip8VM) (op vx vy : Z) :
  fetch (st m) = Ok op →
  reg m (op_x op) = Some vx → reg m (op_y op) = Some vy →
  (op_fam op = 0x3000 →
   step k rnd m
   = Ok (set_st m (set_pc (st m) (u16 (pc (st m) + (if vx =? op_nn op then 4 else 2)))),
         false))
  ∧ (op_fam op = 0x4000 →
     step k rnd m
     = Ok (set_st m (set_pc (st m) (u16 (pc (st m) + (if vx =? op_nn op then 2 else 4)))),
           false))
  ∧ (op_fam op = 0x5000 → Z.land op 0xF = 0 →
     step k rnd m
     = Ok (set_st m (set_pc (st m) (u16 (pc (st m) + (if vx =? vy then 4 else 2)))),
           false))
  ∧ (op_fam op = 0x9000 → Z.land op 0xF = 0 →
     step k rnd m
     = Ok (set_st m (set_pc (st m) (u16 (pc (st m) + (if vx =? vy then 2 else 4)))),
           false)).
Proof.
  intros Hf Hvx Hvy. pose proof (op_x_range op). pose proof (op_y_range op).
  rewrite (step_fetch _ _ _ _ Hf). unfold exec. cbn [st set_st].
  split_and!.
  - intros ->. cbn [Z.eqb Pos.eqb].
    rewrite (rd_v_Ok _ (op_x op) vx), !bind_Ok by (done || lia).
    destruct (vx =? op_nn op); [by rewrite skip_twice | done].
  - intros ->. cbn [Z.eqb Pos.eqb].
    rewrite (rd_v_Ok _ (op_x op) vx), !bind_Ok by (done || lia).
    destruct (vx =? op_nn op); cbn [negb]; [done | by rewrite skip_twice].
  - intros -> ->. cbn [Z.eqb Pos.eqb].
    rewrite (rd_v_Ok _ (op_x op) vx), bind_Ok by (done || lia).
    rewrite (rd_v_Ok _ (op_y op) vy), !bind_Ok by (done || lia).
    destruct (vx =? vy); [by rewrite skip_twice | done].
  - intros -> ->. cbn [Z.eqb Pos.eqb].
    rewrite (rd_v_Ok _ (op_x op) vx), bind_Ok by (done || lia).
    rewrite (rd_v_Ok _ (op_y op) vy), !bind_Ok by (done || lia).
    destruct (vx =? vy); cbn [negb]; [done | by rewrite skip_twice].
Qed.

Lemma compare_skips_witness :
  fetch (st m_compare) = Ok 0x3107
  ∧ reg m_compare (op_x 0x3107) = Some 0x07 ∧ reg m_compare (op_y 0x3107) = Some 0
  ∧ (op_fam 0x3107 = 0x3000 →
     step no_keys 0 m_compare
     = Ok (set_st m_compare
             (set_pc (st m_compare)
                (u16 (pc (st m_compare) + (if 0x07 =? op_nn 0x3107 then 4 else 2)))),
           false)).
Proof.
  split_and!; [vm_compute; reflexivity .. |].
  apply (compare_skips no_keys 0 m_compare 0x3107 0x07 0); vm_compute; reflexivity.
Defined.

Lemma land_le_r (a b : Z) : 0 ≤ b → Z.land a b ≤ b.
Proof.
  intros Hb. apply Z.ldiff_le; [done|].
  apply Z.bits_inj'. intros i _. rewrite Z.ldiff_spec, Z.land_spec, Z.bits_0.
  by destruct (Z.testbit a i), (Z.testbit b i).
Qed.

(** X28: CXNN leaves in Vx the low byte of the random value masked with NN:
    the result has no bit outside NN, so it is at most NN, whatever
    [rand()] returns.  The other registers are unchanged. *)
Theorem random_is_masked (k : Keypad) (rnd : Z) (m : Chip8VM) (op : Z) :
  wf m = true →
  fetch (st m) = Ok op → op_fam op = 0xC000 →
  ∃ m' r, step k rnd m = Ok (m', false)
    ∧ reg m' (op_x op) = Some r
    ∧ r = Z.land (rnd mod 256) (op_nn op)
    ∧ 0 ≤ r ≤ op_nn op ∧ Z.land r (op_nn op) = r
    ∧ (∀ i, 0 ≤ i → i ≠ op_x op → reg m' i = reg m i)
    ∧ wf m' = true.
Proof.
  intros Hwf Hf Hfam.
  pose proof (wf_v_len _ (wf_State_of _ Hwf)) as Hlen.
  pose proof (op_x_range op) as Hxr. pose proof (op_nn_range op) as Hnn.
  assert (Hmod : Z.land rnd 0xFF = rnd mod 256).
  { change 0xFF with (Z.ones 8). by rewrite Z.land_ones by lia. }
  assert (Hr0 : 0 ≤ Z.land (rnd mod 256) (op_nn op))
    by (apply Z.land_nonneg; right; lia).
  pose proof (land_le_r (rnd mod 256) (op_nn op) ltac:(lia)) as Hle.
  assert (Hu8 : u8 (Z.land (Z.land rnd 0xFF) (op_nn op)) = Z.land (rnd mod 256) (op_nn op)).
  { rewrite Hmod. unfold u8. apply Z.mod_small. lia. }
  pose proof (step_good k rnd m Hwf) as Hg.
  rewrite (step_fetch _ _ _ _ Hf) in Hg |- *. unfold exec in Hg |- *.
  rewrite Hfam in Hg |- *. cbn [Z.eqb Pos.eqb st set_st] in Hg |- *.
  rewrite Hu8 in Hg |- *.
  rewrite wr_v_Ok, bind_Ok in Hg |- * by (cbn [v skip set_pc]; lia).
  eexists _, (Z.land (rnd mod 256) (op_nn op)). split; [reflexivity|].
  unfold reg. cbn [st set_st v set_v skip set_pc].
  split_and!; try done; try lia.
  - by rewrite list_lookup_insert_eq by lia.
  - by rewrite <- Z.land_assoc, Z.land_diag.
  - intros i Hi Hne. by rewrite list_lookup_insert_ne by lia.
  - apply wf_spec. cbn in Hg. by destruct Hg as [[[? _]|[? _]] _].
Qed.

Lemma random_is_masked_witness :
  wf m_random = true ∧ fetch (st m_random) = Ok 0xC30F ∧ op_fam 0xC30F = 0xC000
  ∧ ∃ m' r, step no_keys 0x1234ABCD m_random = Ok (m', false)
      ∧ reg m' (op_x 0xC30F) = Some r
      ∧ r = Z.land (0x1234ABCD mod 256) (op_nn 0xC30F)
      ∧ 0 ≤ r ≤ op_nn 0xC30F ∧ Z.land r (op_nn 0xC30F) = r
      ∧ (∀ i, 0 ≤ i → i ≠ op_x 0xC30F → reg m' i = reg m_random i)
      ∧ wf m' = true.
Proof.
  split_and!; [vm_compute; reflexivity .. |].
  apply (random_is_masked no_keys 0x1234ABCD m_random 0xC30F); vm_compute; reflexivity.
Defined.

(** X29: the immediates write no flag.  6XNN leaves NN in Vx and 7XNN
    leaves the low 8 bits of Vx + NN in Vx; every other register, register
    F included, is unchanged, so an addition that wraps is not reported. *)
Theorem immediates_write_no_flag (k : Keypad) (rnd : Z) (m : Chip8VM) (op vx : Z) :
  wf m = true →
  fetch (st m) = Ok op → reg m (op_x op) = Some vx →
  (op_fam op = 0x6000 →
   ∃ m', step k rnd m = Ok (m', false)
     ∧ reg m' (op_x op) = Some (op_nn op)
     ∧ (∀ i, 0 ≤ i → i ≠ op_x op → reg m' i = reg m i))
  ∧ (op_fam op = 0x7000 →
     ∃ m', step k rnd m = Ok (m', false)
       ∧ reg m' (op_x op) = Some ((vx + op_nn op) mod 256)
       ∧ (∀ i, 0 ≤ i → i ≠ op_x op → reg m' i = reg m i)).
Proof.
  intros Hwf Hf Hvx.
  pose proof (wf_v_len _ (wf_State_of _ Hwf)) as Hlen.
  pose proof (op_x_range op) as Hxr.
  rewrite (step_fetch _ _ _ _ Hf). unfold exec. cbn [st set_st].
  split; intros ->; cbn [Z.eqb Pos.eqb].
  - rewrite wr_v_Ok, bind_Ok by (cbn [v skip set_pc]; lia).
    eexists. split; [reflexivity|].
    unfold reg. cbn [st set_st v set_v skip set_pc]. split.
    + by rewrite list_lookup_insert_eq by lia.
    + intros i Hi Hne. by rewrite list_lookup_insert_ne by lia.
  - rewrite (rd_v_Ok _ (op_x op) vx), bind_Ok by (done || lia).
    rewrite wr_v_Ok, bind_Ok by (cbn [v skip set_pc]; lia).
    eexists. split; [reflexivity|].
    unfold reg. cbn [st set_st v set_v skip set_pc]. split.
    + by rewrite list_lookup_insert_eq by lia.
    + intros i Hi Hne. by rewrite list_lookup_insert_ne by lia.
Qed.

Lemma immediates_write_no_flag_witness :
  wf m_add_imm = true ∧ fetch (st m_add_imm) = Ok 0x7002 ∧ reg m_add_imm 0 = Some 0xFF
  ∧ (op_fam 0x7002 = 0x7000 →
     ∃ m', step no_keys 0 m_add_imm = Ok (m', false)
       ∧ reg m' (op_x 0x7002) = Some ((0xFF + op_nn 0x7002) mod 256)
       ∧ (∀ i, 0 ≤ i → i ≠ op_x 0x7002 → reg m' i = reg m_add_imm i)).
Proof.
  split_and!; [vm_compute; reflexivity .. |].
  apply (immediates_write_no_flag no_keys 0 m_add_imm 0x7002 0xFF); vm_compute; reflexivity.
Defined.

(** The result of the copy and of the three bitwise operations. *)
Lemma exec_alu_logic (s : State) (op : Z) :
  0 ≤ Z.land op 0xF < 4 →
  exec_alu s op =
    (vx ← rd_v s (op_x op); vy ← rd_v s (op_y op);
     wr_v s (op_x op) (logic_result (Z.land op 0xF) vx vy))
  ∨ (Z.land op 0xF = 0
     ∧ exec_alu s op = (vy ← rd_v s (op_y op); wr_v s (op_x op) vy)).
Proof.
  intros Hk. unfold exec_alu, logic_result. cbv zeta.
  destruct (Z.eqb_spec (Z.land op 0xF) 0) as [?|?]; [by right|].
  destruct (Z.eqb_spec (Z.land op 0xF) 1) as [?|?]; [by left|].
  destruct (Z.eqb_spec (Z.land op 0xF) 2) as [?|?]; [by left|].
  destruct (Z.eqb_spec (Z.land op 0xF) 3) as [?|?]; [by left|].
  lia.
Qed.

(** X30: 8XY0, 8XY1, 8XY2 and 8XY3 leave in Vx the value of Vy, the
    bitwise or, the bitwise and and the bitwise exclusive or of Vx and Vy;
    the result is a byte and every other register, register F included, is
    unchanged. *)
Theorem logic_ops_leave_flag (k : Keypad) (rnd : Z) (m : Chip8VM) (op vx vy : Z) :
  wf m = true →
  fetch (st m) = Ok op → op_fam op = 0x8000 → 0 ≤ Z.land op 0xF < 4 →
  reg m (op_x op) = Some vx → reg m (op_y op) = Some vy →
  ∃ m', step k rnd m = Ok (m', false)
    ∧ reg m' (op_x op) = Some (logic_result (Z.land op 0xF) vx vy)
    ∧ 0 ≤ logic_result (Z.land op 0xF) vx vy < 256
    ∧ (∀ i, 0 ≤ i → i ≠ op_x op → reg m' i = reg m i)
    ∧ st m' = set_v (skip (st m)) (v (st m')) ∧ fb m' = fb m.
Proof.
  intros Hwf Hf Hfam Hk Hvx Hvy.
  pose proof (wf_v_len _ (wf_State_of _ Hwf)) as Hlen.
  pose proof (reg_byte _ _ _ Hwf Hvx) as Hbx. pose proof (reg_byte _ _ _ Hwf Hvy) as Hby.
  pose proof (op_x_range op) as Hxr. pose proof (op_y_range op) as Hyr.
  assert (Hbyte : 0 ≤ logic_result (Z.land op 0xF) vx vy < 256).
  { unfold logic_result.
    repeat match goal with |- context [if ?b then _ else _] => destruct b end;
      byte_goal. }
  rewrite (step_fetch _ _ _ _ Hf), exec_alu_eq by done. cbn [st set_st].
  destruct (exec_alu_logic (skip (st m)) op Hk) as [-> | [H0 ->]].
  - rewrite (rd_v_Ok _ (op_x op) vx), bind_Ok by (done || lia).
    rewrite (rd_v_Ok _ (op_y op) vy), bind_Ok by (done || lia).
    rewrite wr_v_Ok, bind_Ok by (cbn [v skip set_pc]; lia).
    eexists. split; [reflexivity|].
    unfold reg. cbn [st set_st v set_v skip set_pc fb].
    split_and!; try done; try lia.
    + by rewrite list_lookup_insert_eq by lia.
    + intros i Hi Hne. by rewrite list_lookup_insert_ne by lia.
  - rewrite (rd_v_Ok _ (op_y op) vy), bind_Ok by (done || lia).
    rewrite wr_v_Ok, bind_Ok by (cbn [v skip set_pc]; lia).
    eexists. split; [reflexivity|].
    unfold reg. cbn [st set_st v set_v skip set_pc fb].
    split_and!; try done; try lia.
    + rewrite list_lookup_insert_eq by lia. by rewrite H0.
    + intros i Hi Hne. by rewrite list_lookup_insert_ne by lia.
Qed.

Lemma logic_ops_leave_flag_witness :
  wf m_logic = true ∧ fetch (st m_logic) = Ok 0x8013
  ∧ reg m_logic 0 = Some 0xF0 ∧ reg m_logic 1 = Some 0x3C
  ∧ ∃ m', step no_keys 0 m_logic = Ok (m', false)
      ∧ reg m' (op_x 0x8013) = Some (logic_result (Z.land 0x8013 0xF) 0xF0 0x3C)
      ∧ 0 ≤ logic_result (Z.land 0x8013 0xF) 0xF0 0x3C < 256
      ∧ (∀ i, 0 ≤ i → i ≠ op_x 0x8013 → reg m' i = reg m_logic i)
      ∧ st m' = set_v (skip (st m_logic)) (v (st m')) ∧ fb m' = fb m_logic.
Proof.
  split_and!; [vm_compute; reflexivity .. |].
  apply (logic_ops_leave_flag no_keys 0 m_logic 0x8013 0xF0 0x3C);
    vm_compute; first [reflexivity | split; [discriminate | reflexivity]].
Defined.
